(** * zcomp: the compression-stream pool of zram (drivers/block/zram/zcomp.c)

    A shallow embedding of zcomp.c.  Kernel memory is an explicit heap of
    typed objects; every function of the file is a computation in a
    state-and-fault monad over that heap.  The multi-stream backend is
    used by many threads at once: each of its functions is cut at the
    points where [strm_lock] is dropped, and a scheduler interleaves the
    resulting atomic sections.

    The file has three parts: the model of zcomp.c, the vocabulary of
    the theorems (with the example states they are tried on), and the
    proofs. *)

From Stdlib Require Import ZArith Lia Ascii.
From stdpp Require Import gmap strings list fin_maps.

Local Open Scope Z_scope.

(** ** Machine integers and kernel constants *)

Abbreviation addr := positive.

(** [int] is 32 bits wide; arithmetic on it wraps around. *)
Definition INT_MIN : Z := -2147483648.
Definition INT_MAX : Z := 2147483647.
Definition int_wrap (x : Z) : Z := (x + 2147483648) mod 4294967296 - 2147483648.
Definition is_int (x : Z) : Prop := INT_MIN <= x <= INT_MAX.

(** The two error codes zcomp.c returns. *)
Inductive errno := ENOMEM | EINVAL.

(** A [struct crypto_comp *]: NULL, an [ERR_PTR], or a live transform. *)
Inductive tfm_ptr :=
| TfmNull
| TfmErr (e : errno)
| Tfm (t : addr).

Definition IS_ERR_OR_NULL (p : tfm_ptr) : bool :=
  match p with
  | Tfm _ => false
  | TfmNull | TfmErr _ => true
  end.

(** ** The structures of zcomp.c *)

(** [struct zcomp_strm]: its [list] member is its membership of
    [idle_strm] below. *)
Record zcomp_strm := Zstrm {
  tfm : tfm_ptr;
  buffer : option addr
}.

(** [struct zcomp_strm_single]; [strm_lock] is [true] while the mutex is held. *)
Record zcomp_strm_single := Zsingle {
  strm_lock : bool;
  zstrm : option addr
}.

(** [struct zcomp_strm_multi].  The spinlock is the atomicity of the
    sections below and the wait queue is the set of sleeping threads of
    the scheduler; [idle_strm] lists the streams from the list head on. *)
Record zcomp_strm_multi := Zmulti {
  max_strm : Z;
  avail_strm : Z;
  idle_strm : list addr
}.

(** The eight static functions a [struct zcomp] can point to. *)
Inductive fn :=
| fn_multi_find | fn_multi_release | fn_multi_set_max_streams | fn_multi_destroy
| fn_single_find | fn_single_release | fn_single_set_max_streams | fn_single_destroy.

(** [struct zcomp] (declared in zcomp.h), with the members zcomp.c uses. *)
Record zcomp := Zcomp {
  stream : option addr;
  name : option string;
  strm_find : option fn;
  strm_release : option fn;
  set_max_streams : option fn;
  destroy : option fn
}.

(** What a slab object holds. *)
Inductive kobj :=
| KUninit
| KStrm (s : zcomp_strm)
| KSingle (zs : zcomp_strm_single)
| KMulti (zs : zcomp_strm_multi)
| KComp (c : zcomp).

(** A block of [2^order] pages with its contents. *)
Record page_block := Pages {
  pb_order : nat;
  pb_data : list Byte.byte
}.

(** Kernel memory: slab objects, crypto transforms (with the algorithm
    they were made for) and page blocks. *)
Record heap := Heap {
  slab : gmap addr kobj;
  crypto : gmap addr string;
  pages : gmap addr page_block
}.

(** The heap together with the number of allocation requests made so far. *)
Record world := World {
  hp : heap;
  nreq : nat
}.

(** ** The monad: state over [world], [None] for a memory fault *)

Definition M (A : Type) : Type := world -> option (A * world).

Definition ret {A} (a : A) : M A := fun w => Some (a, w).
Definition fault {A} : M A := fun _ => None.
Definition bind {A B} (c : M A) (f : A -> M B) : M B :=
  fun w => match c w with
           | Some (a, w') => f a w'
           | None => None
           end.

Notation "'let*' x ':=' c1 'in' c2" := (bind c1 (fun x => c2))
  (at level 10, x pattern, c1 at level 100, c2 at level 200).
Notation "c1 ';;' c2" := (bind c1 (fun _ => c2))
  (at level 100, c2 at level 200, right associativity).

Definition set_slab (f : gmap addr kobj -> gmap addr kobj) (w : world) : world :=
  World (Heap (f (slab (hp w))) (crypto (hp w)) (pages (hp w))) (nreq w).
Definition set_crypto (f : gmap addr string -> gmap addr string) (w : world) : world :=
  World (Heap (slab (hp w)) (f (crypto (hp w))) (pages (hp w))) (nreq w).
Definition set_pages (f : gmap addr page_block -> gmap addr page_block) (w : world) : world :=
  World (Heap (slab (hp w)) (crypto (hp w)) (f (pages (hp w)))) (nreq w).

(** Typed loads fault on a dangling or ill-typed pointer. *)
Definition load (a : addr) : M kobj :=
  fun w => match slab (hp w) !! a with
           | Some o => Some (o, w)
           | None => None
           end.
Definition load_strm (a : addr) : M zcomp_strm :=
  let* o := load a in match o with KStrm s => ret s | _ => fault end.
Definition load_single (a : addr) : M zcomp_strm_single :=
  let* o := load a in match o with KSingle zs => ret zs | _ => fault end.
Definition load_multi (a : addr) : M zcomp_strm_multi :=
  let* o := load a in match o with KMulti zs => ret zs | _ => fault end.
Definition load_comp (a : addr) : M zcomp :=
  let* o := load a in match o with KComp c => ret c | _ => fault end.

Definition store (a : addr) (o : kobj) : M unit :=
  fun w => match slab (hp w) !! a with
           | Some _ => Some (tt, set_slab (insert a o) w)
           | None => None
           end.

(** [kfree]: a double free is a fault. *)
Definition kfree (a : addr) : M unit :=
  fun w => match slab (hp w) !! a with
           | Some _ => Some (tt, set_slab (delete a) w)
           | None => None
           end.

(** [crypto_free_comp]. *)
Definition crypto_free_comp (p : tfm_ptr) : M unit :=
  match p with
  | Tfm t => fun w => match crypto (hp w) !! t with
                      | Some _ => Some (tt, set_crypto (delete t) w)
                      | None => None
                      end
  | TfmNull | TfmErr _ => fault
  end.

(** [free_pages(addr, order)] does nothing for address 0. *)
Definition free_pages (a : option addr) (order : nat) : M unit :=
  match a with
  | None => ret tt
  | Some b => fun w => match pages (hp w) !! b with
                       | Some blk => if decide (pb_order blk = order)
                                     then Some (tt, set_pages (delete b) w)
                                     else None
                       | None => None
                       end
  end.

(** ** C strings *)

(** A [string] is read as the bytes up to its end or its first NUL. *)
Definition nul : ascii := Ascii.zero.
Definition newline : ascii := Ascii.ascii_of_nat 10.
Definition deref (s : string) : ascii :=
  match s with
  | EmptyString => nul
  | String c _ => c
  end.
Definition advance (s : string) : string :=
  match s with
  | EmptyString => EmptyString
  | String _ r => r
  end.
Definition is_nul (c : ascii) : bool := bool_decide (c = nul).
Definition char_eq (c d : ascii) : bool := bool_decide (c = d).

Fixpoint c_str (s : string) : string :=
  match s with
  | EmptyString => EmptyString
  | String c r => if is_nul c then EmptyString else String c (c_str r)
  end.

(** Modelled from the spec: [sysfs_streq] (lib/string.c) is not in this
    file.  The availability check is a sysfs-style comparison: the two
    strings are equal when they agree byte for byte, or when they agree
    up to one trailing newline at the end of either of them.  [tails]
    is what the function decides once its loop has stopped. *)
Definition sysfs_streq_tails (s1 s2 : string) : bool :=
  if char_eq (deref s1) (deref s2) then true
  else if is_nul (deref s1) && char_eq (deref s2) newline && is_nul (deref (advance s2)) then true
  else if char_eq (deref s1) newline && is_nul (deref (advance s1)) && is_nul (deref s2) then true
  else false.

Fixpoint sysfs_streq (s1 s2 : string) : bool :=
  match s1 with
  | String c r1 =>
      if negb (is_nul c) && char_eq c (deref s2)
      then sysfs_streq r1 (advance s2)
      else sysfs_streq_tails s1 s2
  | EmptyString => sysfs_streq_tails s1 s2
  end.

(** Modelled from the spec: [strcmp] (lib/string.c) is not in this file;
    the listing marks a backend on an exact byte-wise match, which is
    [strcmp] returning 0. *)
Fixpoint strcmp (cs ct : string) : Z :=
  let c1 := deref cs in
  let c2 := deref ct in
  if negb (char_eq c1 c2)
  then (if (nat_of_ascii c1 <? nat_of_ascii c2)%nat then -1 else 1)
  else match cs with
       | String c r => if is_nul c then 0 else strcmp r (advance ct)
       | EmptyString => 0
       end.

(** Modelled from the spec: [scnprintf] (lib/vsprintf.c) is not in this
    file.  It writes at most [size - 1] bytes of the text and returns
    what it wrote; nothing when [size] is not positive. *)
Definition scnprintf (size : Z) (text : string) : string :=
  if size <=? 0 then EmptyString
  else String.substring 0 (Z.to_nat (size - 1)) text.

(** ** The compile-time and run-time environment of the file *)

(** [PAGE_SIZE], the gfp flags of linux/gfp.h and the Kconfig switch that
    adds the second backend; whether the [k]-th allocation request of a
    run is granted, and what a page that is not cleared holds at each
    offset. *)
Class kernel := Kernel {
  PAGE_SIZE : nat;
  GFP_KERNEL : Z;
  GFP_NOIO : Z;
  __GFP_NORETRY : Z;
  __GFP_NOWARN : Z;
  __GFP_ZERO : Z;
  CONFIG_ZRAM_LZ4_COMPRESS : bool;
  alloc_ok : nat -> bool;
  stale : nat -> Byte.byte
}.

Section ZCOMP.

Context {K : kernel}.

(** ** Allocators *)

Definition next_request : M bool :=
  fun w => Some (alloc_ok (nreq w), World (hp w) (S (nreq w))).

(** [kmalloc]: NULL, or a new object whose members are not set yet. *)
Definition kmalloc (flags : Z) : M (option addr) :=
  let* ok := next_request in
  if ok
  then fun w => let a := fresh (dom (slab (hp w))) in
                Some (Some a, set_slab (insert a KUninit) w)
  else ret None.

(** [kzalloc(sizeof(struct zcomp))]: every member is zero. *)
Definition kzalloc_zcomp (flags : Z) : M (option addr) :=
  let* a := kmalloc (Z.lor flags __GFP_ZERO) in
  match a with
  | Some a => store a (KComp (Zcomp None None None None None None)) ;; ret (Some a)
  | None => ret None
  end.

(** [crypto_alloc_comp]: an [ERR_PTR] or a new transform. *)
Definition crypto_alloc_comp (alg : string) : M tfm_ptr :=
  let* ok := next_request in
  if ok
  then fun w => let t := fresh (dom (crypto (hp w))) in
                Some (Tfm t, set_crypto (insert t alg) w)
  else ret (TfmErr ENOMEM).

(** [__get_free_pages]: 0, or a new block of [2^order] pages, cleared
    when the flags ask for it. *)
Definition page_bytes (order : nat) : nat := (PAGE_SIZE * 2 ^ order)%nat.
Definition fresh_page_data (flags : Z) (order : nat) : list Byte.byte :=
  if Z.land flags __GFP_ZERO =? 0
  then stale <$> seq 0 (page_bytes order)
  else replicate (page_bytes order) Byte.x00.
Definition __get_free_pages (flags : Z) (order : nat) : M (option addr) :=
  let* ok := next_request in
  if ok
  then fun w => let b := fresh (dom (pages (hp w))) in
                Some (Some b, set_pages (insert b (Pages order (fresh_page_data flags order))) w)
  else ret None.

(** ** The backend registry *)

Definition backends : list string :=
  "lzo"%string :: (if CONFIG_ZRAM_LZ4_COMPRESS then ["lz4"%string] else []).

Fixpoint find_backend_from (bs : list string) (compress : string) : option string :=
  match bs with
  | [] => None
  | b :: rest => if sysfs_streq compress b then Some b else find_backend_from rest compress
  end.

Definition find_backend (compress : string) : option string :=
  find_backend_from backends compress.

(** ** Streams *)

Definition zcomp_strm_free (zstrm : addr) : M unit :=
  let* s := load_strm zstrm in
  (if negb (IS_ERR_OR_NULL (tfm s)) then crypto_free_comp (tfm s) else ret tt) ;;
  free_pages (buffer s) 1 ;;
  kfree zstrm.

Definition zcomp_strm_alloc (comp : addr) (flags : Z) : M (option addr) :=
  let* zstrm := kmalloc flags in
  match zstrm with
  | None => ret None
  | Some zstrm =>
      let* c := load_comp comp in
      let* t := match name c with
                | Some alg => crypto_alloc_comp alg
                | None => fault
                end in
      let* b := __get_free_pages (Z.lor flags __GFP_ZERO) 1 in
      store zstrm (KStrm (Zstrm t b)) ;;
      if IS_ERR_OR_NULL t || negb (bool_decide (is_Some b))
      then zcomp_strm_free zstrm ;; ret None
      else ret (Some zstrm)
  end.

(** ** The multi-stream backend *)

(** [comp->stream] read as a [struct zcomp_strm_multi *]. *)
Definition multi_of (comp : addr) : M (addr * zcomp_strm_multi) :=
  let* c := load_comp comp in
  match stream c with
  | Some zs => let* m := load_multi zs in ret (zs, m)
  | None => fault
  end.

(** Where a thread stands.  Outside the pool it is [Out] or, between a
    find and the matching release, [Holding] the stream it was given. *)
Inductive pc :=
| Out
| Holding (zstrm : addr)
| Find_top                (* line 103, before spin_lock *)
| Find_wait               (* lines 114 and 134, wait_event tests its condition *)
| Find_sleep              (* asleep on strm_wait *)
| Find_alloc              (* line 128, the slot is reserved *)
| Find_undo               (* line 131, the allocation failed *)
| Rel_top (zstrm : addr)  (* line 147, before spin_lock *)
| Rel_wake                (* line 151, wake_up *)
| Rel_free (zstrm : addr) (* line 157, zcomp_strm_free *).

(** [zcomp_strm_multi_find], one atomic section at a time.  It leaves
    the function only through [Holding]. *)
Definition zcomp_strm_multi_find (comp : addr) (at_pc : pc) : M pc :=
  match at_pc with
  | Find_top =>
      let* (zs, m) := multi_of comp in
      match idle_strm m with
      | zstrm :: rest =>
          store zs (KMulti (Zmulti (max_strm m) (avail_strm m) rest)) ;;
          ret (Holding zstrm)
      | [] =>
          if avail_strm m >=? max_strm m
          then ret Find_wait
          else store zs (KMulti (Zmulti (max_strm m) (int_wrap (avail_strm m + 1)) [])) ;;
               ret Find_alloc
      end
  | Find_wait =>
      let* (zs, m) := multi_of comp in
      match idle_strm m with
      | _ :: _ => ret Find_top
      | [] => ret Find_sleep
      end
  | Find_alloc =>
      let* zstrm := zcomp_strm_alloc comp (Z.lor (Z.lor GFP_NOIO __GFP_NORETRY) __GFP_NOWARN) in
      match zstrm with
      | Some zstrm => ret (Holding zstrm)
      | None => ret Find_undo
      end
  | Find_undo =>
      let* (zs, m) := multi_of comp in
      store zs (KMulti (Zmulti (max_strm m) (int_wrap (avail_strm m - 1)) (idle_strm m))) ;;
      ret Find_wait
  | _ => fault
  end.

(** [zcomp_strm_multi_release], up to the point where the lock is dropped;
    the [wake_up] of [Rel_wake] is the scheduler's. *)
Definition zcomp_strm_multi_release (comp : addr) (at_pc : pc) : M pc :=
  match at_pc with
  | Rel_top zstrm =>
      let* (zs, m) := multi_of comp in
      if avail_strm m <=? max_strm m
      then store zs (KMulti (Zmulti (max_strm m) (avail_strm m) (zstrm :: idle_strm m))) ;;
           ret Rel_wake
      else store zs (KMulti (Zmulti (max_strm m) (int_wrap (avail_strm m - 1)) (idle_strm m))) ;;
           ret (Rel_free zstrm)
  | Rel_free zstrm =>
      zcomp_strm_free zstrm ;; ret Out
  | _ => fault
  end.

(** The loop of [zcomp_strm_multi_set_max_streams] (lines 172-178). *)
Fixpoint free_idle_above (num_strm : Z) (idle : list addr) (avail : Z) : M (list addr * Z) :=
  match idle with
  | zstrm :: rest =>
      if avail >? num_strm
      then zcomp_strm_free zstrm ;; free_idle_above num_strm rest (int_wrap (avail - 1))
      else ret (idle, avail)
  | [] => ret (idle, avail)
  end.

Definition zcomp_strm_multi_set_max_streams (comp : addr) (num_strm : Z) : M bool :=
  let* (zs, m) := multi_of comp in
  let* (idle, avail) := free_idle_above num_strm (idle_strm m) (avail_strm m) in
  store zs (KMulti (Zmulti num_strm avail idle)) ;;
  ret true.

(** The loop of [zcomp_strm_multi_destroy]. *)
Fixpoint free_all (idle : list addr) : M unit :=
  match idle with
  | zstrm :: rest => zcomp_strm_free zstrm ;; free_all rest
  | [] => ret tt
  end.

Definition zcomp_strm_multi_destroy (comp : addr) : M unit :=
  let* (zs, m) := multi_of comp in
  free_all (idle_strm m) ;;
  kfree zs.

Definition set_ops (c : zcomp) (d f r s : fn) : zcomp :=
  Zcomp (stream c) (name c) (Some f) (Some r) (Some s) (Some d).
Definition set_stream (c : zcomp) (zs : addr) : zcomp :=
  Zcomp (Some zs) (name c) (strm_find c) (strm_release c) (set_max_streams c) (destroy c).
Definition set_name (c : zcomp) (backend : string) : zcomp :=
  Zcomp (stream c) (Some backend) (strm_find c) (strm_release c) (set_max_streams c) (destroy c).

(** The [int] a create function returns: 0 is [None], [-e] is [Some e]. *)
Definition zcomp_strm_multi_create (comp : addr) (max_strm_ : Z) : M (option errno) :=
  let* c := load_comp comp in
  store comp (KComp (set_ops c fn_multi_destroy fn_multi_find fn_multi_release
                             fn_multi_set_max_streams)) ;;
  let* zs := kmalloc GFP_KERNEL in
  match zs with
  | None => ret (Some ENOMEM)
  | Some zs =>
      let* c := load_comp comp in
      store comp (KComp (set_stream c zs)) ;;
      store zs (KMulti (Zmulti max_strm_ 1 [])) ;;
      let* zstrm := zcomp_strm_alloc comp GFP_KERNEL in
      match zstrm with
      | None => kfree zs ;; ret (Some ENOMEM)
      | Some zstrm =>
          let* m := load_multi zs in
          store zs (KMulti (Zmulti (max_strm m) (avail_strm m) (zstrm :: idle_strm m))) ;;
          ret None
      end
  end.

(** ** The single-stream backend *)

(** [comp->stream] read as a [struct zcomp_strm_single *]. *)
Definition single_of (comp : addr) : M (addr * zcomp_strm_single) :=
  let* c := load_comp comp in
  match stream c with
  | Some zs => let* s := load_single zs in ret (zs, s)
  | None => fault
  end.

(** [mutex_lock] then the one stream; [None] while the mutex is held by
    another caller, who has to release it first. *)
Definition zcomp_strm_single_find (comp : addr) : M (option addr) :=
  let* (zs, s) := single_of comp in
  if strm_lock s then ret None
  else store zs (KSingle (Zsingle true (zstrm s))) ;; ret (zstrm s).

Definition zcomp_strm_single_release (comp : addr) (strm : addr) : M unit :=
  let* (zs, s) := single_of comp in
  store zs (KSingle (Zsingle false (zstrm s))).

Definition zcomp_strm_single_set_max_streams (comp : addr) (num_strm : Z) : M bool :=
  ret false.

Definition zcomp_strm_single_destroy (comp : addr) : M unit :=
  let* (zs, s) := single_of comp in
  match zstrm s with
  | Some z => zcomp_strm_free z ;; kfree zs
  | None => fault
  end.

Definition zcomp_strm_single_create (comp : addr) : M (option errno) :=
  let* c := load_comp comp in
  store comp (KComp (set_ops c fn_single_destroy fn_single_find fn_single_release
                             fn_single_set_max_streams)) ;;
  let* zs := kmalloc GFP_KERNEL in
  match zs with
  | None => ret (Some ENOMEM)
  | Some zs =>
      let* c := load_comp comp in
      store comp (KComp (set_stream c zs)) ;;
      let* z := zcomp_strm_alloc comp GFP_KERNEL in
      store zs (KSingle (Zsingle false z)) ;;
      match z with
      | None => kfree zs ;; ret (Some ENOMEM)
      | Some _ => ret None
      end
  end.

(** ** The interface of zcomp.h *)

(** [zcomp_available_show]: the text written to [buf] (its length is the
    value returned). *)
Fixpoint show_backends (bs : list string) (comp : string) (buf : string) : string :=
  match bs with
  | b :: rest =>
      let sz := Z.of_nat (String.length buf) in
      let text := if strcmp comp b =? 0
                  then ("[" +:+ b +:+ "] ")%string
                  else (b +:+ " ")%string in
      show_backends rest comp (buf +:+ scnprintf (Z.of_nat PAGE_SIZE - sz - 2) text)
  | [] => buf
  end.

Definition zcomp_available_show (comp : string) : string :=
  let buf := show_backends backends comp EmptyString in
  let sz := Z.of_nat (String.length buf) in
  buf +:+ scnprintf (Z.of_nat PAGE_SIZE - sz) (String newline EmptyString).

Definition zcomp_available_algorithm (comp : string) : bool :=
  bool_decide (is_Some (find_backend comp)).

Definition zcomp_set_max_streams (comp : addr) (num_strm : Z) : M bool :=
  let* c := load_comp comp in
  match set_max_streams c with
  | Some fn_multi_set_max_streams => zcomp_strm_multi_set_max_streams comp num_strm
  | Some fn_single_set_max_streams => zcomp_strm_single_set_max_streams comp num_strm
  | _ => fault
  end.

(** [zcomp_stream_get]: where the caller stands once the call has been
    entered; [None] when it cannot be entered yet (the mutex of the
    single backend is held). *)
Definition zcomp_stream_get (comp : addr) : M (option pc) :=
  let* c := load_comp comp in
  match strm_find c with
  | Some fn_multi_find => ret (Some Find_top)
  | Some fn_single_find =>
      let* z := zcomp_strm_single_find comp in
      ret (Holding <$> z)
  | _ => fault
  end.

Definition zcomp_stream_put (comp : addr) (strm : addr) : M pc :=
  let* c := load_comp comp in
  match strm_release c with
  | Some fn_multi_release => ret (Rel_top strm)
  | Some fn_single_release => zcomp_strm_single_release comp strm ;; ret Out
  | _ => fault
  end.

Definition zcomp_destroy (comp : addr) : M unit :=
  let* c := load_comp comp in
  match destroy c with
  | Some fn_multi_destroy => zcomp_strm_multi_destroy comp
  | Some fn_single_destroy => zcomp_strm_single_destroy comp
  | _ => fault
  end ;;
  kfree comp.

(** [ERR_PTR(-e)] is [inl e]. *)
Definition zcomp_create (compress : string) (max_strm_ : Z) : M (errno + addr) :=
  match find_backend compress with
  | None => ret (inl EINVAL)
  | Some backend =>
      let* comp := kzalloc_zcomp GFP_KERNEL in
      match comp with
      | None => ret (inl ENOMEM)
      | Some comp =>
          let* c := load_comp comp in
          store comp (KComp (set_name c backend)) ;;
          let* error := (if max_strm_ >? 1
                         then zcomp_strm_multi_create comp max_strm_
                         else zcomp_strm_single_create comp) in
          match error with
          | Some e => kfree comp ;; ret (inl e)
          | None => ret (inr comp)
          end
      end
  end.

(** ** Threads *)

(** The machine: kernel memory and where each thread stands. *)
Record sys := Sys {
  wd : world;
  thr : list pc
}.

(** [wake_up(&zs->strm_wait)]: every sleeper tests its condition again. *)
Definition wake_one (p : pc) : pc :=
  match p with
  | Find_sleep => Find_wait
  | _ => p
  end.
Definition wake_up (ts : list pc) : list pc := wake_one <$> ts.

(** What the scheduler can pick: a thread outside the pool calls
    [zcomp_stream_get] or [zcomp_stream_put], someone calls
    [zcomp_set_max_streams], or a thread inside a call runs its next
    atomic section. *)
Inductive label :=
| Call_get (t : nat)
| Call_put (t : nat)
| Call_set_max (num_strm : Z)
| Tick (t : nat).

Definition moved (t : nat) (s : sys) (r : option (pc * world)) : option sys :=
  match r with
  | Some (p, w) => Some (Sys w (<[t:=p]> (thr s)))
  | None => None
  end.

Definition step (comp : addr) (l : label) (s : sys) : option sys :=
  match l with
  | Call_get t =>
      match thr s !! t with
      | Some Out =>
          match zcomp_stream_get comp (wd s) with
          | Some (Some p, w) => Some (Sys w (<[t:=p]> (thr s)))
          | _ => None
          end
      | _ => None
      end
  | Call_put t =>
      match thr s !! t with
      | Some (Holding zstrm) => moved t s (zcomp_stream_put comp zstrm (wd s))
      | _ => None
      end
  | Call_set_max num_strm =>
      if bool_decide (is_int num_strm)
      then match zcomp_set_max_streams comp num_strm (wd s) with
           | Some (_, w) => Some (Sys w (thr s))
           | None => None
           end
      else None
  | Tick t =>
      match thr s !! t with
      | Some ((Find_top | Find_wait | Find_alloc | Find_undo) as p) =>
          moved t s (zcomp_strm_multi_find comp p (wd s))
      | Some ((Rel_top _ | Rel_free _) as p) =>
          moved t s (zcomp_strm_multi_release comp p (wd s))
      | Some Rel_wake => Some (Sys (wd s) (<[t:=Out]> (wake_up (thr s))))
      | Some (Out | Holding _ | Find_sleep) | None => None
      end
  end.

Fixpoint run (comp : addr) (ls : list label) (s : sys) : option sys :=
  match ls with
  | [] => Some s
  | l :: ls =>
      match step comp l s with
      | Some s' => run comp ls s'
      | None => None
      end
  end.

(** * The vocabulary of the theorems *)

(** ** Streams in memory *)

(** A stream as [zcomp_strm_alloc] hands it out: its object, its
    transform for [alg] and its two-page buffer are all live. *)
Definition strm_live (h : heap) (alg : string) (z : addr) (t b : addr) (blk : page_block) : Prop :=
  slab h !! z = Some (KStrm (Zstrm (Tfm t) (Some b))) /\
  crypto h !! t = Some alg /\
  pages h !! b = Some blk /\
  pb_order blk = 1%nat /\
  length (pb_data blk) = (2 * PAGE_SIZE)%nat.

(** The heap [h] with one more stream. *)
Definition with_strm (h : heap) (alg : string) (z t b : addr) (blk : page_block) : heap :=
  Heap (<[z := KStrm (Zstrm (Tfm t) (Some b))]> (slab h))
       (<[t := alg]> (crypto h))
       (<[b := blk]> (pages h)).

(** The heap [h] without the stream [z], its transform and its buffer. *)
Definition without_strm (h : heap) (z t b : addr) : heap :=
  Heap (delete z (slab h)) (delete t (crypto h)) (delete b (pages h)).

(** What [zcomp_strm_alloc] does, by the answers to its three requests. *)
Definition strm_alloc_outcome (comp : addr) (flags : Z) (alg : string) (w : world)
  : option addr * world :=
  let k := nreq w in
  if alloc_ok k
  then if alloc_ok (S k) && alloc_ok (S (S k))
       then let z := fresh (dom (slab (hp w))) in
            let t := fresh (dom (crypto (hp w))) in
            let b := fresh (dom (pages (hp w))) in
            (Some z, World (with_strm (hp w) alg z t b
                              (Pages 1 (fresh_page_data (Z.lor flags __GFP_ZERO) 1)))
                           (S (S (S k))))
       else (None, World (hp w) (S (S (S k))))
  else (None, World (hp w) (S k)).

(** The buffer of the stream [z] holds [2 * PAGE_SIZE] zero bytes. *)
Definition zeroed_buffer (h : heap) (z : addr) : Prop :=
  exists st b blk,
    slab h !! z = Some (KStrm st) /\ buffer st = Some b /\
    pages h !! b = Some blk /\
    pb_data blk = replicate (2 * PAGE_SIZE) Byte.x00.

(** ** What [zcomp_create] makes *)

Definition multi_ops (c : zcomp) : Prop :=
  strm_find c = Some fn_multi_find /\
  strm_release c = Some fn_multi_release /\
  set_max_streams c = Some fn_multi_set_max_streams /\
  destroy c = Some fn_multi_destroy.

Definition single_ops (c : zcomp) : Prop :=
  strm_find c = Some fn_single_find /\
  strm_release c = Some fn_single_release /\
  set_max_streams c = Some fn_single_set_max_streams /\
  destroy c = Some fn_single_destroy.

(** The heap after a successful create function: the compressor [c]
    with its pool object at [zs], and the one stream [z]. *)
Definition pool_created (h : heap) (comp : addr) (c : zcomp) (pool : kobj)
    (zs z t b : addr) (alg : string) (blk : page_block) : heap :=
  with_strm
    (Heap (<[zs := pool]> (<[comp := KComp (set_stream c zs)]> (slab h)))
          (crypto h) (pages h))
    alg z t b blk.

(** The four requests a create function makes are all granted. *)
Definition granted4 (k : nat) : bool :=
  alloc_ok k && (alloc_ok (S k) && alloc_ok (S (S k)) && alloc_ok (S (S (S k)))).

(** What [zcomp_create] leaves in a compressor and in its pool object. *)
Definition created_zcomp (backend : string) (zs : addr) (max : Z) : zcomp :=
  if max >? 1
  then Zcomp (Some zs) (Some backend) (Some fn_multi_find) (Some fn_multi_release)
             (Some fn_multi_set_max_streams) (Some fn_multi_destroy)
  else Zcomp (Some zs) (Some backend) (Some fn_single_find) (Some fn_single_release)
             (Some fn_single_set_max_streams) (Some fn_single_destroy).

Definition created_pool (z : addr) (max : Z) : kobj :=
  if max >? 1
  then KMulti (Zmulti max 1 [z])
  else KSingle (Zsingle false (Some z)).

Definition created_heap (h : heap) (backend : string) (max : Z)
    (comp zs z t b : addr) (blk : page_block) : heap :=
  with_strm
    (Heap (<[zs := created_pool z max]>
             (<[comp := KComp (created_zcomp backend zs max)]> (slab h)))
          (crypto h) (pages h))
    backend z t b blk.

(** Whether [zcomp_create] returned a compressor rather than an [ERR_PTR]. *)
Definition is_handle (r : errno + addr) : bool :=
  match r with
  | inr _ => true
  | inl _ => false
  end.

(** All five requests of a successful [zcomp_create] are granted. *)
Definition granted5 (k : nat) : bool := alloc_ok k && granted4 (S k).

(** ** The state of a multi-stream pool *)

(** The stream a thread has in hand, and the slot of [avail_strm] it
    accounts for (a stream it was given, or a slot it has reserved). *)
Definition owns (p : pc) : option addr :=
  match p with
  | Holding z | Rel_top z | Rel_free z => Some z
  | _ => None
  end.

Definition slot (p : pc) : Z :=
  match p with
  | Holding _ | Rel_top _ | Find_alloc | Find_undo => 1
  | _ => 0
  end.

Definition owned (ts : list pc) : list addr := omap owns ts.
Definition slots (ts : list pc) : Z := foldr (fun p n => slot p + n) 0 ts.

(** The pool behind [comp], when it is a multi-stream one. *)
Definition pool_of (comp : addr) (w : world) : option zcomp_strm_multi :=
  match multi_of comp w with
  | Some ((_, m), _) => Some m
  | None => None
  end.

(** [w] with the pool object at [zs] replaced. *)
Definition put_pool (zs : addr) (m : zcomp_strm_multi) (w : world) : world :=
  set_slab (insert zs (KMulti m)) w.

(** Every stream of [l] is live, and no two of them share a transform or
    a buffer. *)
Definition strms_ok (h : heap) (alg : string) (l : list addr) : Prop :=
  NoDup l /\
  (forall z, z ∈ l -> exists t b blk, strm_live h alg z t b blk) /\
  (forall z1 z2 t1 b1 k1 t2 b2 k2,
      z1 ∈ l -> z2 ∈ l ->
      strm_live h alg z1 t1 b1 k1 -> strm_live h alg z2 t2 b2 k2 ->
      t1 = t2 \/ b1 = b2 -> z1 = z2).

Record pool_inv (alg : string) (comp : addr) (s : sys)
    (c : zcomp) (zs : addr) (m : zcomp_strm_multi) : Prop := {
  inv_comp : slab (hp (wd s)) !! comp = Some (KComp c);
  inv_ops : multi_ops c;
  inv_name : name c = Some alg;
  inv_stream : stream c = Some zs;
  inv_pool : slab (hp (wd s)) !! zs = Some (KMulti m);
  inv_max : is_int (max_strm m);
  inv_avail : avail_strm m <= INT_MAX;
  inv_count : avail_strm m = Z.of_nat (length (idle_strm m)) + slots (thr s);
  inv_room : avail_strm m <= max_strm m \/ idle_strm m = [];
  inv_strms : strms_ok (hp (wd s)) alg (idle_strm m ++ owned (thr s))
}.

(** A multi-stream pool made by [zcomp_create] for [n] threads, and the
    states the scheduler can take it to. *)
Definition boot (compress : string) (max : Z) (n : nat) (w : world) : option (addr * sys) :=
  match zcomp_create compress max w with
  | Some (inr comp, w') => Some (comp, Sys w' (replicate n Out))
  | _ => None
  end.

Definition multi_reachable (comp : addr) (s : sys) : Prop :=
  exists compress max n w ls s0,
    1 < max <= INT_MAX /\
    boot compress max n w = Some (comp, s0) /\
    run comp ls s0 = Some s.

Definition in_find (p : pc) : bool :=
  match p with
  | Find_top | Find_wait | Find_sleep | Find_alloc | Find_undo => true
  | _ => false
  end.

(** What each section of [zcomp_strm_multi_find] does to the thread
    ([p] to [q]), to the pool ([m] to [m']) and to memory ([h] to [h']). *)
Definition find_section (p : pc) (m : zcomp_strm_multi) (h : heap)
    (q : pc) (m' : zcomp_strm_multi) (h' : heap) : Prop :=
  match p with
  | Find_top =>
      match idle_strm m with
      | z :: rest =>
          q = Holding z /\ m' = Zmulti (max_strm m) (avail_strm m) rest
      | [] =>
          if decide (max_strm m <= avail_strm m)
          then q = Find_wait /\ m' = m /\ h' = h
          else q = Find_alloc /\ m' = Zmulti (max_strm m) (avail_strm m + 1) []
      end
  | Find_alloc =>
      m' = m /\ ((exists z, q = Holding z) \/ (q = Find_undo /\ h' = h))
  | Find_undo =>
      q = Find_wait /\ 1 <= avail_strm m /\
      m' = Zmulti (max_strm m) (avail_strm m - 1) (idle_strm m)
  | Find_wait =>
      m' = m /\ h' = h /\
      q = match idle_strm m with [] => Find_sleep | _ :: _ => Find_top end
  | _ => True
  end.

(** No call is in flight: every thread is outside the pool. *)
Definition quiet (p : pc) : bool :=
  match p with
  | Out | Holding _ => true
  | _ => false
  end.
Definition settled (ts : list pc) : bool := forallb quiet ts.

(** The threads that hold a stream, from thread [i] on. *)
Fixpoint holders_from (i : nat) (ts : list pc) : list nat :=
  match ts with
  | [] => []
  | Holding _ :: ts => i :: holders_from (S i) ts
  | _ :: ts => holders_from (S i) ts
  end.
Definition holders (ts : list pc) : list nat := holders_from 0 ts.

(** Each thread of [order] in turn calls [zcomp_stream_put] and runs it
    to its end. *)
Definition release_all (order : list nat) : list label :=
  flat_map (fun t => [Call_put t; Tick t; Tick t]) order.

(** ** Names *)

(** Two C strings that are equal, or equal once the newline that ends
    one of them is dropped. *)
Definition nl : string := String newline EmptyString.
Definition same_line (x y : string) : Prop :=
  x = y \/ x = (y +:+ nl)%string \/ (x +:+ nl)%string = y.

(** The listing with no backend marked. *)
Definition plain_listing : string :=
  (foldr (fun b rest => b +:+ " " +:+ rest) (String newline EmptyString) backends)%string.

(** ** What a pool holds of memory *)

(** The transform and the buffer of the stream at [z]. *)
Definition strm_tfm (h : heap) (z : addr) : option addr :=
  match slab h !! z with
  | Some (KStrm (Zstrm (Tfm t) _)) => Some t
  | _ => None
  end.
Definition strm_buffer (h : heap) (z : addr) : option addr :=
  match slab h !! z with
  | Some (KStrm st) => buffer st
  | _ => None
  end.

(** The heap [h] without the objects [objs] and without the streams of
    [l], their transforms and their buffers. *)
Definition heap_minus (h : heap) (objs l : list addr) : heap :=
  Heap (foldr delete (slab h) (objs ++ l))
       (foldr delete (crypto h) (omap (strm_tfm h) l))
       (foldr delete (pages h) (omap (strm_buffer h) l)).

(** Everything the pool behind [comp] has allocated and not yet freed:
    the compressor, the pool object, the idle streams and the streams in
    the hands of threads. *)
Definition pool_frame (h0 : heap) (comp zs : addr) (s : sys) (m : zcomp_strm_multi) : Prop :=
  heap_minus (hp (wd s)) [comp; zs] (idle_strm m ++ owned (thr s)) = h0.

(** ** Schedules, limits and sleepers *)

(** A schedule in which nobody calls [zcomp_set_max_streams]. *)
Definition is_set_max (l : label) : bool :=
  match l with
  | Call_set_max _ => true
  | _ => false
  end.
Definition limit_untouched (ls : list label) : bool :=
  forallb (fun l => negb (is_set_max l)) ls.

(** The pool as it is while its limit stays [max]: within the limit,
    with at least one stream, and with no stream on its way to be freed. *)
Definition within_limit (max : Z) (s : sys) (m : zcomp_strm_multi) : Prop :=
  max_strm m = max /\
  avail_strm m <= max /\
  (1 <= length (idle_strm m ++ owned (thr s)))%nat /\
  (forall t z, thr s !! t <> Some (Rel_free z)).

(** No sleeper is forgotten: while a thread is asleep on [strm_wait]
    either no stream is idle or a [wake_up] is on its way. *)
Definition no_lost_wake (ts : list pc) (idle : list addr) : Prop :=
  Find_sleep ∈ ts -> idle = [] \/ Rel_wake ∈ ts.

(** Thread 0, then threads 1 to [k - 1], call [zcomp_stream_get] one
    after the other and run it to its end: the first finds the stream
    [zcomp_create] made, each of the others allocates one. *)
Definition grow (t : nat) : list label := [Call_get t; Tick t; Tick t].
Definition fill (k : nat) : list label :=
  [Call_get 0; Tick 0] ++ flat_map grow (seq 1 (k - 1)).

(** ** The state of a single-stream pool *)

(** Memory [h0] with a single-stream compressor in it: the compressor
    at [comp], its pool object at [zs] with the mutex in state [lk], and
    the one stream [z]. *)
Definition single_heap (h0 : heap) (alg : string) (comp zs z t b : addr)
    (blk : page_block) (lk : bool) : heap :=
  with_strm
    (Heap (<[zs := KSingle (Zsingle lk (Some z))]>
             (<[comp := KComp (created_zcomp alg zs 1)]> (slab h0)))
          (crypto h0) (pages h0))
    alg z t b blk.

(** [n] threads of which [holder], if any, has the stream [z]. *)
Definition single_thr (n : nat) (holder : option nat) (z : addr) : list pc :=
  match holder with
  | Some u => <[u := Holding z]> (replicate n Out)
  | None => replicate n Out
  end.

(** A single-stream pool made by [zcomp_create] in memory [h0] after
    [k0] allocation requests, with [n] threads around it. *)
Record single_inv (h0 : heap) (k0 n : nat) (alg : string) (comp : addr) (s : sys)
    (zs z t b : addr) (blk : page_block) (holder : option nat) : Prop := {
  sinv_comp : slab h0 !! comp = None;
  sinv_zs : slab h0 !! zs = None;
  sinv_z : slab h0 !! z = None;
  sinv_t : crypto h0 !! t = None;
  sinv_b : pages h0 !! b = None;
  sinv_ne : comp <> zs /\ comp <> z /\ zs <> z;
  sinv_blk : pb_order blk = 1%nat /\ length (pb_data blk) = (2 * PAGE_SIZE)%nat;
  sinv_heap : hp (wd s) = single_heap h0 alg comp zs z t b blk (bool_decide (is_Some holder));
  sinv_nreq : nreq (wd s) = (5 + k0)%nat;
  sinv_thr : thr s = single_thr n holder z;
  sinv_holder : forall u, holder = Some u -> (u < n)%nat
}.

End ZCOMP.

(** * Compression and decompression *)

(** ** The compression backend *)

(** [crypto_comp_compress] and [crypto_comp_decompress] of
    linux/crypto.h, for the algorithm a transform was made for: from the
    [slen] bytes at [src] and the room [*dlen] at [dst], the value
    returned and the bytes written at [dst]; their number is what the
    call leaves in [*dlen]. *)
Class crypto_comp := CryptoComp {
  crypto_comp_compress : string -> list Byte.byte -> nat -> Z * list Byte.byte;
  crypto_comp_decompress : string -> list Byte.byte -> nat -> Z * list Byte.byte
}.

Section COMPRESSION.

Context {K : kernel} {C : crypto_comp}.

(** The algorithm behind [zstrm->tfm]. *)
Definition tfm_alg (p : tfm_ptr) : M string :=
  match p with
  | Tfm t => fun w => match crypto (hp w) !! t with
                      | Some alg => Some (alg, w)
                      | None => None
                      end
  | TfmNull | TfmErr _ => fault
  end.

(** Reading [len] bytes of an object: a fault beyond its end. *)
Definition read_bytes (src : list Byte.byte) (len : nat) : M (list Byte.byte) :=
  if decide (len <= length src)%nat then ret (take len src) else fault.

(** Writing [out] from the first byte of an object on: a fault beyond
    its end. *)
Definition written (out obj : list Byte.byte) : option (list Byte.byte) :=
  if decide (length out <= length obj)%nat
  then Some (out ++ drop (length out) obj)
  else None.

Definition write_buffer (b : option addr) (out : list Byte.byte) : M unit :=
  match b with
  | Some b => fun w => match pages (hp w) !! b with
                       | Some blk =>
                           match written out (pb_data blk) with
                           | Some data =>
                               Some (tt, set_pages (insert b (Pages (pb_order blk) data)) w)
                           | None => None
                           end
                       | None => None
                       end
  | None => fault
  end.

(** [zcomp_compress]: the value returned and what is left in [*dst_len]. *)
Definition zcomp_compress (zstrm : addr) (src : list Byte.byte) : M (Z * nat) :=
  let* s := load_strm zstrm in
  let dst_len := (PAGE_SIZE * 2)%nat in
  let* alg := tfm_alg (tfm s) in
  let* page := read_bytes src PAGE_SIZE in
  let (r, out) := crypto_comp_compress alg page dst_len in
  write_buffer (buffer s) out ;;
  ret (r, length out).

(** [zcomp_decompress]: the value returned and the object at [dst]
    after the call. *)
Definition zcomp_decompress (zstrm : addr) (src : list Byte.byte) (src_len : nat)
    (dst : list Byte.byte) : M (Z * list Byte.byte) :=
  let* s := load_strm zstrm in
  let dst_len := PAGE_SIZE in
  let* alg := tfm_alg (tfm s) in
  let* data := read_bytes src src_len in
  let (r, out) := crypto_comp_decompress alg data dst_len in
  match written out dst with
  | Some dst' => ret (r, dst')
  | None => fault
  end.

(** The backend writes no more than the room it is told. *)
Definition keeps_to_room (f : string -> list Byte.byte -> nat -> Z * list Byte.byte) : Prop :=
  forall alg src room, (length (snd (f alg src room)) <= room)%nat.

(** The backend is lossless on pages: what it made of a page, with the
    room [zcomp_compress] gives it, it turns back into that page, with
    the room [zcomp_decompress] gives it. *)
Definition lossless_on_pages : Prop :=
  forall alg page out,
    length page = PAGE_SIZE ->
    crypto_comp_compress alg page (PAGE_SIZE * 2) = (0, out) ->
    crypto_comp_decompress alg out PAGE_SIZE = (0, page).

(** The contents of the buffer of the stream [z]. *)
Definition buffer_of (h : heap) (z : addr) : option (list Byte.byte) :=
  match slab h !! z with
  | Some (KStrm st) =>
      match buffer st with
      | Some b => pb_data <$> pages h !! b
      | None => None
      end
  | _ => None
  end.

End COMPRESSION.

(** * Example states

    The environment of this kernel: 4 KiB pages, the flag values of its
    linux/gfp.h, both backends configured.  Memory starts empty, the
    compressor is created for "lzo", and stale pages hold [0xa5]. *)

Definition demo_stale : nat -> Byte.byte := fun _ => Byte.xa5.
Definition demo_w0 : world := World (Heap ∅ ∅ ∅) 0.

(** Memory is always granted; or only to the five requests of
    [zcomp_create]; or to every request but the eighth (the pages of the
    first stream allocated after [zcomp_create]). *)
Definition always : nat -> bool := fun _ => true.
Definition first_five : nat -> bool := fun k => (k <? 5)%nat.
Definition no_pages : nat -> bool := fun k => negb (k =? 7)%nat.

Definition demo_kernel (ok : nat -> bool) : kernel :=
  Kernel 4096 208 16 4096 512 32768 true ok demo_stale.

(** The state after the schedule [ls], for [n] threads and limit [max]. *)
Definition demo_state (ok : nat -> bool) (max : Z) (n : nat) (ls : list label) : sys :=
  match boot (K := demo_kernel ok) "lzo" max n demo_w0 with
  | Some (comp, s0) =>
      match run (K := demo_kernel ok) comp ls s0 with
      | Some s => s
      | None => s0
      end
  | None => Sys demo_w0 []
  end.

(** Thread 0 has taken the seed stream, thread 1 has reserved a slot and
    is about to allocate; no memory is left. *)
Definition demo_growing : sys :=
  demo_state first_five 4 2 [Call_get 0; Tick 0; Call_get 1; Tick 1].

(** Two threads hold the two streams of a pool of limit 2, which is then
    shrunk to limit 1: [avail_strm] is 2, above the limit, with nothing
    idle and no call in flight. *)
Definition demo_shrunk : sys :=
  demo_state always 2 2
    [Call_get 0; Tick 0; Call_get 1; Tick 1; Tick 1; Call_set_max 1].

(** Thread 0 then calls [zcomp_stream_put]. *)
Definition demo_releasing : sys :=
  demo_state always 2 2
    [Call_get 0; Tick 0; Call_get 1; Tick 1; Tick 1; Call_set_max 1; Call_put 0].

(** A pool of limit 4 with four streams, three of them in the hands of
    threads 1 to 3 and one idle, and no call in flight. *)
Definition demo_busy : sys :=
  demo_state always 4 4
    [Call_get 0; Tick 0; Call_get 1; Tick 1; Tick 1; Call_get 2; Tick 2; Tick 2;
     Call_get 3; Tick 3; Tick 3; Call_put 0; Tick 0; Tick 0].

(** Memory right after [zcomp_create], and the compressor in it. *)
Definition demo_created : world :=
  match boot (K := demo_kernel no_pages) "lzo" 4 1 demo_w0 with
  | Some (_, s) => wd s
  | None => demo_w0
  end.
Definition demo_zcomp : zcomp :=
  Zcomp (Some 2%positive) (Some "lzo"%string) (Some fn_multi_find) (Some fn_multi_release)
        (Some fn_multi_set_max_streams) (Some fn_multi_destroy).

(** The pool of limit 4 right after [zcomp_create], with two threads. *)
Definition demo_fresh : sys := demo_state always 4 2 [].

(** Thread 0 has a stream, thread 1 has just been given a second one. *)
Definition demo_two : sys :=
  demo_state always 4 2 [Call_get 0; Tick 0; Call_get 1; Tick 1; Tick 1].

(** Two threads took a stream each and put it back. *)
Definition demo_returned : sys :=
  demo_state always 2 2
    [Call_get 0; Tick 0; Call_get 1; Tick 1; Tick 1;
     Call_put 0; Tick 0; Tick 0; Call_put 1; Tick 1; Tick 1].

(** Thread 0 holds the only stream; thread 1 found no memory for a
    second one and went to sleep. *)
Definition demo_asleep : sys :=
  demo_state first_five 4 2
    [Call_get 0; Tick 0; Call_get 1; Tick 1; Tick 1; Tick 1; Tick 1].

(** [demo_busy] after the limit has been lowered to 2. *)
Definition demo_lowered : sys :=
  demo_state always 4 4
    [Call_get 0; Tick 0; Call_get 1; Tick 1; Tick 1; Call_get 2; Tick 2; Tick 2;
     Call_get 3; Tick 3; Tick 3; Call_put 0; Tick 0; Tick 0; Call_set_max 2].

(** A single-stream pool whose stream is held by thread 0. *)
Definition demo_single : sys := demo_state always 1 2 [Call_get 0].

(** A backend that stores what it is given as it is, and a page for it. *)
Definition demo_codec : crypto_comp :=
  CryptoComp (fun _ src room => (0, take room src)) (fun _ src room => (0, take room src)).
Definition demo_page : list Byte.byte := replicate 4096 Byte.x2a.

(** * Tactics *)

(** Equal maps, by looking every key up. *)
Ltac map_norm :=
  apply map_eq; intros ?;
  rewrite ?lookup_insert, ?lookup_delete;
  repeat (case_decide; simplify_eq; rewrite ?lookup_insert, ?lookup_delete);
  try reflexivity; try congruence.

(** The step [H] is the one the lemma [L] describes. *)
Ltac same_step H L :=
  let Hs := fresh "Hs" in
  let Hi := fresh "Hi" in
  destruct L as (Hs & Hi); rewrite Hs in H; injection H as <-; eauto.

(** An example state is reached by its schedule. *)
Ltac demo_reach ok max n ls :=
  exists "lzo"%string, max, n, demo_w0, ls, (demo_state ok max n []);
  split; [unfold INT_MAX; lia|split; vm_compute; reflexivity].

(** * Proofs *)

Section ZCOMP_PROOFS.

Context {K : kernel}.

(** ** Running the monad *)

Lemma bind_Some {A B} (c : M A) (f : A -> M B) w a w' :
  c w = Some (a, w') -> bind c f w = f a w'.
Proof. intros H. unfold bind. now rewrite H. Qed.

Lemma bind_inv {A B} (c : M A) (f : A -> M B) w r :
  bind c f w = Some r -> exists a w', c w = Some (a, w') /\ f a w' = Some r.
Proof.
  unfold bind. destruct (c w) as [[a w']|]; [|discriminate].
  intros H. now exists a, w'.
Qed.

Lemma load_Some a o w : slab (hp w) !! a = Some o -> load a w = Some (o, w).
Proof. intros H. unfold load. now rewrite H. Qed.

Lemma load_comp_Some a c w :
  slab (hp w) !! a = Some (KComp c) -> load_comp a w = Some (c, w).
Proof. intros H. unfold load_comp. now rewrite (bind_Some _ _ _ _ _ (load_Some _ _ _ H)). Qed.

Lemma load_multi_Some a m w :
  slab (hp w) !! a = Some (KMulti m) -> load_multi a w = Some (m, w).
Proof. intros H. unfold load_multi. now rewrite (bind_Some _ _ _ _ _ (load_Some _ _ _ H)). Qed.

Lemma load_single_Some a m w :
  slab (hp w) !! a = Some (KSingle m) -> load_single a w = Some (m, w).
Proof. intros H. unfold load_single. now rewrite (bind_Some _ _ _ _ _ (load_Some _ _ _ H)). Qed.

Lemma load_strm_Some a s w :
  slab (hp w) !! a = Some (KStrm s) -> load_strm a w = Some (s, w).
Proof. intros H. unfold load_strm. now rewrite (bind_Some _ _ _ _ _ (load_Some _ _ _ H)). Qed.

Lemma store_Some a o o' w :
  slab (hp w) !! a = Some o -> store a o' w = Some (tt, set_slab (insert a o') w).
Proof. intros H. unfold store. now rewrite H. Qed.

Lemma kfree_Some a o w :
  slab (hp w) !! a = Some o -> kfree a w = Some (tt, set_slab (delete a) w).
Proof. intros H. unfold kfree. now rewrite H. Qed.

Lemma fresh_slab (w : world) : slab (hp w) !! fresh (dom (slab (hp w))) = None.
Proof. apply not_elem_of_dom, is_fresh. Qed.

Lemma fresh_crypto (w : world) : crypto (hp w) !! fresh (dom (crypto (hp w))) = None.
Proof. apply not_elem_of_dom, is_fresh. Qed.

Lemma fresh_pages (w : world) : pages (hp w) !! fresh (dom (pages (hp w))) = None.
Proof. apply not_elem_of_dom, is_fresh. Qed.

(** ** Streams: allocation and release *)

Lemma zcomp_strm_free_live w alg z t b blk :
  strm_live (hp w) alg z t b blk ->
  zcomp_strm_free z w = Some (tt, World (without_strm (hp w) z t b) (nreq w)).
Proof.
  intros (Hz & Ht & Hb & Ho & _). unfold zcomp_strm_free.
  rewrite (bind_Some _ _ _ _ _ (load_strm_Some _ _ _ Hz)). simpl.
  unfold bind at 1. simpl. rewrite Ht.
  unfold bind at 1. simpl. rewrite Hb.
  rewrite decide_True by exact Ho.
  unfold kfree. simpl. now rewrite Hz.
Qed.

Lemma page_bytes_1 : page_bytes 1 = (2 * PAGE_SIZE)%nat.
Proof. unfold page_bytes. simpl. lia. Qed.

Lemma fresh_page_data_length flags order :
  length (fresh_page_data flags order) = page_bytes order.
Proof.
  unfold fresh_page_data. destruct (Z.land flags __GFP_ZERO =? 0).
  - now rewrite length_fmap, length_seq.
  - apply length_replicate.
Qed.

Lemma heap_eta (h : heap) : Heap (slab h) (crypto h) (pages h) = h.
Proof. now destruct h. Qed.

Lemma zcomp_strm_alloc_eq comp flags c alg w :
  slab (hp w) !! comp = Some (KComp c) ->
  name c = Some alg ->
  zcomp_strm_alloc comp flags w = Some (strm_alloc_outcome comp flags alg w).
Proof.
  intros Hc Hn. destruct w as [h k].
  pose proof (fresh_slab (World h k)) as Fz.
  pose proof (fresh_crypto (World h k)) as Ft.
  pose proof (fresh_pages (World h k)) as Fb.
  simpl in *.
  assert (Hne : fresh (dom (slab h)) <> comp) by (intros E; rewrite E in Fz; congruence).
  unfold zcomp_strm_alloc, strm_alloc_outcome, zcomp_strm_free, kmalloc, next_request,
    crypto_alloc_comp, __get_free_pages, load_comp, load_strm, load, store,
    crypto_free_comp, free_pages, kfree, bind, ret, with_strm,
    set_slab, set_crypto, set_pages.
  destruct (alloc_ok k) eqn:E0; simpl; rewrite E0; [|reflexivity].
  simpl. rewrite lookup_insert_ne by exact Hne. rewrite Hc, Hn. simpl.
  destruct (alloc_ok (S k)) eqn:E1, (alloc_ok (S (S k))) eqn:E2;
    repeat (simpl; rewrite ?E1, ?E2, ?lookup_insert_eq);
    rewrite ?decide_True by reflexivity; simpl;
    rewrite ?lookup_insert_eq; simpl;
    rewrite ?insert_insert_eq, ?delete_insert_eq, ?delete_insert_id by assumption;
    rewrite ?(delete_id _ _ Fz), ?(delete_id _ _ Ft), ?(delete_id _ _ Fb), ?heap_eta;
    reflexivity.
Qed.

Lemma zcomp_strm_alloc_inv comp flags w z w' :
  zcomp_strm_alloc comp flags w = Some (Some z, w') ->
  exists c alg, slab (hp w) !! comp = Some (KComp c) /\ name c = Some alg.
Proof.
  unfold zcomp_strm_alloc. intros H.
  apply bind_inv in H as (a & w1 & Hk & H).
  destruct a as [a|]; [|discriminate].
  apply bind_inv in H as (c & w2 & Hc & H).
  unfold kmalloc, next_request, bind in Hk.
  destruct (alloc_ok (nreq w)); [|discriminate].
  injection Hk as <- <-.
  unfold load_comp, load, bind, set_slab in Hc. simpl in Hc.
  destruct (decide (fresh (dom (slab (hp w))) = comp)) as [E|Hne].
  - rewrite E, lookup_insert_eq in Hc. discriminate.
  - rewrite lookup_insert_ne in Hc by exact Hne.
    destruct (slab (hp w) !! comp) as [[| | | |c']|] eqn:E; try discriminate.
    injection Hc as -> <-.
    apply bind_inv in H as (t & w3 & Ht & _).
    destruct (name c) as [alg|] eqn:En; [|discriminate]. now exists c, alg.
Qed.

Lemma land_lor_same (a z : Z) : Z.land (Z.lor a z) z = z.
Proof.
  apply Z.bits_inj'. intros n _.
  rewrite Z.land_spec, Z.lor_spec. destruct (Z.testbit a n), (Z.testbit z n); reflexivity.
Qed.

Lemma fresh_page_data_zero flags order :
  __GFP_ZERO <> 0 ->
  fresh_page_data (Z.lor flags __GFP_ZERO) order = replicate (page_bytes order) Byte.x00.
Proof.
  intros Hz. unfold fresh_page_data. rewrite land_lor_same.
  destruct (Z.eqb_spec __GFP_ZERO 0); [contradiction|reflexivity].
Qed.

Lemma strm_alloc_outcome_Some comp flags alg w z w' :
  strm_alloc_outcome comp flags alg w = (Some z, w') ->
  z = fresh (dom (slab (hp w))) /\
  alloc_ok (nreq w) && alloc_ok (S (nreq w)) && alloc_ok (S (S (nreq w))) = true /\
  nreq w' = S (S (S (nreq w))) /\
  hp w' = with_strm (hp w) alg z (fresh (dom (crypto (hp w)))) (fresh (dom (pages (hp w))))
            (Pages 1 (fresh_page_data (Z.lor flags __GFP_ZERO) 1)).
Proof.
  unfold strm_alloc_outcome.
  destruct (alloc_ok (nreq w)); [|discriminate]. simpl.
  destruct (alloc_ok (S (nreq w)) && alloc_ok (S (S (nreq w)))); [|discriminate].
  intros [= <- <-]. auto.
Qed.

Lemma strm_alloc_outcome_None comp flags alg w w' :
  strm_alloc_outcome comp flags alg w = (None, w') ->
  hp w' = hp w /\
  alloc_ok (nreq w) && alloc_ok (S (nreq w)) && alloc_ok (S (S (nreq w))) = false.
Proof.
  unfold strm_alloc_outcome.
  destruct (alloc_ok (nreq w)); simpl.
  - destruct (alloc_ok (S (nreq w)) && alloc_ok (S (S (nreq w)))); [discriminate|].
    intros [= <-]. auto.
  - intros [= <-]. auto.
Qed.

Lemma with_strm_live h alg z t b blk :
  pb_order blk = 1%nat ->
  length (pb_data blk) = (2 * PAGE_SIZE)%nat ->
  strm_live (with_strm h alg z t b blk) alg z t b blk.
Proof.
  intros Ho Hl. unfold strm_live, with_strm. simpl.
  rewrite !lookup_insert_eq. auto.
Qed.

(** ** Creating a compressor *)

Lemma kmalloc_granted flags w :
  alloc_ok (nreq w) = true ->
  kmalloc flags w =
    Some (Some (fresh (dom (slab (hp w)))),
          World (Heap (<[fresh (dom (slab (hp w))) := KUninit]> (slab (hp w)))
                      (crypto (hp w)) (pages (hp w)))
                (S (nreq w))).
Proof. intros H. unfold kmalloc, next_request, bind. now rewrite H. Qed.

Lemma kmalloc_refused flags w :
  alloc_ok (nreq w) = false ->
  kmalloc flags w = Some (None, World (hp w) (S (nreq w))).
Proof. intros H. unfold kmalloc, next_request, bind. now rewrite H. Qed.

Lemma zcomp_strm_multi_create_eq comp max c alg w :
  slab (hp w) !! comp = Some (KComp c) ->
  name c = Some alg ->
  exists r w', zcomp_strm_multi_create comp max w = Some (r, w') /\
    (r = None <-> granted4 (nreq w) = true) /\
    match r with
    | None =>
        exists zs z t b blk,
          slab (hp w) !! zs = None /\ slab (hp w) !! z = None /\ zs <> z /\
          crypto (hp w) !! t = None /\ pages (hp w) !! b = None /\
          blk = Pages 1 (fresh_page_data (Z.lor GFP_KERNEL __GFP_ZERO) 1) /\
          nreq w' = (4 + nreq w)%nat /\
          hp w' = pool_created (hp w) comp
                    (set_ops c fn_multi_destroy fn_multi_find fn_multi_release
                       fn_multi_set_max_streams)
                    (KMulti (Zmulti max 1 [z])) zs z t b alg blk
    | Some e =>
        e = ENOMEM /\
        exists c', hp w' = Heap (<[comp := KComp c']> (slab (hp w)))
                                (crypto (hp w)) (pages (hp w))
    end.
Proof.
  intros Hc Hn.
  unfold zcomp_strm_multi_create, granted4.
  rewrite (bind_Some _ _ _ _ _ (load_comp_Some _ _ _ Hc)).
  rewrite (bind_Some _ _ _ _ _ (store_Some _ _ _ _ Hc)).
  unfold set_slab at 1. simpl.
  set (c1 := set_ops c _ _ _ _).
  destruct (alloc_ok (nreq w)) eqn:E0.
  - rewrite (bind_Some _ _ _ _ _ (kmalloc_granted _ (World _ _) E0)). simpl.
    set (zs := fresh (dom (<[comp:=KComp c1]> (slab (hp w))))).
    assert (Fzs : (<[comp:=KComp c1]> (slab (hp w))) !! zs = None)
      by apply not_elem_of_dom, is_fresh.
    assert (Hzc : zs <> comp) by (intros E; rewrite E, lookup_insert_eq in Fzs; discriminate).
    rewrite lookup_insert_ne in Fzs by auto.
    set (w1 := World _ _).
    assert (H1 : slab (hp w1) !! comp = Some (KComp c1))
      by (simpl; rewrite lookup_insert_ne, lookup_insert_eq; auto).
    rewrite (bind_Some _ _ _ _ _ (load_comp_Some _ _ _ H1)).
    rewrite (bind_Some _ _ _ _ _ (store_Some _ _ _ _ H1)).
    set (w2 := set_slab _ w1).
    assert (H2 : slab (hp w2) !! zs = Some KUninit)
      by (simpl; rewrite lookup_insert_ne, lookup_insert_eq; auto).
    rewrite (bind_Some _ _ _ _ _ (store_Some _ _ _ _ H2)).
    set (w3 := set_slab _ w2).
    assert (H3 : slab (hp w3) !! comp = Some (KComp (set_stream c1 zs)))
      by (simpl; rewrite lookup_insert_ne, lookup_insert_eq; auto).
    assert (H3n : name (set_stream c1 zs) = Some alg) by exact Hn.
    pose proof (zcomp_strm_alloc_eq _ GFP_KERNEL _ _ _ H3 H3n) as Ha.
    destruct (strm_alloc_outcome comp GFP_KERNEL alg w3) as [[z|] w4] eqn:Eo;
      rewrite (bind_Some _ _ _ _ _ Ha).
    + apply strm_alloc_outcome_Some in Eo as (Ez & Eg & En & Eh).
      assert (Fz : slab (hp w3) !! z = None) by (rewrite Ez; apply fresh_slab).
      assert (Hz4 : slab (hp w4) !! zs = Some (KMulti (Zmulti max 1 []))).
      { rewrite Eh. simpl. rewrite lookup_insert_ne, lookup_insert_eq; auto.
        intros E. rewrite E in Fz. simpl in Fz. rewrite lookup_insert_eq in Fz. discriminate. }
      rewrite (bind_Some _ _ _ _ _ (load_multi_Some _ _ _ Hz4)).
      rewrite (bind_Some _ _ _ _ _ (store_Some _ _ _ _ Hz4)).
      eexists _, _. split; [reflexivity|]. split; [split; [intros _; exact Eg|reflexivity]|].
      exists zs, z, (fresh (dom (crypto (hp w3)))), (fresh (dom (pages (hp w3)))),
        (Pages 1 (fresh_page_data (Z.lor GFP_KERNEL __GFP_ZERO) 1)).
      simpl in Fz.
      assert (z <> zs) by (intros E; rewrite E, lookup_insert_eq in Fz; discriminate).
      assert (z <> comp)
        by (intros E; rewrite E, lookup_insert_ne, lookup_insert_eq in Fz; auto; discriminate).
      rewrite !lookup_insert_ne in Fz by auto.
      split; [exact Fzs|]. split; [exact Fz|]. split; [auto|].
      split; [apply (fresh_crypto w3)|]. split; [apply (fresh_pages w3)|].
      split; [reflexivity|]. split; [simpl; rewrite En; reflexivity|].
      simpl. rewrite Eh. unfold pool_created, with_strm. simpl. f_equal. map_norm.
    + apply strm_alloc_outcome_None in Eo as (Eh & Eg).
      assert (Hz4 : slab (hp w4) !! zs = Some (KMulti (Zmulti max 1 [])))
        by (rewrite Eh; simpl; apply lookup_insert_eq).
      rewrite (bind_Some _ _ _ _ _ (kfree_Some _ _ _ Hz4)).
      eexists _, _. split; [reflexivity|].
      split; [split; [discriminate|intros E; simpl in Eg; rewrite Eg in E; discriminate]|].
      split; [reflexivity|].
      exists (set_stream c1 zs). simpl. rewrite Eh. simpl. f_equal. map_norm.
  - rewrite (bind_Some _ _ _ _ _ (kmalloc_refused _ (World _ _) E0)).
    eexists _, _. split; [reflexivity|]. split; [split; discriminate|].
    split; [reflexivity|].
    exists c1. reflexivity.
Qed.

Lemma zcomp_strm_single_create_eq comp c alg w :
  slab (hp w) !! comp = Some (KComp c) ->
  name c = Some alg ->
  exists r w', zcomp_strm_single_create comp w = Some (r, w') /\
    (r = None <-> granted4 (nreq w) = true) /\
    match r with
    | None =>
        exists zs z t b blk,
          slab (hp w) !! zs = None /\ slab (hp w) !! z = None /\ zs <> z /\
          crypto (hp w) !! t = None /\ pages (hp w) !! b = None /\
          blk = Pages 1 (fresh_page_data (Z.lor GFP_KERNEL __GFP_ZERO) 1) /\
          nreq w' = (4 + nreq w)%nat /\
          hp w' = pool_created (hp w) comp
                    (set_ops c fn_single_destroy fn_single_find fn_single_release
                       fn_single_set_max_streams)
                    (KSingle (Zsingle false (Some z))) zs z t b alg blk
    | Some e =>
        e = ENOMEM /\
        exists c', hp w' = Heap (<[comp := KComp c']> (slab (hp w)))
                                (crypto (hp w)) (pages (hp w))
    end.
Proof.
  intros Hc Hn.
  unfold zcomp_strm_single_create, granted4.
  rewrite (bind_Some _ _ _ _ _ (load_comp_Some _ _ _ Hc)).
  rewrite (bind_Some _ _ _ _ _ (store_Some _ _ _ _ Hc)).
  unfold set_slab at 1. simpl.
  set (c1 := set_ops c _ _ _ _).
  destruct (alloc_ok (nreq w)) eqn:E0.
  - rewrite (bind_Some _ _ _ _ _ (kmalloc_granted _ (World _ _) E0)). simpl.
    set (zs := fresh (dom (<[comp:=KComp c1]> (slab (hp w))))).
    assert (Fzs : (<[comp:=KComp c1]> (slab (hp w))) !! zs = None)
      by apply not_elem_of_dom, is_fresh.
    assert (Hzc : zs <> comp) by (intros E; rewrite E, lookup_insert_eq in Fzs; discriminate).
    rewrite lookup_insert_ne in Fzs by auto.
    set (w1 := World _ _).
    assert (H1 : slab (hp w1) !! comp = Some (KComp c1))
      by (simpl; rewrite lookup_insert_ne, lookup_insert_eq; auto).
    rewrite (bind_Some _ _ _ _ _ (load_comp_Some _ _ _ H1)).
    rewrite (bind_Some _ _ _ _ _ (store_Some _ _ _ _ H1)).
    set (w3 := set_slab _ w1).
    assert (H3 : slab (hp w3) !! comp = Some (KComp (set_stream c1 zs)))
      by (simpl; rewrite lookup_insert_eq; auto).
    assert (H3n : name (set_stream c1 zs) = Some alg) by exact Hn.
    pose proof (zcomp_strm_alloc_eq _ GFP_KERNEL _ _ _ H3 H3n) as Ha.
    destruct (strm_alloc_outcome comp GFP_KERNEL alg w3) as [[z|] w4] eqn:Eo;
      rewrite (bind_Some _ _ _ _ _ Ha).
    + apply strm_alloc_outcome_Some in Eo as (Ez & Eg & En & Eh).
      assert (Fz : slab (hp w3) !! z = None) by (rewrite Ez; apply fresh_slab).
      simpl in Fz.
      assert (z <> comp) by (intros E; rewrite E, lookup_insert_eq in Fz; discriminate).
      assert (z <> zs)
        by (intros E; rewrite E, lookup_insert_ne, lookup_insert_eq in Fz; auto; discriminate).
      rewrite !lookup_insert_ne in Fz by auto.
      assert (Hz4 : slab (hp w4) !! zs = Some KUninit).
      { rewrite Eh. simpl. rewrite !lookup_insert_ne by congruence. apply lookup_insert_eq. }
      rewrite (bind_Some _ _ _ _ _ (store_Some _ _ _ _ Hz4)).
      eexists _, _. split; [reflexivity|]. split; [split; [intros _; exact Eg|reflexivity]|].
      exists zs, z, (fresh (dom (crypto (hp w3)))), (fresh (dom (pages (hp w3)))),
        (Pages 1 (fresh_page_data (Z.lor GFP_KERNEL __GFP_ZERO) 1)).
      split; [exact Fzs|]. split; [exact Fz|]. split; [auto|].
      split; [apply (fresh_crypto w3)|]. split; [apply (fresh_pages w3)|].
      split; [reflexivity|]. split; [simpl; rewrite En; reflexivity|].
      simpl. rewrite Eh. unfold pool_created, with_strm. simpl. f_equal. map_norm.
    + apply strm_alloc_outcome_None in Eo as (Eh & Eg).
      assert (Hz4 : slab (hp w4) !! zs = Some KUninit)
        by (rewrite Eh; simpl; rewrite lookup_insert_ne, lookup_insert_eq; auto).
      rewrite (bind_Some _ _ _ _ _ (store_Some _ _ _ _ Hz4)).
      assert (Hz5 : slab (hp (set_slab (insert zs (KSingle (Zsingle false None))) w4)) !! zs
                    = Some (KSingle (Zsingle false None)))
        by (simpl; apply lookup_insert_eq).
      rewrite (bind_Some _ _ _ _ _ (kfree_Some _ _ _ Hz5)).
      eexists _, _. split; [reflexivity|].
      split; [split; [discriminate|intros E; simpl in Eg; rewrite Eg in E; discriminate]|].
      split; [reflexivity|].
      exists (set_stream c1 zs). simpl. rewrite Eh. simpl. f_equal. map_norm.
  - rewrite (bind_Some _ _ _ _ _ (kmalloc_refused _ (World _ _) E0)).
    eexists _, _. split; [reflexivity|]. split; [split; discriminate|].
    split; [reflexivity|].
    exists c1. reflexivity.
Qed.

Lemma kzalloc_zcomp_granted flags w :
  alloc_ok (nreq w) = true ->
  kzalloc_zcomp flags w =
    Some (Some (fresh (dom (slab (hp w)))),
          World (Heap (<[fresh (dom (slab (hp w))) := KComp (Zcomp None None None None None None)]>
                         (slab (hp w)))
                      (crypto (hp w)) (pages (hp w)))
                (S (nreq w))).
Proof.
  intros H. unfold kzalloc_zcomp.
  rewrite (bind_Some _ _ _ _ _ (kmalloc_granted _ _ H)).
  unfold bind, store, set_slab, ret. simpl.
  now rewrite lookup_insert_eq, insert_insert_eq.
Qed.

Lemma kzalloc_zcomp_refused flags w :
  alloc_ok (nreq w) = false ->
  kzalloc_zcomp flags w = Some (None, World (hp w) (S (nreq w))).
Proof.
  intros H. unfold kzalloc_zcomp.
  now rewrite (bind_Some _ _ _ _ _ (kmalloc_refused _ _ H)).
Qed.

Lemma zcomp_create_eq compress backend max w :
  find_backend compress = Some backend ->
  exists r w', zcomp_create compress max w = Some (r, w') /\
    (is_handle r = granted5 (nreq w)) /\
    match r with
    | inr comp =>
        exists zs z t b,
          slab (hp w) !! comp = None /\ slab (hp w) !! zs = None /\
          slab (hp w) !! z = None /\ comp <> zs /\ comp <> z /\ zs <> z /\
          crypto (hp w) !! t = None /\ pages (hp w) !! b = None /\
          nreq w' = (5 + nreq w)%nat /\
          hp w' = created_heap (hp w) backend max comp zs z t b
                    (Pages 1 (fresh_page_data (Z.lor GFP_KERNEL __GFP_ZERO) 1))
    | inl e => e = ENOMEM /\ hp w' = hp w
    end.
Proof.
  intros Hb. unfold zcomp_create, granted5. rewrite Hb.
  destruct (alloc_ok (nreq w)) eqn:E0.
  2:{ rewrite (bind_Some _ _ _ _ _ (kzalloc_zcomp_refused _ _ E0)).
      eexists _, _. split; [reflexivity|]. simpl. auto. }
  rewrite (bind_Some _ _ _ _ _ (kzalloc_zcomp_granted _ _ E0)).
  set (comp := fresh (dom (slab (hp w)))).
  pose proof (fresh_slab w) as Fc. fold comp in Fc.
  set (w1 := World _ _).
  assert (H1 : slab (hp w1) !! comp = Some (KComp (Zcomp None None None None None None)))
    by (simpl; apply lookup_insert_eq).
  rewrite (bind_Some _ _ _ _ _ (load_comp_Some _ _ _ H1)).
  rewrite (bind_Some _ _ _ _ _ (store_Some _ _ _ _ H1)).
  set (c2 := set_name _ backend).
  set (w2 := set_slab _ w1).
  assert (H2 : slab (hp w2) !! comp = Some (KComp c2)) by (simpl; apply lookup_insert_eq).
  assert (H2n : name c2 = Some backend) by reflexivity.
  assert (Hlk : forall a, a <> comp -> slab (hp w2) !! a = None -> slab (hp w) !! a = None).
  { intros a Ha. simpl. now rewrite !lookup_insert_ne by congruence. }
  assert (Hnc : forall a, slab (hp w2) !! a = None -> a <> comp).
  { intros a Ha E. rewrite E in Ha. congruence. }
  destruct (max >? 1) eqn:Em.
  - destruct (zcomp_strm_multi_create_eq comp max c2 backend w2 H2 H2n)
      as (r & w3 & Hr & Hg & Hm).
    rewrite (bind_Some _ _ _ _ _ Hr).
    destruct r as [e|].
    + destruct Hm as (-> & c' & Eh).
      assert (H3 : slab (hp w3) !! comp = Some (KComp c'))
        by (rewrite Eh; simpl; apply lookup_insert_eq).
      rewrite (bind_Some _ _ _ _ _ (kfree_Some _ _ _ H3)).
      eexists _, _. split; [reflexivity|]. simpl.
      split; [symmetry; apply not_true_is_false; intros E; apply Hg in E; discriminate|].
      split; [reflexivity|].
      rewrite Eh. simpl. rewrite !delete_insert_eq, (delete_id _ _ Fc). apply heap_eta.
    + destruct Hm as (zs & z & t & b & blk & Fzs & Fz & Hne & Ft & Fb & -> & En & Eh).
      eexists _, _. split; [reflexivity|]. simpl.
      split; [symmetry; now apply Hg|].
      exists zs, z, t, b.
      pose proof (Hnc _ Fzs). pose proof (Hnc _ Fz).
      repeat split; auto.
      * rewrite Eh. unfold created_heap, pool_created, created_zcomp, created_pool, with_strm.
        rewrite Em. simpl. f_equal. map_norm.
  - destruct (zcomp_strm_single_create_eq comp c2 backend w2 H2 H2n)
      as (r & w3 & Hr & Hg & Hm).
    rewrite (bind_Some _ _ _ _ _ Hr).
    destruct r as [e|].
    + destruct Hm as (-> & c' & Eh).
      assert (H3 : slab (hp w3) !! comp = Some (KComp c'))
        by (rewrite Eh; simpl; apply lookup_insert_eq).
      rewrite (bind_Some _ _ _ _ _ (kfree_Some _ _ _ H3)).
      eexists _, _. split; [reflexivity|]. simpl.
      split; [symmetry; apply not_true_is_false; intros E; apply Hg in E; discriminate|].
      split; [reflexivity|].
      rewrite Eh. simpl. rewrite !delete_insert_eq, (delete_id _ _ Fc). apply heap_eta.
    + destruct Hm as (zs & z & t & b & blk & Fzs & Fz & Hne & Ft & Fb & -> & En & Eh).
      eexists _, _. split; [reflexivity|]. simpl.
      split; [symmetry; now apply Hg|].
      exists zs, z, t, b.
      pose proof (Hnc _ Fzs). pose proof (Hnc _ Fz).
      repeat split; auto.
      * rewrite Eh. unfold created_heap, pool_created, created_zcomp, created_pool, with_strm.
        rewrite Em. simpl. f_equal. map_norm.
Qed.

(** ** The state of a multi-stream pool *)

(** *** Threads and their streams *)

Lemma slots_app l1 l2 : slots (l1 ++ l2) = slots l1 + slots l2.
Proof. induction l1 as [|p l1 IH]; simpl; [reflexivity|]. rewrite IH. lia. Qed.

Lemma slots_nonneg l : 0 <= slots l.
Proof. induction l as [|p l IH]; simpl; [lia|]. destruct p; simpl; lia. Qed.

Lemma thr_split (ts : list pc) t p :
  ts !! t = Some p ->
  exists l1 l2, ts = l1 ++ p :: l2 /\ forall q, <[t:=q]> ts = l1 ++ q :: l2.
Proof.
  intros H. exists (take t ts), (drop (S t) ts). split.
  - symmetry. now apply take_drop_middle.
  - intros q. apply insert_take_drop. now apply lookup_lt_Some in H.
Qed.

Lemma slots_insert ts t p q :
  ts !! t = Some p -> slots (<[t:=q]> ts) = slots ts - slot p + slot q.
Proof.
  intros H. destruct (thr_split _ _ _ H) as (l1 & l2 & -> & Hi).
  rewrite Hi, !slots_app. simpl. lia.
Qed.

Lemma owned_insert_same ts t p q :
  ts !! t = Some p -> owns q = owns p -> owned (<[t:=q]> ts) = owned ts.
Proof.
  intros H Ho. destruct (thr_split _ _ _ H) as (l1 & l2 & -> & Hi).
  rewrite Hi. unfold owned. rewrite !omap_app. simpl. now rewrite Ho.
Qed.

Lemma owned_insert_take ts t p q z :
  ts !! t = Some p -> owns p = None -> owns q = Some z ->
  owned (<[t:=q]> ts) ≡ₚ z :: owned ts.
Proof.
  intros H Hp Hq. destruct (thr_split _ _ _ H) as (l1 & l2 & -> & Hi).
  rewrite Hi. unfold owned. rewrite !omap_app. simpl. rewrite Hp, Hq.
  now rewrite Permutation_middle.
Qed.

Lemma owned_insert_give ts t p q z :
  ts !! t = Some p -> owns p = Some z -> owns q = None ->
  z :: owned (<[t:=q]> ts) ≡ₚ owned ts.
Proof.
  intros H Hp Hq. destruct (thr_split _ _ _ H) as (l1 & l2 & -> & Hi).
  rewrite Hi. unfold owned. rewrite !omap_app. simpl. rewrite Hp, Hq.
  now rewrite Permutation_middle.
Qed.

Lemma owned_elem ts z :
  z ∈ owned ts <-> exists t p, ts !! t = Some p /\ owns p = Some z.
Proof.
  unfold owned. rewrite list_elem_of_omap. split.
  - intros (p & Hp & Ho). apply list_elem_of_lookup in Hp as (t & Ht). eauto.
  - intros (t & p & Ht & Ho). exists p. split; [|exact Ho].
    apply list_elem_of_lookup. eauto.
Qed.

Lemma owns_wake_one p : owns (wake_one p) = owns p.
Proof. now destruct p. Qed.

Lemma slot_wake_one p : slot (wake_one p) = slot p.
Proof. now destruct p. Qed.

Lemma owned_wake_up ts : owned (wake_up ts) = owned ts.
Proof.
  unfold owned, wake_up. induction ts as [|p ts IH]; csimpl; [reflexivity|].
  rewrite owns_wake_one. destruct (owns p); csimpl; now rewrite IH.
Qed.

Lemma slots_wake_up ts : slots (wake_up ts) = slots ts.
Proof.
  unfold wake_up. induction ts as [|p ts IH]; csimpl; [reflexivity|].
  now rewrite slot_wake_one, IH.
Qed.

Lemma wake_up_lookup ts t : wake_up ts !! t = wake_one <$> ts !! t.
Proof. apply list_lookup_fmap. Qed.

Lemma no_sleeper_after_wake_up ts t : wake_up ts !! t <> Some Find_sleep.
Proof.
  rewrite wake_up_lookup. destruct (ts !! t) as [p|]; simpl; [|discriminate].
  destruct p; discriminate.
Qed.

(** *** Streams in the heap *)

Lemma strm_live_fun h alg z t b blk t' b' blk' :
  strm_live h alg z t b blk -> strm_live h alg z t' b' blk' ->
  t' = t /\ b' = b /\ blk' = blk.
Proof.
  intros (Hz & _ & Hb & _) (Hz' & _ & Hb' & _).
  rewrite Hz in Hz'. injection Hz' as -> ->.
  rewrite Hb in Hb'. now injection Hb' as ->.
Qed.

Lemma strms_ok_ext h h' alg l :
  (forall z t b blk, z ∈ l -> strm_live h alg z t b blk <-> strm_live h' alg z t b blk) ->
  strms_ok h alg l -> strms_ok h' alg l.
Proof.
  intros He (Hnd & Hlive & Hsep). split; [exact Hnd|]. split.
  - intros z Hz. destruct (Hlive z Hz) as (t & b & blk & H).
    exists t, b, blk. now apply He.
  - intros z1 z2 t1 b1 k1 t2 b2 k2 H1 H2 L1 L2.
    apply (Hsep z1 z2 t1 b1 k1 t2 b2 k2); auto; now apply He.
Qed.

Lemma strms_ok_perm h alg l l' : l ≡ₚ l' -> strms_ok h alg l -> strms_ok h alg l'.
Proof.
  intros Hp (Hnd & Hlive & Hsep). split; [now rewrite <- Hp|]. split.
  - intros z Hz. apply Hlive. now rewrite Hp.
  - intros z1 z2 t1 b1 k1 t2 b2 k2 H1 H2.
    apply Hsep; now rewrite Hp.
Qed.

Lemma strm_live_put_pool w zs m m' alg z t b blk :
  slab (hp w) !! zs = Some (KMulti m) ->
  strm_live (hp w) alg z t b blk <-> strm_live (hp (put_pool zs m' w)) alg z t b blk.
Proof.
  intros Hm. unfold strm_live, put_pool. simpl.
  destruct (decide (zs = z)) as [<-|Hne].
  - rewrite lookup_insert_eq, Hm. split; intros (H & _); discriminate.
  - now rewrite lookup_insert_ne by exact Hne.
Qed.

Lemma strms_ok_put_pool w zs m m' alg l :
  slab (hp w) !! zs = Some (KMulti m) ->
  strms_ok (hp w) alg l -> strms_ok (hp (put_pool zs m' w)) alg l.
Proof.
  intros Hm. apply strms_ok_ext. intros. now apply strm_live_put_pool with (m := m).
Qed.

Lemma strms_ok_alloc h alg l z t b blk :
  strms_ok h alg l ->
  slab h !! z = None -> crypto h !! t = None -> pages h !! b = None ->
  pb_order blk = 1%nat -> length (pb_data blk) = (2 * PAGE_SIZE)%nat ->
  strms_ok (with_strm h alg z t b blk) alg (z :: l).
Proof.
  intros (Hnd & Hlive & Hsep) Fz Ft Fb Ho Hl.
  assert (Hnew : strm_live (with_strm h alg z t b blk) alg z t b blk)
    by now apply with_strm_live.
  assert (Hnotin : z ∉ l).
  { intros Hz. destruct (Hlive z Hz) as (? & ? & ? & Hs & _). congruence. }
  assert (Hold : forall z' t' b' k', z' ∈ l ->
            strm_live (with_strm h alg z t b blk) alg z' t' b' k' <->
            strm_live h alg z' t' b' k').
  { intros z' t' b' k' Hz'.
    assert (z <> z') by (intros ->; contradiction).
    destruct (Hlive z' Hz') as (t0 & b0 & k0 & L0).
    pose proof L0 as (Hs0 & Ht0 & Hb0 & _).
    assert (t <> t0) by congruence. assert (b <> b0) by congruence.
    unfold strm_live, with_strm. simpl. rewrite lookup_insert_ne by auto.
    split; intros (Hs & Hc & Hp & Hrest).
    - rewrite Hs0 in Hs. injection Hs as <- <-.
      rewrite lookup_insert_ne in Hc by auto. rewrite lookup_insert_ne in Hp by auto. auto.
    - rewrite Hs0 in Hs. injection Hs as <- <-.
      rewrite !lookup_insert_ne by auto. auto. }
  split; [apply NoDup_cons; auto|]. split.
  - intros z' [->|Hz']%elem_of_cons; [eauto|].
    destruct (Hlive z' Hz') as (t' & b' & k' & L). exists t', b', k'. now apply Hold.
  - intros z1 z2 t1 b1 k1 t2 b2 k2 [->|H1]%elem_of_cons [->|H2]%elem_of_cons L1 L2 Heq;
      [reflexivity| | |].
    + destruct (strm_live_fun _ _ _ _ _ _ _ _ _ Hnew L1) as (-> & -> & ->).
      apply Hold in L2; [|exact H2]. destruct L2 as (_ & Hc & Hp & _).
      destruct Heq; congruence.
    + destruct (strm_live_fun _ _ _ _ _ _ _ _ _ Hnew L2) as (-> & -> & ->).
      apply Hold in L1; [|exact H1]. destruct L1 as (_ & Hc & Hp & _).
      destruct Heq; congruence.
    + apply Hold in L1; [|exact H1]. apply Hold in L2; [|exact H2]. eauto.
Qed.

Lemma strms_ok_free h alg l z t b blk :
  strms_ok h alg (z :: l) ->
  strm_live h alg z t b blk ->
  strms_ok (without_strm h z t b) alg l.
Proof.
  intros (Hnd & Hlive & Hsep) Lz.
  apply NoDup_cons in Hnd as (Hnotin & Hnd).
  assert (Hold : forall z' t' b' k', z' ∈ l ->
            strm_live (without_strm h z t b) alg z' t' b' k' <->
            strm_live h alg z' t' b' k').
  { intros z' t' b' k' Hz'.
    assert (z <> z') by (intros ->; contradiction).
    destruct (Hlive z' (list_elem_of_further _ _ _ Hz')) as (t0 & b0 & k0 & L0).
    assert (t <> t0 /\ b <> b0) as (Ht & Hb).
    { split; intros ->;
        apply H; apply (Hsep z z' _ _ _ _ _ _ (list_elem_of_here _ _)
                          (list_elem_of_further _ _ _ Hz') Lz L0); auto. }
    pose proof L0 as (Hs0 & Ht0 & Hb0 & _).
    unfold strm_live, without_strm. simpl. rewrite lookup_delete_ne by auto.
    split; intros (Hs & Hc & Hp & Hrest).
    - rewrite Hs0 in Hs. injection Hs as <- <-.
      rewrite lookup_delete_ne in Hc by auto. rewrite lookup_delete_ne in Hp by auto. auto.
    - rewrite Hs0 in Hs. injection Hs as <- <-.
      rewrite !lookup_delete_ne by auto. auto. }
  split; [exact Hnd|]. split.
  - intros z' Hz'.
    destruct (Hlive z' (list_elem_of_further _ _ _ Hz')) as (t' & b' & k' & L).
    exists t', b', k'. now apply Hold.
  - intros z1 z2 t1 b1 k1 t2 b2 k2 H1 H2 L1 L2 Heq.
    apply Hold in L1; [|exact H1]. apply Hold in L2; [|exact H2].
    apply (Hsep z1 z2 t1 b1 k1 t2 b2 k2); auto using list_elem_of_further.
Qed.

(** *** One atomic section at a time *)

Lemma multi_of_Some comp w c zs m :
  slab (hp w) !! comp = Some (KComp c) ->
  stream c = Some zs ->
  slab (hp w) !! zs = Some (KMulti m) ->
  multi_of comp w = Some ((zs, m), w).
Proof.
  intros Hc Hs Hm. unfold multi_of.
  rewrite (bind_Some _ _ _ _ _ (load_comp_Some _ _ _ Hc)), Hs.
  now rewrite (bind_Some _ _ _ _ _ (load_multi_Some _ _ _ Hm)).
Qed.

Section POOL.

Variables (alg : string) (comp : addr) (s : sys) (c : zcomp) (zs : addr)
          (m : zcomp_strm_multi).
Hypothesis Inv : pool_inv alg comp s c zs m.

Lemma inv_multi_of : multi_of comp (wd s) = Some ((zs, m), wd s).
Proof. destruct Inv. now apply multi_of_Some with (c := c). Qed.

Lemma inv_pool_of : pool_of comp (wd s) = Some m.
Proof. unfold pool_of. now rewrite inv_multi_of. Qed.

Lemma inv_store m' : store zs (KMulti m') (wd s) = Some (tt, put_pool zs m' (wd s)).
Proof. destruct Inv. now apply store_Some with (o := KMulti m). Qed.

Lemma inv_avail_nonneg : 0 <= Z.of_nat (length (idle_strm m)) <= avail_strm m.
Proof. destruct Inv. pose proof (slots_nonneg (thr s)). lia. Qed.

Lemma inv_comp_ne_pool : comp <> zs.
Proof. destruct Inv. intros E. rewrite E in inv_comp0. congruence. Qed.

(** The invariant after the pool object and the threads have changed. *)
Lemma pool_inv_put m' ts' :
  is_int (max_strm m') ->
  avail_strm m' <= INT_MAX ->
  avail_strm m' = Z.of_nat (length (idle_strm m')) + slots ts' ->
  (avail_strm m' <= max_strm m' \/ idle_strm m' = []) ->
  strms_ok (hp (wd s)) alg (idle_strm m' ++ owned ts') ->
  pool_inv alg comp (Sys (put_pool zs m' (wd s)) ts') c zs m'.
Proof.
  intros H1 H2 H3 H4 H5. pose proof inv_comp_ne_pool. destruct Inv.
  constructor; simpl; auto.
  - now rewrite lookup_insert_ne by auto.
  - apply lookup_insert_eq.
  - now apply strms_ok_put_pool with (m := m).
Qed.

(** The invariant after a thread has moved without touching memory. *)
Lemma pool_inv_move t p q :
  thr s !! t = Some p -> owns q = owns p -> slot q = slot p ->
  pool_inv alg comp (Sys (wd s) (<[t:=q]> (thr s))) c zs m.
Proof.
  intros Ht Ho Hs. destruct Inv.
  constructor; simpl; auto.
  - rewrite (slots_insert _ _ _ _ Ht). lia.
  - now rewrite (owned_insert_same _ _ _ _ Ht Ho).
Qed.

Lemma call_get_inv t :
  thr s !! t = Some Out ->
  step comp (Call_get t) s = Some (Sys (wd s) (<[t:=Find_top]> (thr s))) /\
  pool_inv alg comp (Sys (wd s) (<[t:=Find_top]> (thr s))) c zs m.
Proof.
  intros Ht. split; [|now apply pool_inv_move with (p := Out)].
  destruct Inv. destruct inv_ops0 as (Hf & _).
  unfold step. rewrite Ht. unfold zcomp_stream_get.
  now rewrite (bind_Some _ _ _ _ _ (load_comp_Some _ _ _ inv_comp0)), Hf.
Qed.

Lemma call_put_inv t z :
  thr s !! t = Some (Holding z) ->
  step comp (Call_put t) s = Some (Sys (wd s) (<[t:=Rel_top z]> (thr s))) /\
  pool_inv alg comp (Sys (wd s) (<[t:=Rel_top z]> (thr s))) c zs m.
Proof.
  intros Ht. split; [|now apply pool_inv_move with (p := Holding z)].
  destruct Inv. destruct inv_ops0 as (_ & Hr & _).
  unfold step. rewrite Ht. unfold zcomp_stream_put.
  now rewrite (bind_Some _ _ _ _ _ (load_comp_Some _ _ _ inv_comp0)), Hr.
Qed.

(** [zcomp_strm_multi_find], line 103 on: the idle list is not empty. *)
Lemma find_top_pop t z rest :
  thr s !! t = Some Find_top ->
  idle_strm m = z :: rest ->
  let m' := Zmulti (max_strm m) (avail_strm m) rest in
  let s' := Sys (put_pool zs m' (wd s)) (<[t:=Holding z]> (thr s)) in
  step comp (Tick t) s = Some s' /\ pool_inv alg comp s' c zs m'.
Proof.
  intros Ht Hi m' s'. split.
  - unfold step. rewrite Ht. unfold zcomp_strm_multi_find.
    rewrite (bind_Some _ _ _ _ _ inv_multi_of), Hi.
    now rewrite (bind_Some _ _ _ _ _ (inv_store _)).
  - pose proof inv_avail_nonneg. destruct Inv.
    apply pool_inv_put; simpl; auto.
    + rewrite (slots_insert _ _ _ _ Ht). rewrite Hi in inv_count0. simpl in *. lia.
    + destruct inv_room0 as [|E]; [auto|]. rewrite Hi in E. discriminate.
    + eapply strms_ok_perm; [|exact inv_strms0]. rewrite Hi.
      rewrite (owned_insert_take _ _ _ _ z Ht) by reflexivity.
      simpl. now rewrite Permutation_middle.
Qed.

(** Line 112: no idle stream and no room to grow. *)
Lemma find_top_full t :
  thr s !! t = Some Find_top ->
  idle_strm m = [] ->
  max_strm m <= avail_strm m ->
  let s' := Sys (wd s) (<[t:=Find_wait]> (thr s)) in
  step comp (Tick t) s = Some s' /\ pool_inv alg comp s' c zs m.
Proof.
  intros Ht Hi Hfull s'. split; [|now apply pool_inv_move with (p := Find_top)].
  unfold step. rewrite Ht. unfold zcomp_strm_multi_find.
  rewrite (bind_Some _ _ _ _ _ inv_multi_of), Hi.
  destruct (Z.geb_spec (avail_strm m) (max_strm m)); [reflexivity|lia].
Qed.

Lemma int_wrap_id x : is_int x -> int_wrap x = x.
Proof.
  unfold is_int, INT_MIN, INT_MAX, int_wrap. intros H.
  rewrite Z.mod_small by lia. lia.
Qed.

(** Line 118: a slot is reserved. *)
Lemma find_top_grow t :
  thr s !! t = Some Find_top ->
  idle_strm m = [] ->
  avail_strm m < max_strm m ->
  let m' := Zmulti (max_strm m) (avail_strm m + 1) [] in
  let s' := Sys (put_pool zs m' (wd s)) (<[t:=Find_alloc]> (thr s)) in
  step comp (Tick t) s = Some s' /\ pool_inv alg comp s' c zs m'.
Proof.
  intros Ht Hi Hroom m' s'. pose proof inv_avail_nonneg as Hnn.
  pose proof (inv_max _ _ _ _ _ _ Inv) as Hmax.
  assert (Hw : int_wrap (avail_strm m + 1) = avail_strm m + 1)
    by (apply int_wrap_id; unfold is_int, INT_MIN, INT_MAX in *; lia).
  split.
  - unfold step. rewrite Ht. unfold zcomp_strm_multi_find.
    rewrite (bind_Some _ _ _ _ _ inv_multi_of), Hi.
    destruct (Z.geb_spec (avail_strm m) (max_strm m)); [lia|].
    rewrite Hw. now rewrite (bind_Some _ _ _ _ _ (inv_store _)).
  - destruct Inv. apply pool_inv_put; simpl; auto.
    + unfold is_int, INT_MAX in *. lia.
    + rewrite (slots_insert _ _ _ _ Ht). rewrite Hi in inv_count0. simpl in *. lia.
    + rewrite Hi in inv_strms0. simpl in *.
      now rewrite (owned_insert_same _ _ _ _ Ht).
Qed.

(** Lines 114 and 134: [wait_event] tests [!list_empty(&zs->idle_strm)]. *)
Lemma find_wait_inv t :
  thr s !! t = Some Find_wait ->
  let q := match idle_strm m with [] => Find_sleep | _ :: _ => Find_top end in
  let s' := Sys (wd s) (<[t:=q]> (thr s)) in
  step comp (Tick t) s = Some s' /\ pool_inv alg comp s' c zs m.
Proof.
  intros Ht q s'. split.
  - unfold step. rewrite Ht. unfold zcomp_strm_multi_find.
    rewrite (bind_Some _ _ _ _ _ inv_multi_of). unfold s', q.
    now destruct (idle_strm m).
  - apply pool_inv_move with (p := Find_wait); auto; unfold q; now destruct (idle_strm m).
Qed.

(** Line 131: the reserved slot is given back. *)
Lemma find_undo_inv t :
  thr s !! t = Some Find_undo ->
  let m' := Zmulti (max_strm m) (avail_strm m - 1) (idle_strm m) in
  let s' := Sys (put_pool zs m' (wd s)) (<[t:=Find_wait]> (thr s)) in
  step comp (Tick t) s = Some s' /\ pool_inv alg comp s' c zs m' /\ 1 <= avail_strm m.
Proof.
  intros Ht m' s'. pose proof inv_avail_nonneg as Hnn.
  pose proof (inv_count _ _ _ _ _ _ Inv) as Hcnt.
  pose proof (inv_avail _ _ _ _ _ _ Inv) as Hav.
  assert (Hone : 1 <= avail_strm m).
  { destruct (thr_split _ _ _ Ht) as (l1 & l2 & E & _).
    rewrite E, slots_app in Hcnt. simpl in Hcnt.
    pose proof (slots_nonneg l1). pose proof (slots_nonneg l2). lia. }
  assert (Hw : int_wrap (avail_strm m - 1) = avail_strm m - 1)
    by (apply int_wrap_id; unfold is_int, INT_MIN, INT_MAX in *; lia).
  split; [|split; [|exact Hone]].
  - unfold step. rewrite Ht. unfold zcomp_strm_multi_find.
    rewrite (bind_Some _ _ _ _ _ inv_multi_of).
    rewrite Hw. now rewrite (bind_Some _ _ _ _ _ (inv_store _)).
  - destruct Inv. apply pool_inv_put; simpl; auto.
    + lia.
    + rewrite (slots_insert _ _ _ _ Ht). simpl. lia.
    + destruct inv_room0; [left; lia|now right].
    + now rewrite (owned_insert_same _ _ _ _ Ht).
Qed.

(** Line 128: the new stream goes to the caller, or nothing is left of
    the attempt. *)
Lemma find_alloc_inv t :
  thr s !! t = Some Find_alloc ->
  let flags := Z.lor (Z.lor GFP_NOIO __GFP_NORETRY) __GFP_NOWARN in
  exists r w',
    zcomp_strm_alloc comp flags (wd s) = Some (r, w') /\
    let q := match r with Some z => Holding z | None => Find_undo end in
    let s' := Sys w' (<[t:=q]> (thr s)) in
    step comp (Tick t) s = Some s' /\
    pool_inv alg comp s' c zs m /\
    match r with
    | Some z =>
        (z ∉ idle_strm m ++ owned (thr s)) /\
        exists tf b,
          hp w' = with_strm (hp (wd s)) alg z tf b
                    (Pages 1 (fresh_page_data (Z.lor flags __GFP_ZERO) 1))
    | None => hp w' = hp (wd s)
    end.
Proof.
  intros Ht flags.
  pose proof (zcomp_strm_alloc_eq comp flags c alg (wd s)
                (inv_comp _ _ _ _ _ _ Inv) (inv_name _ _ _ _ _ _ Inv)) as Ha.
  destruct (strm_alloc_outcome comp flags alg (wd s)) as [r w'] eqn:Eo.
  exists r, w'. split; [exact Ha|]. intros q s'.
  assert (Hstep : step comp (Tick t) s = Some s').
  { unfold step. rewrite Ht. unfold zcomp_strm_multi_find.
    fold flags. rewrite (bind_Some _ _ _ _ _ Ha). unfold s', q. now destruct r. }
  split; [exact Hstep|].
  pose proof inv_comp_ne_pool as Hne. destruct Inv. destruct r as [z|].
  - apply strm_alloc_outcome_Some in Eo as (Ez & _ & _ & Eh).
    pose proof (fresh_slab (wd s)) as Fz. rewrite <- Ez in Fz.
    assert (Hok : strms_ok (hp w') alg (z :: idle_strm m ++ owned (thr s))).
    { rewrite Eh. apply strms_ok_alloc; auto.
      - apply fresh_crypto.
      - apply fresh_pages.
      - simpl. rewrite fresh_page_data_length. apply page_bytes_1. }
    split; [|split; [|eauto]].
    2:{ destruct Hok as (Hnd & _). now apply NoDup_cons in Hnd as (? & _). }
    constructor; simpl; auto.
    + rewrite Eh. simpl. rewrite lookup_insert_ne by congruence. exact inv_comp0.
    + rewrite Eh. simpl. rewrite lookup_insert_ne by congruence. exact inv_pool0.
    + rewrite (slots_insert _ _ _ _ Ht). simpl. lia.
    + eapply strms_ok_perm; [|exact Hok].
      rewrite (owned_insert_take _ _ _ _ z Ht) by reflexivity.
      now rewrite Permutation_middle.
  - apply strm_alloc_outcome_None in Eo as (Eh & _).
    split; [|exact Eh].
    constructor; simpl; rewrite ?Eh; auto.
    + rewrite (slots_insert _ _ _ _ Ht). simpl. lia.
    + now rewrite (owned_insert_same _ _ _ _ Ht).
Qed.

(** [zcomp_strm_multi_release], line 148: the stream goes back to the
    idle list. *)
Lemma rel_top_idle t z :
  thr s !! t = Some (Rel_top z) ->
  avail_strm m <= max_strm m ->
  let m' := Zmulti (max_strm m) (avail_strm m) (z :: idle_strm m) in
  let s' := Sys (put_pool zs m' (wd s)) (<[t:=Rel_wake]> (thr s)) in
  step comp (Tick t) s = Some s' /\ pool_inv alg comp s' c zs m'.
Proof.
  intros Ht Hle m' s'. split.
  - unfold step. rewrite Ht. unfold zcomp_strm_multi_release.
    rewrite (bind_Some _ _ _ _ _ inv_multi_of).
    destruct (Z.leb_spec (avail_strm m) (max_strm m)); [|lia].
    now rewrite (bind_Some _ _ _ _ _ (inv_store _)).
  - destruct Inv. apply pool_inv_put; simpl; auto.
    + rewrite (slots_insert _ _ _ _ Ht). simpl. lia.
    + eapply strms_ok_perm; [|exact inv_strms0].
      rewrite <- (owned_insert_give _ _ _ Rel_wake z Ht) by reflexivity.
      now rewrite Permutation_middle.
Qed.

(** Line 155: the pool was shrunk under the caller. *)
Lemma rel_top_over t z :
  thr s !! t = Some (Rel_top z) ->
  max_strm m < avail_strm m ->
  let m' := Zmulti (max_strm m) (avail_strm m - 1) (idle_strm m) in
  let s' := Sys (put_pool zs m' (wd s)) (<[t:=Rel_free z]> (thr s)) in
  step comp (Tick t) s = Some s' /\ pool_inv alg comp s' c zs m' /\ idle_strm m = [].
Proof.
  intros Ht Hgt m' s'. pose proof inv_avail_nonneg as Hnn.
  pose proof (inv_max _ _ _ _ _ _ Inv) as Hmax.
  pose proof (inv_avail _ _ _ _ _ _ Inv) as Hav.
  assert (Hw : int_wrap (avail_strm m - 1) = avail_strm m - 1)
    by (apply int_wrap_id; unfold is_int, INT_MIN, INT_MAX in *; lia).
  assert (Hidle : idle_strm m = [])
    by (destruct (inv_room _ _ _ _ _ _ Inv); [lia|assumption]).
  split; [|split; [|exact Hidle]].
  - unfold step. rewrite Ht. unfold zcomp_strm_multi_release.
    rewrite (bind_Some _ _ _ _ _ inv_multi_of).
    destruct (Z.leb_spec (avail_strm m) (max_strm m)); [lia|].
    rewrite Hw. now rewrite (bind_Some _ _ _ _ _ (inv_store _)).
  - destruct Inv. apply pool_inv_put; simpl; auto.
    + lia.
    + rewrite (slots_insert _ _ _ _ Ht). simpl. lia.
    + now rewrite (owned_insert_same _ _ _ _ Ht).
Qed.

(** Line 151: [wake_up]. *)
Lemma rel_wake_inv t :
  thr s !! t = Some Rel_wake ->
  let s' := Sys (wd s) (<[t:=Out]> (wake_up (thr s))) in
  step comp (Tick t) s = Some s' /\ pool_inv alg comp s' c zs m.
Proof.
  intros Ht s'. split; [unfold step; now rewrite Ht|].
  assert (Hw : wake_up (thr s) !! t = Some Rel_wake)
    by (rewrite wake_up_lookup, Ht; reflexivity).
  destruct Inv. constructor; simpl; auto.
  - rewrite (slots_insert _ _ _ _ Hw), slots_wake_up. simpl. lia.
  - rewrite (owned_insert_same _ _ _ _ Hw) by reflexivity. now rewrite owned_wake_up.
Qed.

(** Line 157: the stream is freed. *)
Lemma rel_free_inv t z :
  thr s !! t = Some (Rel_free z) ->
  exists tf b blk,
    strm_live (hp (wd s)) alg z tf b blk /\
    let s' := Sys (World (without_strm (hp (wd s)) z tf b) (nreq (wd s)))
                  (<[t:=Out]> (thr s)) in
    step comp (Tick t) s = Some s' /\ pool_inv alg comp s' c zs m.
Proof.
  intros Ht. destruct Inv.
  assert (Hperm : idle_strm m ++ owned (thr s) ≡ₚ
                  z :: idle_strm m ++ owned (<[t:=Out]> (thr s))).
  { rewrite <- (owned_insert_give _ _ _ Out z Ht) by reflexivity.
    now rewrite Permutation_middle. }
  pose proof (strms_ok_perm _ _ _ _ Hperm inv_strms0) as Hok.
  destruct Hok as (Hnd & Hlive & Hsep).
  destruct (Hlive z (list_elem_of_here _ _)) as (tf & b & blk & Lz).
  exists tf, b, blk. split; [exact Lz|]. intros s'. split.
  - unfold step. rewrite Ht. unfold zcomp_strm_multi_release.
    now rewrite (bind_Some _ _ _ _ _ (zcomp_strm_free_live _ _ _ _ _ _ Lz)).
  - pose proof Lz as (Hz & _).
    constructor; simpl; auto.
    + rewrite lookup_delete_ne by congruence. exact inv_comp0.
    + rewrite lookup_delete_ne by congruence. exact inv_pool0.
    + rewrite (slots_insert _ _ _ _ Ht). simpl. lia.
    + apply strms_ok_free with (z := z) (blk := blk); [|exact Lz].
      split; [exact Hnd|]. split; [exact Hlive|exact Hsep].
Qed.

(** The loop of lines 172-178 frees idle streams from the head of the
    list while [avail_strm] is above the new limit. *)
Lemma free_idle_above_eq n rest idle :
  forall avail w,
    strms_ok (hp w) alg (idle ++ rest) ->
    Z.of_nat (length idle) <= avail <= INT_MAX ->
    let k := Nat.min (length idle) (Z.to_nat (avail - n)) in
    exists w',
      free_idle_above n idle avail w = Some ((drop k idle, avail - Z.of_nat k), w') /\
      strms_ok (hp w') alg (drop k idle ++ rest) /\
      nreq w' = nreq w /\
      (forall a o, slab (hp w) !! a = Some o -> (forall st, o <> KStrm st) ->
                   slab (hp w') !! a = Some o) /\
      (forall a, slab (hp w) !! a = None -> slab (hp w') !! a = None) /\
      (forall z, z ∈ take k idle -> slab (hp w') !! z = None).
Proof.
  induction idle as [|z idle IH]; intros avail w Hok Hav k.
  - assert (Ek : k = 0%nat) by (unfold k; simpl; lia).
    exists w. rewrite Ek. simpl. rewrite Z.sub_0_r.
    split; [reflexivity|]. split; [exact Hok|]. split; [reflexivity|].
    split; [auto|]. split; [auto|]. intros z Hz. now apply elem_of_nil in Hz.
  - simpl in Hav. simpl free_idle_above.
    destruct (Z.gtb_spec avail n) as [Hgt|Hle].
    + pose proof Hok as (_ & Hlive & _).
      destruct (Hlive z (list_elem_of_here _ _)) as (tf & b & blk & Lz).
      rewrite (bind_Some _ _ _ _ _ (zcomp_strm_free_live _ _ _ _ _ _ Lz)).
      assert (Hw : int_wrap (avail - 1) = avail - 1)
        by (apply int_wrap_id; unfold is_int, INT_MIN, INT_MAX in *; lia).
      rewrite Hw.
      set (w1 := World (without_strm (hp w) z tf b) (nreq w)).
      assert (Hok1 : strms_ok (hp w1) alg (idle ++ rest))
        by (apply strms_ok_free with (z := z) (blk := blk); assumption).
      destruct (IH (avail - 1) w1 Hok1 ltac:(lia)) as (w' & Hrun & Hok' & Hn & Hfr & Hnone & Hgone).
      assert (Ek : k = S (Nat.min (length idle) (Z.to_nat (avail - 1 - n))))
        by (unfold k; simpl length; lia).
      exists w'. rewrite Ek. simpl drop. simpl take.
      replace (avail - Z.of_nat (S (Nat.min (length idle) (Z.to_nat (avail - 1 - n)))))
        with (avail - 1 - Z.of_nat (Nat.min (length idle) (Z.to_nat (avail - 1 - n)))) by lia.
      split; [exact Hrun|]. split; [exact Hok'|]. split; [exact Hn|].
      pose proof Lz as (Hz & _).
      split; [|split].
      * intros a o Ha Hns. apply Hfr; [|exact Hns]. simpl.
        rewrite lookup_delete_ne; [exact Ha|]. intros ->. rewrite Hz in Ha.
        injection Ha as <-. now apply (Hns (Zstrm (Tfm tf) (Some b))).
      * intros a Ha. apply Hnone. simpl.
        destruct (decide (z = a)) as [->|Hne]; [apply lookup_delete_eq|].
        now rewrite lookup_delete_ne.
      * intros z' [->|Hz']%elem_of_cons; [|now apply Hgone].
        apply Hnone. simpl. apply lookup_delete_eq.
    + assert (Ek : k = 0%nat) by (unfold k; lia).
      exists w. rewrite Ek. simpl. rewrite Z.sub_0_r.
      split; [reflexivity|]. split; [exact Hok|]. split; [reflexivity|].
      split; [auto|]. split; [auto|]. intros z' Hz'. now apply elem_of_nil in Hz'.
Qed.

(** [zcomp_strm_multi_set_max_streams]. *)
Lemma set_max_inv n :
  is_int n ->
  let k := Nat.min (length (idle_strm m)) (Z.to_nat (avail_strm m - n)) in
  let m' := Zmulti n (avail_strm m - Z.of_nat k) (drop k (idle_strm m)) in
  exists w',
    let s' := Sys (put_pool zs m' w') (thr s) in
    zcomp_set_max_streams comp n (wd s) = Some (true, put_pool zs m' w') /\
    step comp (Call_set_max n) s = Some s' /\
    pool_inv alg comp s' c zs m' /\
    (forall z, z ∈ take k (idle_strm m) -> slab (hp (wd s')) !! z = None).
Proof.
  intros Hn k m'. pose proof inv_avail_nonneg as Hnn.
  pose proof inv_comp_ne_pool as Hne. destruct Inv.
  destruct (free_idle_above_eq n (owned (thr s)) (idle_strm m) (avail_strm m) (wd s)
              inv_strms0 ltac:(lia))
    as (w' & Hrun & Hok & Hnr & Hfr & Hnone & Hgone).
  fold k in Hrun, Hok, Hgone.
  assert (Hc' : slab (hp w') !! comp = Some (KComp c)) by (apply Hfr; [assumption|discriminate]).
  assert (Hm' : slab (hp w') !! zs = Some (KMulti m)) by (apply Hfr; [assumption|discriminate]).
  exists w'. intros s'.
  assert (Hcall : zcomp_set_max_streams comp n (wd s) = Some (true, put_pool zs m' w')).
  { destruct inv_ops0 as (_ & _ & Hsm & _).
    unfold zcomp_set_max_streams.
    rewrite (bind_Some _ _ _ _ _ (load_comp_Some _ _ _ inv_comp0)), Hsm.
    unfold zcomp_strm_multi_set_max_streams.
    rewrite (bind_Some _ _ _ _ _ inv_multi_of).
    rewrite (bind_Some _ _ _ _ _ Hrun).
    now rewrite (bind_Some _ _ _ _ _ (store_Some _ _ _ _ Hm')). }
  split; [exact Hcall|]. split.
  { unfold step. rewrite bool_decide_true by exact Hn. now rewrite Hcall. }
  split.
  - constructor; simpl; auto.
    + now rewrite lookup_insert_ne by auto.
    + apply lookup_insert_eq.
    + lia.
    + rewrite length_drop. lia.
    + destruct (Z.le_gt_cases (avail_strm m - Z.of_nat k) n) as [|Hgt]; [now left|].
      right. apply nil_length_inv. rewrite length_drop. lia.
    + now apply strms_ok_put_pool with (m := m).
  - intros z Hz. simpl.
    destruct (decide (zs = z)) as [<-|Hzz].
    + apply Hgone in Hz. congruence.
    + rewrite lookup_insert_ne by auto. now apply Hgone.
Qed.

End POOL.

(** *** Every step keeps the invariant *)

Lemma step_pool_inv alg comp s c zs m l s' :
  pool_inv alg comp s c zs m ->
  step comp l s = Some s' ->
  exists m', pool_inv alg comp s' c zs m'.
Proof.
  intros Inv H. destruct l as [t|t|n|t].
  - destruct (thr s !! t) as [p|] eqn:Ht; [|unfold step in H; rewrite Ht in H; discriminate].
    destruct p; try (unfold step in H; rewrite Ht in H; discriminate).
    same_step H (call_get_inv _ _ _ _ _ _ Inv t Ht).
  - destruct (thr s !! t) as [p|] eqn:Ht; [|unfold step in H; rewrite Ht in H; discriminate].
    destruct p; try (unfold step in H; rewrite Ht in H; discriminate).
    same_step H (call_put_inv _ _ _ _ _ _ Inv t _ Ht).
  - destruct (decide (is_int n)) as [Hn|Hn].
    + destruct (set_max_inv _ _ _ _ _ _ Inv n Hn) as (w' & _ & Hs & Hi & _).
      rewrite Hs in H. injection H as <-. eauto.
    + unfold step in H. rewrite bool_decide_false in H by exact Hn. discriminate.
  - destruct (thr s !! t) as [p|] eqn:Ht; [|unfold step in H; rewrite Ht in H; discriminate].
    destruct p; try (unfold step in H; rewrite Ht in H; discriminate).
    + destruct (idle_strm m) as [|z rest] eqn:Hidle.
      * destruct (Z.lt_ge_cases (avail_strm m) (max_strm m)).
        -- same_step H (find_top_grow _ _ _ _ _ _ Inv t Ht Hidle ltac:(assumption)).
        -- same_step H (find_top_full _ _ _ _ _ _ Inv t Ht Hidle ltac:(assumption)).
      * same_step H (find_top_pop _ _ _ _ _ _ Inv t z rest Ht Hidle).
    + same_step H (find_wait_inv _ _ _ _ _ _ Inv t Ht).
    + destruct (find_alloc_inv _ _ _ _ _ _ Inv t Ht) as (r & w' & _ & Hs & Hi & _).
      rewrite Hs in H. injection H as <-. eauto.
    + destruct (find_undo_inv _ _ _ _ _ _ Inv t Ht) as (Hs & Hi & _).
      rewrite Hs in H. injection H as <-. eauto.
    + destruct (Z.le_gt_cases (avail_strm m) (max_strm m)).
      * same_step H (rel_top_idle _ _ _ _ _ _ Inv t _ Ht ltac:(assumption)).
      * destruct (rel_top_over _ _ _ _ _ _ Inv t _ Ht ltac:(lia)) as (Hs & Hi & _).
        rewrite Hs in H. injection H as <-. eauto.
    + same_step H (rel_wake_inv _ _ _ _ _ _ Inv t Ht).
    + destruct (rel_free_inv _ _ _ _ _ _ Inv t _ Ht) as (tf & b & blk & _ & Hs & Hi).
      rewrite Hs in H. injection H as <-. eauto.
Qed.

Lemma run_pool_inv alg comp c zs ls :
  forall s m s',
    pool_inv alg comp s c zs m ->
    run comp ls s = Some s' ->
    exists m', pool_inv alg comp s' c zs m'.
Proof.
  induction ls as [|l ls IH]; intros s m s' Inv H; simpl in H.
  - injection H as <-. eauto.
  - destruct (step comp l s) as [s1|] eqn:Hs; [|discriminate].
    destruct (step_pool_inv _ _ _ _ _ _ _ _ Inv Hs) as (m1 & Inv1). eauto.
Qed.

Lemma owned_replicate_Out n : owned (replicate n Out) = [].
Proof. induction n; [reflexivity|exact IHn]. Qed.

Lemma slots_replicate_Out n : slots (replicate n Out) = 0.
Proof. induction n; simpl; [reflexivity|now rewrite IHn]. Qed.

Lemma boot_pool_inv compress max n w comp s0 :
  1 < max <= INT_MAX ->
  boot compress max n w = Some (comp, s0) ->
  exists alg c zs z,
    pool_inv alg comp s0 c zs (Zmulti max 1 [z]) /\ thr s0 = replicate n Out.
Proof.
  intros Hmax Hb. unfold boot in Hb.
  destruct (find_backend compress) as [backend|] eqn:Hf.
  2:{ unfold zcomp_create in Hb. rewrite Hf in Hb. discriminate. }
  destruct (zcomp_create_eq compress backend max w Hf) as (r & w' & Hr & _ & Hres).
  rewrite Hr in Hb. destruct r as [e|comp']; [discriminate|].
  injection Hb as <- <-.
  destruct Hres as (zs & z & t & b & Fc & Fzs & Fz & N1 & N2 & N3 & Ft & Fb & _ & Eh).
  assert (Em : (max >? 1) = true) by (apply Z.gtb_lt; lia).
  unfold created_heap, created_zcomp, created_pool in Eh. rewrite Em in Eh.
  exists backend, (Zcomp (Some zs) (Some backend) (Some fn_multi_find) (Some fn_multi_release)
                         (Some fn_multi_set_max_streams) (Some fn_multi_destroy)), zs, z.
  split; [|reflexivity].
  constructor; simpl; rewrite ?Eh; simpl; auto.
  - rewrite !lookup_insert_ne by congruence. apply lookup_insert_eq.
  - repeat split.
  - rewrite lookup_insert_ne by congruence. apply lookup_insert_eq.
  - unfold is_int, INT_MIN. lia.
  - unfold INT_MAX. lia.
  - rewrite slots_replicate_Out. lia.
  - left. lia.
  - rewrite owned_replicate_Out. simpl.
    apply (strms_ok_alloc _ _ [] z t b); simpl; auto.
    + split; [constructor|]. split; [|intros ? ? ? ? ? ? ? ? H; now apply elem_of_nil in H].
      intros ? H. now apply elem_of_nil in H.
    + rewrite !lookup_insert_ne by congruence. exact Fz.
    + rewrite fresh_page_data_length. apply page_bytes_1.
Qed.

Lemma reachable_pool_inv comp s :
  multi_reachable comp s -> exists alg c zs m, pool_inv alg comp s c zs m.
Proof.
  intros (compress & max & n & w & ls & s0 & Hmax & Hb & Hrun).
  destruct (boot_pool_inv _ _ _ _ _ _ Hmax Hb) as (alg & c & zs & z & Inv & _).
  destruct (run_pool_inv _ _ _ _ _ _ _ _ Inv Hrun) as (m' & Inv').
  eauto.
Qed.

(** * The stream allocator *)

(** C6. [zcomp_strm_alloc] is all or nothing.  It returns a stream exactly
    when its three requests (the structure, the transform, the pages) are
    all granted; the stream then is a new object with a live transform for
    the compressor's algorithm and a live buffer of order 1, that is of
    [2 * PAGE_SIZE] bytes, and nothing else in memory has changed.  When
    any request is refused it returns NULL and memory is what it was
    before the call: whatever had been obtained was given back. *)
Theorem zcomp_strm_alloc_all_or_nothing comp flags c alg w :
  slab (hp w) !! comp = Some (KComp c) ->
  name c = Some alg ->
  exists r w',
    zcomp_strm_alloc comp flags w = Some (r, w') /\
    bool_decide (is_Some r)
      = alloc_ok (nreq w) && alloc_ok (S (nreq w)) && alloc_ok (S (S (nreq w))) /\
    match r with
    | Some z =>
        slab (hp w) !! z = None /\
        exists t b blk,
          crypto (hp w) !! t = None /\ pages (hp w) !! b = None /\
          hp w' = with_strm (hp w) alg z t b blk /\
          strm_live (hp w') alg z t b blk
    | None => hp w' = hp w
    end.
Proof.
  intros Hc Hn.
  pose proof (zcomp_strm_alloc_eq comp flags c alg w Hc Hn) as Ha.
  destruct (strm_alloc_outcome comp flags alg w) as [r w'] eqn:Eo.
  exists r, w'. split; [exact Ha|]. destruct r as [z|].
  - apply strm_alloc_outcome_Some in Eo as (Ez & Eg & _ & Eh).
    split; [rewrite Eg; apply bool_decide_true; eauto|].
    split; [rewrite Ez; apply fresh_slab|].
    eexists _, _, _. split; [apply fresh_crypto|]. split; [apply fresh_pages|].
    split; [exact Eh|]. rewrite Eh. apply with_strm_live; simpl; [reflexivity|].
    rewrite fresh_page_data_length. apply page_bytes_1.
  - apply strm_alloc_outcome_None in Eo as (Eh & Eg).
    split; [rewrite Eg; apply bool_decide_false; now intros [? ?]|exact Eh].
Qed.

Lemma zcomp_strm_alloc_zeroed comp flags w z w' :
  __GFP_ZERO <> 0 ->
  zcomp_strm_alloc comp flags w = Some (Some z, w') ->
  zeroed_buffer (hp w') z.
Proof.
  intros Hz Ha.
  destruct (zcomp_strm_alloc_inv _ _ _ _ _ Ha) as (c & alg & Hc & Hn).
  rewrite (zcomp_strm_alloc_eq comp flags c alg w Hc Hn) in Ha.
  injection Ha as Ha. apply strm_alloc_outcome_Some in Ha as (_ & _ & _ & Eh).
  unfold zeroed_buffer. rewrite Eh. unfold with_strm. simpl.
  eexists _, _, _. rewrite !lookup_insert_eq. simpl.
  split; [reflexivity|]. split; [reflexivity|]. split; [reflexivity|]. simpl.
  rewrite fresh_page_data_zero by exact Hz. now rewrite page_bytes_1.
Qed.

Lemma zcomp_create_handle compress max w comp w' :
  zcomp_create compress max w = Some (inr comp, w') ->
  exists backend zs z t b,
    find_backend compress = Some backend /\
    slab (hp w) !! comp = None /\ slab (hp w) !! zs = None /\
    slab (hp w) !! z = None /\ comp <> zs /\ comp <> z /\ zs <> z /\
    crypto (hp w) !! t = None /\ pages (hp w) !! b = None /\
    hp w' = created_heap (hp w) backend max comp zs z t b
              (Pages 1 (fresh_page_data (Z.lor GFP_KERNEL __GFP_ZERO) 1)).
Proof.
  intros H. destruct (find_backend compress) as [backend|] eqn:Hf.
  2:{ unfold zcomp_create in H. rewrite Hf in H. discriminate. }
  destruct (zcomp_create_eq compress backend max w Hf) as (r & w1 & Hr & _ & Hres).
  rewrite Hr in H. injection H as -> ->.
  destruct Hres as (zs & z & t & b & ? & ? & ? & ? & ? & ? & ? & ? & _ & ?).
  exists backend, zs, z, t, b. auto 12.
Qed.

(** C10. Every stream that is handed out starts with a zero-filled buffer
    of [2 * PAGE_SIZE] bytes, because [zcomp_strm_alloc] adds [__GFP_ZERO]
    to the flags it passes to the page allocator: this holds for any
    successful [zcomp_strm_alloc], hence for the stream [zcomp_create]
    seeds a pool with (the one idle stream of a multi-stream pool, the
    stream of a single-stream one) and for every stream
    [zcomp_strm_multi_find] allocates when the pool grows. *)
Theorem stream_buffers_start_zeroed :
  __GFP_ZERO <> 0 ->
  (forall comp flags w z w',
      zcomp_strm_alloc comp flags w = Some (Some z, w') ->
      zeroed_buffer (hp w') z) /\
  (forall compress max w comp w',
      zcomp_create compress max w = Some (inr comp, w') ->
      exists c zs z,
        slab (hp w') !! comp = Some (KComp c) /\ stream c = Some zs /\
        slab (hp w') !! zs = Some (if max >? 1
                                   then KMulti (Zmulti max 1 [z])
                                   else KSingle (Zsingle false (Some z))) /\
        zeroed_buffer (hp w') z) /\
  (forall comp w z w',
      zcomp_strm_multi_find comp Find_alloc w = Some (Holding z, w') ->
      zeroed_buffer (hp w') z).
Proof.
  intros Hz. split; [|split].
  - intros comp flags w z w'. now apply zcomp_strm_alloc_zeroed.
  - intros compress max w comp w' H.
    apply zcomp_create_handle in H
      as (backend & zs & z & t & b & _ & _ & _ & _ & N1 & N2 & N3 & _ & _ & Eh).
    exists (created_zcomp backend zs max), zs, z.
    rewrite Eh. unfold created_heap, with_strm, zeroed_buffer. simpl.
    split; [rewrite !lookup_insert_ne by congruence; apply lookup_insert_eq|].
    split; [unfold created_zcomp; now destruct (max >? 1)|].
    split; [rewrite lookup_insert_ne by congruence; apply lookup_insert_eq|].
    eexists _, _, _. rewrite !lookup_insert_eq. simpl.
    split; [reflexivity|]. split; [reflexivity|]. split; [reflexivity|]. simpl.
    rewrite fresh_page_data_zero by exact Hz. now rewrite page_bytes_1.
  - intros comp w z w' H. unfold zcomp_strm_multi_find in H.
    apply bind_inv in H as (r & w1 & Ha & H).
    destruct r as [z0|]; [|discriminate]. injection H as -> ->.
    now apply zcomp_strm_alloc_zeroed in Ha.
Qed.

(** * Creating a compressor *)

Lemma find_backend_from_None bs compress :
  find_backend_from bs compress = None <->
  forall b, b ∈ bs -> sysfs_streq compress b = false.
Proof.
  induction bs as [|b0 bs IH]; simpl.
  - split; [|reflexivity]. intros _ b Hb. now apply elem_of_nil in Hb.
  - destruct (sysfs_streq compress b0) eqn:E.
    + split; [discriminate|]. intros H. rewrite (H b0) in E; [discriminate|apply list_elem_of_here].
    + rewrite IH. split.
      * intros H b [->|Hb]%elem_of_cons; auto.
      * intros H b Hb. apply H. now apply list_elem_of_further.
Qed.

(** C8, as the code has it.  For a name that no backend of the registry
    matches under [sysfs_streq] (being no entry of the registry is not
    enough: an entry followed by a newline matches it),
    [zcomp_create] returns [ERR_PTR(-EINVAL)], which is not the
    [ERR_PTR(-ENOMEM)] of an allocation failure, whatever [max_strm] is;
    it has made no allocation request and memory is untouched. *)
Theorem zcomp_create_unsupported compress max w :
  (forall b, b ∈ backends -> sysfs_streq compress b = false) ->
  find_backend compress = None /\
  zcomp_available_algorithm compress = false /\
  zcomp_create compress max w = Some (inl EINVAL, w) /\
  EINVAL <> ENOMEM.
Proof.
  intros H. apply find_backend_from_None in H. fold (find_backend compress) in H.
  split; [exact H|]. split; [|split; [|discriminate]].
  - unfold zcomp_available_algorithm. rewrite H. apply bool_decide_false. now intros [? ?].
  - unfold zcomp_create. now rewrite H.
Qed.

(** C5. For a name the registry accepts, [zcomp_create] picks the
    backend by [max_strm]: the single-stream one when [max_strm <= 1],
    the multi-stream one when [max_strm > 1].  It succeeds exactly when
    its five allocation requests are granted.  The compressor it returns
    carries the operations of the chosen backend and the registry's name;
    a multi-stream pool starts with [max_strm] as given, [avail_strm = 1]
    and exactly one stream, which is live and on the idle list (a
    single-stream pool with its one stream and its mutex free), and
    nothing else in memory has changed.  When it fails, and so whenever
    the seed stream cannot be allocated, it returns [ERR_PTR(-ENOMEM)]
    and memory is what it was before the call. *)
Theorem zcomp_create_strategy compress backend max w :
  find_backend compress = Some backend ->
  exists r w',
    zcomp_create compress max w = Some (r, w') /\
    is_handle r = granted5 (nreq w) /\
    match r with
    | inr comp =>
        exists c zs z t b blk,
          slab (hp w) !! comp = None /\ slab (hp w) !! zs = None /\
          slab (hp w) !! z = None /\ crypto (hp w) !! t = None /\
          pages (hp w) !! b = None /\
          slab (hp w') !! comp = Some (KComp c) /\
          name c = Some backend /\ stream c = Some zs /\
          (1 < max -> multi_ops c /\
                      slab (hp w') !! zs = Some (KMulti (Zmulti max 1 [z]))) /\
          (max <= 1 -> single_ops c /\
                       slab (hp w') !! zs = Some (KSingle (Zsingle false (Some z)))) /\
          strm_live (hp w') backend z t b blk /\
          hp w' = created_heap (hp w) backend max comp zs z t b blk
    | inl e => e = ENOMEM /\ hp w' = hp w
    end.
Proof.
  intros Hf.
  destruct (zcomp_create_eq compress backend max w Hf) as (r & w' & Hr & Hg & Hres).
  exists r, w'. split; [exact Hr|]. split; [exact Hg|].
  destruct r as [e|comp]; [exact Hres|].
  destruct Hres as (zs & z & t & b & Fc & Fzs & Fz & N1 & N2 & N3 & Ft & Fb & _ & Eh).
  exists (created_zcomp backend zs max), zs, z, t, b,
    (Pages 1 (fresh_page_data (Z.lor GFP_KERNEL __GFP_ZERO) 1)).
  split; [exact Fc|]. split; [exact Fzs|]. split; [exact Fz|].
  split; [exact Ft|]. split; [exact Fb|].
  rewrite Eh. unfold created_heap at 1 2 3 4. unfold with_strm. simpl.
  split; [rewrite !lookup_insert_ne by congruence; apply lookup_insert_eq|].
  split; [unfold created_zcomp; now destruct (max >? 1)|].
  split; [unfold created_zcomp; now destruct (max >? 1)|].
  split; [|split; [|split; [|reflexivity]]].
  - intros Hm. unfold created_zcomp, created_pool.
    destruct (Z.gtb_spec max 1); [|lia].
    split; [repeat split|]. rewrite lookup_insert_ne by congruence. apply lookup_insert_eq.
  - intros Hm. unfold created_zcomp, created_pool.
    destruct (Z.gtb_spec max 1); [lia|].
    split; [repeat split|]. rewrite lookup_insert_ne by congruence. apply lookup_insert_eq.
  - split; [apply lookup_insert_eq|]. split; [apply lookup_insert_eq|].
    split; [apply lookup_insert_eq|]. split; [reflexivity|]. simpl.
    rewrite fresh_page_data_length. apply page_bytes_1.
Qed.

(** * The multi-stream pool *)

Lemma owned_unique ts :
  NoDup (owned ts) ->
  forall t1 t2 p1 p2 z,
    ts !! t1 = Some p1 -> ts !! t2 = Some p2 ->
    owns p1 = Some z -> owns p2 = Some z -> t1 = t2.
Proof.
  induction ts as [|p ts IH]; intros Hnd t1 t2 p1 p2 z H1 H2 O1 O2.
  - discriminate.
  - assert (Htail : NoDup (owned ts)).
    { unfold owned in *. simpl in Hnd. destruct (owns p); [|exact Hnd].
      now apply NoDup_cons in Hnd as (_ & ?). }
    assert (Hhead : forall t' p', owns p = Some z -> ts !! t' = Some p' -> owns p' <> Some z).
    { intros t' p' Op Ht' Op'. unfold owned in Hnd. simpl in Hnd. rewrite Op in Hnd.
      apply NoDup_cons in Hnd as (Hnot & _). apply Hnot. apply owned_elem. eauto. }
    destruct t1 as [|t1], t2 as [|t2]; simpl in H1, H2.
    + reflexivity.
    + injection H1 as ->. exfalso. now apply (Hhead t2 p2 O1 H2).
    + injection H2 as ->. exfalso. now apply (Hhead t1 p1 O2 H1).
    + f_equal. now apply (IH Htail t1 t2 p1 p2 z).
Qed.

(** What the invariant says of a stream a thread has in hand. *)
Lemma inv_owner alg comp s c zs m t p z :
  pool_inv alg comp s c zs m ->
  thr s !! t = Some p -> owns p = Some z ->
  (exists tf b blk, strm_live (hp (wd s)) alg z tf b blk) /\
  (z ∉ idle_strm m) /\
  (forall t' q, thr s !! t' = Some q -> owns q = Some z -> t' = t).
Proof.
  intros Inv Ht Ho. destruct (inv_strms _ _ _ _ _ _ Inv) as (Hnd & Hlive & _).
  assert (Hin : z ∈ owned (thr s)) by (apply owned_elem; eauto).
  apply NoDup_app in Hnd as (_ & Hdisj & Hown).
  split; [apply Hlive; apply elem_of_app; now right|]. split.
  - intros Hidle. now apply (Hdisj z Hidle).
  - intros t' q Ht' Hq. now apply (owned_unique _ Hown t' t q p z).
Qed.

Lemma inv_idle alg comp s c zs m :
  pool_inv alg comp s c zs m ->
  NoDup (idle_strm m) /\
  forall z, z ∈ idle_strm m -> exists tf b blk, strm_live (hp (wd s)) alg z tf b blk.
Proof.
  intros Inv. destruct (inv_strms _ _ _ _ _ _ Inv) as (Hnd & Hlive & _).
  apply NoDup_app in Hnd as (Hidle & _). split; [exact Hidle|].
  intros z Hz. apply Hlive. apply elem_of_app. now left.
Qed.

Lemma insert_inj (ts : list pc) t p q r :
  ts !! t = Some r -> <[t:=p]> ts = <[t:=q]> ts -> p = q.
Proof.
  intros Ht E. apply lookup_lt_Some in Ht.
  assert (H : <[t:=p]> ts !! t = <[t:=q]> ts !! t) by now rewrite E.
  rewrite !list_lookup_insert_eq in H by exact Ht. now injection H.
Qed.

Lemma tick_find_fn comp s t p q w' :
  thr s !! t = Some p ->
  p = Find_top \/ p = Find_wait \/ p = Find_alloc \/ p = Find_undo ->
  step comp (Tick t) s = Some (Sys w' (<[t:=q]> (thr s))) ->
  zcomp_strm_multi_find comp p (wd s) = Some (q, w').
Proof.
  intros Ht Hp H. unfold step in H. rewrite Ht in H.
  assert (Hm : moved t s (zcomp_strm_multi_find comp p (wd s))
               = Some (Sys w' (<[t:=q]> (thr s))))
    by (destruct Hp as [->|[->|[->| ->]]]; exact H).
  unfold moved in Hm. destruct (zcomp_strm_multi_find comp p (wd s)) as [[q0 w0]|];
    [|discriminate].
  injection Hm as -> E. now rewrite (insert_inj _ _ _ _ _ Ht E).
Qed.

(** A sleeper stays asleep until a [wake_up] sends it back to its test. *)
Lemma sleeper_step comp s t l s' :
  thr s !! t = Some Find_sleep ->
  step comp l s = Some s' ->
  thr s' !! t = Some Find_sleep \/ thr s' !! t = Some Find_wait.
Proof.
  intros Ht H.
  assert (Hins : forall w t' q, t' <> t ->
            thr (Sys w (<[t':=q]> (thr s))) !! t = Some Find_sleep)
    by (intros w t' q Hne; simpl; now rewrite list_lookup_insert_ne).
  assert (Hmoved : forall t' r, t' <> t -> moved t' s r = Some s' ->
            thr s' !! t = Some Find_sleep).
  { intros t' r Hne Hr. unfold moved in Hr. destruct r as [[q w]|]; [|discriminate].
    injection Hr as <-. now apply Hins. }
  destruct l as [t'|t'|n|t']; unfold step in H.
  - destruct (decide (t' = t)) as [->|Hne]; [rewrite Ht in H; discriminate|].
    destruct (thr s !! t') as [[]|]; try discriminate.
    destruct (zcomp_stream_get comp (wd s)) as [[[q|] w]|]; try discriminate.
    injection H as <-. left. now apply Hins.
  - destruct (decide (t' = t)) as [->|Hne]; [rewrite Ht in H; discriminate|].
    destruct (thr s !! t') as [[]|]; try discriminate. left. eauto.
  - destruct (bool_decide (is_int n)); [|discriminate].
    destruct (zcomp_set_max_streams comp n (wd s)) as [[? w]|]; [|discriminate].
    injection H as <-. now left.
  - destruct (decide (t' = t)) as [->|Hne]; [rewrite Ht in H; discriminate|].
    destruct (thr s !! t') as [[]|]; try discriminate; try (left; eauto; fail).
    injection H as <-. simpl. rewrite list_lookup_insert_ne by exact Hne.
    rewrite wake_up_lookup, Ht. now right.
Qed.

Lemma pool_of_inv alg comp s c zs m m0 :
  pool_inv alg comp s c zs m -> pool_of comp (wd s) = Some m0 -> m0 = m.
Proof. intros Inv H. rewrite (inv_pool_of _ _ _ _ _ _ Inv) in H. now injection H. Qed.

Lemma tick_release_fn comp s t p q w' :
  thr s !! t = Some p ->
  (exists z, p = Rel_top z \/ p = Rel_free z) ->
  step comp (Tick t) s = Some (Sys w' (<[t:=q]> (thr s))) ->
  zcomp_strm_multi_release comp p (wd s) = Some (q, w').
Proof.
  intros Ht Hp H. unfold step in H. rewrite Ht in H.
  assert (Hm : moved t s (zcomp_strm_multi_release comp p (wd s))
               = Some (Sys w' (<[t:=q]> (thr s))))
    by (destruct Hp as (z & [->| ->]); exact H).
  unfold moved in Hm. destruct (zcomp_strm_multi_release comp p (wd s)) as [[q0 w0]|];
    [|discriminate].
  injection Hm as -> E. now rewrite (insert_inj _ _ _ _ _ Ht E).
Qed.

(** A thread that has just been given [z] is its only owner, and [z] is
    live and off the idle list. *)
Lemma holding_exclusive alg comp s c zs m' w' t z p :
  thr s !! t = Some p ->
  pool_inv alg comp (Sys w' (<[t:=Holding z]> (thr s))) c zs m' ->
  exists tf b blk,
    strm_live (hp w') alg z tf b blk /\
    (z ∉ idle_strm m') /\
    forall t' r, t' <> t -> thr s !! t' = Some r -> owns r <> Some z.
Proof.
  intros Ht Inv'. pose proof (lookup_lt_Some _ _ _ Ht) as Hlt.
  destruct (inv_owner _ _ _ _ _ _ t (Holding z) z Inv') as ((tf & b & blk & L) & Hidle & Huniq).
  { simpl. now apply list_lookup_insert_eq. }
  { reflexivity. }
  exists tf, b, blk. split; [exact L|]. split; [exact Hidle|].
  intros t' r Hne Hr Ho. apply Hne. apply (Huniq t' r); [|exact Ho].
  simpl. now rewrite list_lookup_insert_ne by congruence.
Qed.

(** C1. In a pool made by [zcomp_create], [zcomp_strm_multi_find] never
    faults and never returns a failure.  Each of its sections runs to the
    next program point of the function; the only point outside the
    function it reaches is [Holding z], with [z] a live stream that is
    off the idle list and in no other thread's hands.  When the
    allocation of line 128 fails, memory is as before and the thread goes
    on to line 131, where it gives the reserved slot back ([avail_strm]
    goes down by one, under the lock) and then waits: [wait_event] lets
    it through to the top of the loop only when the idle list is not
    empty, and otherwise it sleeps, runs nothing, and the only thing any
    step can do to it is to send it back to the test. *)
Theorem zcomp_strm_multi_find_never_fails comp s t p :
  multi_reachable comp s ->
  thr s !! t = Some p ->
  exists alg m,
    pool_of comp (wd s) = Some m /\
    match p with
    | Find_top | Find_wait | Find_alloc | Find_undo =>
        exists q w' m',
          zcomp_strm_multi_find comp p (wd s) = Some (q, w') /\
          step comp (Tick t) s = Some (Sys w' (<[t:=q]> (thr s))) /\
          pool_of comp w' = Some m' /\
          find_section p m (hp (wd s)) q m' (hp w') /\
          (in_find q = true \/
           exists z tf b blk,
             q = Holding z /\ strm_live (hp w') alg z tf b blk /\
             (z ∉ idle_strm m') /\
             forall t' r, t' <> t -> thr s !! t' = Some r -> owns r <> Some z)
    | Find_sleep =>
        step comp (Tick t) s = None /\
        forall l s', step comp l s = Some s' ->
                     thr s' !! t = Some Find_sleep \/ thr s' !! t = Some Find_wait
    | _ => True
    end.
Proof.
  intros Hreach Ht.
  destruct (reachable_pool_inv _ _ Hreach) as (alg & c & zs & m & Inv).
  exists alg, m. split; [now apply inv_pool_of with (1 := Inv)|].
  destruct p; try exact I.
  - (* line 103 *)
    destruct (idle_strm m) as [|z rest] eqn:Hidle.
    + destruct (decide (max_strm m <= avail_strm m)) as [Hfull|Hroom].
      * destruct (find_top_full _ _ _ _ _ _ Inv t Ht Hidle Hfull) as (Hs & Inv').
        exists Find_wait, (wd s), m.
        split; [apply (tick_find_fn _ _ _ _ _ _ Ht); auto|].
        split; [exact Hs|]. split; [now apply inv_pool_of with (1 := Inv)|].
        split; [|now left]. unfold find_section. rewrite Hidle.
        rewrite decide_True by exact Hfull. auto.
      * destruct (find_top_grow _ _ _ _ _ _ Inv t Ht Hidle ltac:(lia)) as (Hs & Inv').
        eexists Find_alloc, _, _.
        split; [apply (tick_find_fn _ _ _ _ _ _ Ht); [auto|exact Hs]|].
        split; [exact Hs|]. split; [now apply inv_pool_of with (1 := Inv')|].
        split; [|now left]. unfold find_section. rewrite Hidle.
        rewrite decide_False by exact Hroom. auto.
    + destruct (find_top_pop _ _ _ _ _ _ Inv t z rest Ht Hidle) as (Hs & Inv').
      eexists (Holding z), _, _.
      split; [apply (tick_find_fn _ _ _ _ _ _ Ht); [auto|exact Hs]|].
      split; [exact Hs|]. split; [now apply inv_pool_of with (1 := Inv')|].
      split; [unfold find_section; rewrite Hidle; auto|]. right.
      destruct (holding_exclusive _ _ _ _ _ _ _ _ _ _ Ht Inv') as (tf & b & blk & ?).
      exists z, tf, b, blk. auto.
  - (* wait_event *)
    destruct (find_wait_inv _ _ _ _ _ _ Inv t Ht) as (Hs & Inv').
    eexists _, (wd s), m.
    split; [apply (tick_find_fn _ _ _ _ _ _ Ht); [auto|exact Hs]|].
    split; [exact Hs|]. split; [now apply inv_pool_of with (1 := Inv)|].
    split; [unfold find_section; auto|]. left. now destruct (idle_strm m).
  - (* asleep *)
    split; [unfold step; now rewrite Ht|].
    intros l s'. now apply sleeper_step.
  - (* line 128 *)
    destruct (find_alloc_inv _ _ _ _ _ _ Inv t Ht) as (r & w' & Ha & Hs & Inv' & Hr).
    eexists _, w', m.
    split; [apply (tick_find_fn _ _ _ _ _ _ Ht); [auto|exact Hs]|].
    split; [exact Hs|]. split; [now apply inv_pool_of with (1 := Inv')|].
    destruct r as [z|].
    + split; [unfold find_section; eauto|]. right.
      destruct (holding_exclusive _ _ _ _ _ _ _ _ _ _ Ht Inv') as (tf & b & blk & ?).
      exists z, tf, b, blk. auto.
    + split; [unfold find_section; auto|]. now left.
  - (* line 131 *)
    destruct (find_undo_inv _ _ _ _ _ _ Inv t Ht) as (Hs & Inv' & Hone).
    eexists Find_wait, _, _.
    split; [apply (tick_find_fn _ _ _ _ _ _ Ht); [auto|exact Hs]|].
    split; [exact Hs|]. split; [now apply inv_pool_of with (1 := Inv')|].
    split; [unfold find_section; auto|]. now left.
Qed.

(** C3. [zcomp_strm_multi_release] decides by comparing [avail_strm]
    with the [max_strm] it reads under the lock, and by nothing else.
    When [avail_strm <= max_strm] the stream is put at the head of the
    idle list, [avail_strm] keeps its value, and the [wake_up] that
    follows leaves no thread asleep on the wait queue.  Otherwise
    [avail_strm] goes down by one, the idle list is left as it is, and
    the stream, its transform and its buffer are freed.  No other stream
    is touched in either case. *)
Theorem zcomp_strm_multi_release_decides comp s t p :
  multi_reachable comp s ->
  thr s !! t = Some p ->
  exists alg m,
    pool_of comp (wd s) = Some m /\
    match p with
    | Rel_top z =>
        exists q w' m',
          zcomp_strm_multi_release comp p (wd s) = Some (q, w') /\
          step comp (Tick t) s = Some (Sys w' (<[t:=q]> (thr s))) /\
          pool_of comp w' = Some m' /\
          crypto (hp w') = crypto (hp (wd s)) /\
          pages (hp w') = pages (hp (wd s)) /\
          (forall a st, slab (hp (wd s)) !! a = Some (KStrm st) ->
                        slab (hp w') !! a = Some (KStrm st)) /\
          if decide (avail_strm m <= max_strm m)
          then q = Rel_wake /\
               m' = Zmulti (max_strm m) (avail_strm m) (z :: idle_strm m)
          else q = Rel_free z /\
               m' = Zmulti (max_strm m) (avail_strm m - 1) (idle_strm m)
    | Rel_wake =>
        exists s',
          step comp (Tick t) s = Some s' /\
          wd s' = wd s /\
          thr s' !! t = Some Out /\
          (forall t', thr s' !! t' <> Some Find_sleep) /\
          (forall t', t' <> t -> thr s' !! t' = wake_one <$> thr s !! t')
    | Rel_free z =>
        exists tf b blk w',
          strm_live (hp (wd s)) alg z tf b blk /\
          zcomp_strm_multi_release comp p (wd s) = Some (Out, w') /\
          step comp (Tick t) s = Some (Sys w' (<[t:=Out]> (thr s))) /\
          hp w' = without_strm (hp (wd s)) z tf b /\
          pool_of comp w' = Some m
    | _ => True
    end.
Proof.
  intros Hreach Ht.
  destruct (reachable_pool_inv _ _ Hreach) as (alg & c & zs & m & Inv).
  exists alg, m. split; [now apply inv_pool_of with (1 := Inv)|].
  pose proof (inv_pool _ _ _ _ _ _ Inv) as Hpool.
  assert (Hframe : forall m' a st,
             slab (hp (wd s)) !! a = Some (KStrm st) ->
             slab (hp (put_pool zs m' (wd s))) !! a = Some (KStrm st)).
  { intros m' a st Ha. simpl. rewrite lookup_insert_ne; [exact Ha|]. congruence. }
  destruct p as [| | | | | | |z| |z]; try exact I.
  - destruct (decide (avail_strm m <= max_strm m)) as [Hle|Hgt].
    + destruct (rel_top_idle _ _ _ _ _ _ Inv t z Ht Hle) as (Hs & Inv').
      eexists Rel_wake, _, _.
      split; [apply (tick_release_fn _ _ _ _ _ _ Ht); [eauto|exact Hs]|].
      split; [exact Hs|]. split; [now apply inv_pool_of with (1 := Inv')|].
      split; [reflexivity|]. split; [reflexivity|]. split; [apply Hframe|]. auto.
    + destruct (rel_top_over _ _ _ _ _ _ Inv t z Ht ltac:(lia)) as (Hs & Inv' & _).
      eexists (Rel_free z), _, _.
      split; [apply (tick_release_fn _ _ _ _ _ _ Ht); [eauto|exact Hs]|].
      split; [exact Hs|]. split; [now apply inv_pool_of with (1 := Inv')|].
      split; [reflexivity|]. split; [reflexivity|]. split; [apply Hframe|]. auto.
  - destruct (rel_wake_inv _ _ _ _ _ _ Inv t Ht) as (Hs & Inv').
    pose proof (lookup_lt_Some _ _ _ Ht) as Hlt.
    eexists. split; [exact Hs|]. simpl. split; [reflexivity|].
    split; [apply list_lookup_insert_eq; unfold wake_up; now rewrite length_fmap|].
    split.
    + intros t'. destruct (decide (t = t')) as [<-|Hne].
      * rewrite list_lookup_insert_eq; [discriminate|].
        unfold wake_up. now rewrite length_fmap.
      * rewrite list_lookup_insert_ne by exact Hne. apply no_sleeper_after_wake_up.
    + intros t' Hne. rewrite list_lookup_insert_ne by congruence. apply wake_up_lookup.
  - destruct (rel_free_inv _ _ _ _ _ _ Inv t z Ht) as (tf & b & blk & L & Hs & Inv').
    exists tf, b, blk. eexists. split; [exact L|].
    split; [apply (tick_release_fn _ _ _ _ _ _ Ht); [eauto|exact Hs]|].
    split; [exact Hs|]. split; [reflexivity|].
    now apply inv_pool_of with (1 := Inv').
Qed.

(** C4, as the code has it.  In every state the scheduler can reach from
    a pool made by [zcomp_create]: [avail_strm] counts the idle streams
    and the slots threads hold or have reserved; [avail_strm <= max_strm]
    unless the idle list is empty (a pool shrunk below the number of
    streams in use stays above its limit until they are released); the
    idle list has no stream twice and holds live streams only; and a
    stream a thread has in hand is live, off the idle list and in no
    other thread's hands. *)
Theorem pool_invariant comp s m :
  multi_reachable comp s ->
  pool_of comp (wd s) = Some m ->
  avail_strm m = Z.of_nat (length (idle_strm m)) + slots (thr s) /\
  (avail_strm m <= max_strm m \/ idle_strm m = []) /\
  NoDup (idle_strm m) /\
  exists alg,
    (forall z, z ∈ idle_strm m ->
               exists tf b blk, strm_live (hp (wd s)) alg z tf b blk) /\
    (forall t p z, thr s !! t = Some p -> owns p = Some z ->
       (exists tf b blk, strm_live (hp (wd s)) alg z tf b blk) /\
       (z ∉ idle_strm m) /\
       (forall t' q, thr s !! t' = Some q -> owns q = Some z -> t' = t)).
Proof.
  intros Hreach Hm.
  destruct (reachable_pool_inv _ _ Hreach) as (alg & c & zs & m0 & Inv).
  rewrite (pool_of_inv _ _ _ _ _ _ _ Inv Hm).
  split; [exact (inv_count _ _ _ _ _ _ Inv)|].
  split; [exact (inv_room _ _ _ _ _ _ Inv)|].
  destruct (inv_idle _ _ _ _ _ _ Inv) as (Hnd & Hlive).
  split; [exact Hnd|]. exists alg. split; [exact Hlive|].
  intros t p z Ht Ho. now apply (inv_owner _ _ _ _ _ _ t p z Inv).
Qed.

(** * Changing the limit *)

(** C7. [zcomp_set_max_streams] goes through the compressor's
    [set_max_streams] pointer.  On a multi-stream pool it returns [true]
    and [max_strm] is the number it was given.  On a single-stream
    compressor, which is what [zcomp_create] makes for [max_strm <= 1],
    it returns [false] whatever the number is, and nothing in memory
    changes. *)
Theorem zcomp_set_max_streams_by_backend :
  (forall comp s n,
      multi_reachable comp s -> is_int n ->
      exists w' m',
        zcomp_set_max_streams comp n (wd s) = Some (true, w') /\
        pool_of comp w' = Some m' /\ max_strm m' = n) /\
  (forall comp c w n,
      slab (hp w) !! comp = Some (KComp c) -> single_ops c ->
      zcomp_set_max_streams comp n w = Some (false, w)) /\
  (forall compress max w comp w' n,
      max <= 1 ->
      zcomp_create compress max w = Some (inr comp, w') ->
      zcomp_set_max_streams comp n w' = Some (false, w')).
Proof.
  assert (Hsingle : forall comp c w n,
             slab (hp w) !! comp = Some (KComp c) -> single_ops c ->
             zcomp_set_max_streams comp n w = Some (false, w)).
  { intros comp c w n Hc (_ & _ & Hs & _). unfold zcomp_set_max_streams.
    now rewrite (bind_Some _ _ _ _ _ (load_comp_Some _ _ _ Hc)), Hs. }
  split; [|split; [exact Hsingle|]].
  - intros comp s n Hreach Hn.
    destruct (reachable_pool_inv _ _ Hreach) as (alg & c & zs & m & Inv).
    destruct (set_max_inv _ _ _ _ _ _ Inv n Hn) as (w' & Hcall & _ & Inv' & _).
    eexists _, _. split; [exact Hcall|].
    split; [now apply inv_pool_of with (1 := Inv')|reflexivity].
  - intros compress max w comp w' n Hmax H.
    apply zcomp_create_handle in H
      as (backend & zs & z & t & b & _ & _ & _ & _ & N1 & N2 & N3 & _ & _ & Eh).
    apply (Hsingle comp (created_zcomp backend zs max)).
    + rewrite Eh. unfold created_heap, with_strm. simpl.
      rewrite !lookup_insert_ne by congruence. apply lookup_insert_eq.
    + unfold created_zcomp. destruct (Z.gtb_spec max 1); [lia|]. repeat split.
Qed.

(** *** Releasing every stream that is in use *)

Lemma run_cons comp l ls s s1 :
  step comp l s = Some s1 -> run comp (l :: ls) s = run comp ls s1.
Proof. intros H. simpl. now rewrite H. Qed.

Lemma run_app comp l1 l2 s :
  run comp (l1 ++ l2) s =
  match run comp l1 s with
  | Some s1 => run comp l2 s1
  | None => None
  end.
Proof.
  revert s. induction l1 as [|l l1 IH]; intros s; simpl; [reflexivity|].
  destruct (step comp l s); [apply IH|reflexivity].
Qed.

Lemma settled_lookup ts t p : settled ts = true -> ts !! t = Some p -> quiet p = true.
Proof.
  unfold settled. rewrite forallb_forall. intros H Ht. apply H.
  apply list_elem_of_In, list_elem_of_lookup. eauto.
Qed.

Lemma settled_insert ts t q :
  settled ts = true -> quiet q = true -> settled (<[t:=q]> ts) = true.
Proof.
  unfold settled. rewrite !forallb_forall. intros H Hq p Hp.
  apply list_elem_of_In, list_elem_of_lookup in Hp as (t' & Ht').
  rewrite list_lookup_insert in Ht'. case_decide.
  - now injection Ht' as <-.
  - apply H. apply list_elem_of_In, list_elem_of_lookup. eauto.
Qed.

Lemma wake_up_settled ts : settled ts = true -> wake_up ts = ts.
Proof.
  unfold settled, wake_up. induction ts as [|p ts IH]; [reflexivity|].
  simpl forallb. intros [Hp Hts]%andb_prop. csimpl.
  f_equal; [now destruct p|now apply IH].
Qed.

Lemma holders_from_elem ts : forall i t,
  t ∈ holders_from i ts <-> exists j z, t = (i + j)%nat /\ ts !! j = Some (Holding z).
Proof.
  induction ts as [|p ts IH]; intros i t; simpl.
  - split; [intros H; now apply elem_of_nil in H|]. intros (j & z & _ & H). discriminate.
  - assert (Htail : t ∈ holders_from (S i) ts <->
                    exists j z, t = (i + S j)%nat /\ ts !! j = Some (Holding z)).
    { rewrite IH. split; intros (j & z & -> & H); exists j, z; split; auto; lia. }
    assert (Hshift : (exists j z, t = (i + j)%nat /\ (p :: ts) !! j = Some (Holding z)) <->
                     (exists z, t = i /\ p = Holding z) \/
                     (exists j z, t = (i + S j)%nat /\ ts !! j = Some (Holding z))).
    { split.
      - intros (j & z & -> & H). destruct j as [|j]; simpl in H.
        + left. exists z. split; [lia|congruence].
        + right. eauto.
      - intros [(z & -> & ->)|(j & z & -> & H)].
        + exists 0%nat, z. split; [lia|reflexivity].
        + exists (S j), z. auto. }
    rewrite Hshift, <- Htail.
    destruct p; try (split; [now right|]; intros [(z & _ & ?)|?]; [discriminate|assumption]).
    rewrite elem_of_cons. split.
    + intros [->|H]; [left; eauto|now right].
    + intros [(z & -> & _)|H]; [now left|now right].
Qed.

Lemma holders_from_NoDup ts : forall i, NoDup (holders_from i ts).
Proof.
  induction ts as [|p ts IH]; intros i; simpl; [constructor|].
  destruct p; try apply IH. apply NoDup_cons. split; [|apply IH].
  rewrite holders_from_elem. intros (j & z & E & _). lia.
Qed.

Lemma slots_settled ts : forall i,
  settled ts = true -> slots ts = Z.of_nat (length (holders_from i ts)).
Proof.
  unfold settled. induction ts as [|p ts IH]; intros i; simpl; [reflexivity|].
  intros [Hp Hts]%andb_prop. destruct p; try discriminate; simpl.
  - now apply IH.
  - rewrite (IH (S i) Hts). lia.
Qed.

Lemma slots_all_Out ts : Forall (fun p => p = Out) ts -> slots ts = 0.
Proof. induction 1 as [|p ts -> _ IH]; simpl; [reflexivity|exact IH]. Qed.

(** One thread gives its stream back, with nobody else running. *)
Lemma release_one alg comp s c zs m t z :
  pool_inv alg comp s c zs m ->
  settled (thr s) = true ->
  thr s !! t = Some (Holding z) ->
  exists s' m',
    run comp [Call_put t; Tick t; Tick t] s = Some s' /\
    pool_inv alg comp s' c zs m' /\
    thr s' = <[t:=Out]> (thr s) /\
    max_strm m' = max_strm m /\
    avail_strm m' = (if decide (avail_strm m <= max_strm m)
                     then avail_strm m else avail_strm m - 1).
Proof.
  intros Inv Hset Ht. pose proof (lookup_lt_Some _ _ _ Ht) as Hlt.
  destruct (call_put_inv _ _ _ _ _ _ Inv t z Ht) as (Hs1 & Inv1).
  set (s1 := Sys (wd s) (<[t:=Rel_top z]> (thr s))) in *.
  assert (Ht1 : thr s1 !! t = Some (Rel_top z)) by (simpl; now apply list_lookup_insert_eq).
  rewrite (run_cons _ _ _ _ _ Hs1).
  destruct (decide (avail_strm m <= max_strm m)) as [Hle|Hgt].
  - destruct (rel_top_idle _ _ _ _ _ _ Inv1 t z Ht1 Hle) as (Hs2 & Inv2).
    rewrite (run_cons _ _ _ _ _ Hs2).
    match type of Inv2 with pool_inv _ _ ?x _ _ _ => set (s2 := x) in * end.
    assert (Ht2 : thr s2 !! t = Some Rel_wake).
    { simpl. apply list_lookup_insert_eq. now rewrite length_insert. }
    destruct (rel_wake_inv _ _ _ _ _ _ Inv2 t Ht2) as (Hs3 & Inv3).
    rewrite (run_cons _ _ _ _ _ Hs3). eexists _, _.
    split; [reflexivity|]. split; [exact Inv3|].
    split; [|split; reflexivity]. simpl.
    rewrite list_insert_insert_eq. unfold wake_up. rewrite list_fmap_insert.
    fold (wake_up (thr s)). rewrite (wake_up_settled _ Hset).
    now rewrite list_insert_insert_eq.
  - destruct (rel_top_over _ _ _ _ _ _ Inv1 t z Ht1 ltac:(lia)) as (Hs2 & Inv2 & _).
    rewrite (run_cons _ _ _ _ _ Hs2).
    match type of Inv2 with pool_inv _ _ ?x _ _ _ => set (s2 := x) in * end.
    assert (Ht2 : thr s2 !! t = Some (Rel_free z)).
    { simpl. apply list_lookup_insert_eq. now rewrite length_insert. }
    destruct (rel_free_inv _ _ _ _ _ _ Inv2 t z Ht2) as (tf & b & blk & _ & Hs3 & Inv3).
    rewrite (run_cons _ _ _ _ _ Hs3). eexists _, _.
    split; [reflexivity|]. split; [exact Inv3|].
    split; [|split; reflexivity]. simpl.
    now rewrite !list_insert_insert_eq.
Qed.

Lemma release_all_eq alg comp c zs order :
  forall s m,
    pool_inv alg comp s c zs m ->
    settled (thr s) = true ->
    NoDup order ->
    (forall t, t ∈ order -> exists z, thr s !! t = Some (Holding z)) ->
    exists s' m',
      run comp (release_all order) s = Some s' /\
      pool_inv alg comp s' c zs m' /\
      settled (thr s') = true /\
      (forall t, thr s' !! t =
                 (fun p => if decide (t ∈ order) then Out else p) <$> thr s !! t) /\
      max_strm m' = max_strm m /\
      avail_strm m' = (if decide (avail_strm m <= max_strm m)
                       then avail_strm m
                       else Z.max (max_strm m) (avail_strm m - Z.of_nat (length order))).
Proof.
  induction order as [|t order IH]; intros s m Inv Hset Hnd Hhold.
  - exists s, m. simpl. split; [reflexivity|]. split; [exact Inv|]. split; [exact Hset|].
    split; [|split; [reflexivity|]].
    + intros t. destruct (thr s !! t) as [p|]; [|reflexivity]. simpl.
      destruct (decide (t ∈ [])) as [H|_]; [now apply elem_of_nil in H|reflexivity].
    + destruct (decide (avail_strm m <= max_strm m)); lia.
  - apply NoDup_cons in Hnd as (Hnotin & Hnd).
    destruct (Hhold t (list_elem_of_here _ _)) as (z & Ht).
    destruct (release_one _ _ _ _ _ _ _ _ Inv Hset Ht) as (s1 & m1 & Hr1 & Inv1 & Ht1 & Hmax1 & Hav1).
    assert (Hset1 : settled (thr s1) = true) by (rewrite Ht1; now apply settled_insert).
    assert (Hhold1 : forall t', t' ∈ order -> exists z', thr s1 !! t' = Some (Holding z')).
    { intros t' Ht'. destruct (Hhold t' (list_elem_of_further _ _ _ Ht')) as (z' & Hz').
      exists z'. rewrite Ht1, list_lookup_insert_ne; [exact Hz'|]. now intros ->. }
    destruct (IH s1 m1 Inv1 Hset1 Hnd Hhold1) as (s' & m' & Hr & Inv' & Hset' & Hthr & Hmax & Hav).
    exists s', m'. split.
    { change (release_all (t :: order))
        with ([Call_put t; Tick t; Tick t] ++ release_all order).
      now rewrite run_app, Hr1. }
    split; [exact Inv'|]. split; [exact Hset'|]. split; [|split; [congruence|]].
    + intros t'. rewrite Hthr, Ht1. rewrite list_lookup_insert.
      pose proof (lookup_lt_Some _ _ _ Ht) as Hlt.
      destruct (decide (t = t')) as [<-|Hne].
      * rewrite decide_True by auto. rewrite Ht. simpl.
        rewrite decide_False by exact Hnotin.
        rewrite decide_True; [reflexivity|apply list_elem_of_here].
      * rewrite decide_False by (intros [? _]; contradiction).
        destruct (thr s !! t') as [p|]; simpl; [|reflexivity].
        destruct (decide (t' ∈ order)) as [Hin|Hout].
        -- rewrite decide_True; [reflexivity|now apply list_elem_of_further].
        -- rewrite decide_False; [reflexivity|].
           intros [->|?]%elem_of_cons; contradiction.
    + rewrite Hav, Hmax1, Hav1. simpl length.
      destruct (decide (avail_strm m <= max_strm m)).
      * rewrite decide_True by lia. reflexivity.
      * destruct (decide (avail_strm m - 1 <= max_strm m)); lia.
Qed.

(** C2, as the code has it.  [zcomp_set_max_streams(n)] on a
    multi-stream pool sets [max_strm] to [n] and frees idle streams from
    the head of the list while [avail_strm > n]: it frees
    [min(idle, max(0, avail_strm - n))] of them, takes as many off
    [avail_strm], and touches no thread.  So the idle count afterwards
    is [min(idle, n)] when no stream is in use or reserved and [n >= 0],
    and more generally exactly when [n >= 0] and one of these holds:
    [avail_strm <= n] (nothing is freed), no stream is in use or
    reserved, [n = 0], or no stream was idle.  If then,
    with no call in flight, every thread that holds a stream releases it
    (in any order, nobody acquiring meanwhile), each release that finds
    [avail_strm > n] frees its stream, and in the end every thread is
    outside the pool, all remaining streams are idle, and [avail_strm]
    is [min(avail_strm before, max(n, 0))]: it comes down to [n], and
    stays where it was if it was below [n] already. *)
Theorem zcomp_strm_multi_set_max_streams_shrinks comp s m n order :
  multi_reachable comp s ->
  pool_of comp (wd s) = Some m ->
  is_int n ->
  let freed := Nat.min (length (idle_strm m)) (Z.to_nat (avail_strm m - n)) in
  exists s1 m1,
    step comp (Call_set_max n) s = Some s1 /\
    pool_of comp (wd s1) = Some m1 /\
    thr s1 = thr s /\
    max_strm m1 = n /\
    idle_strm m1 = drop freed (idle_strm m) /\
    avail_strm m1 = avail_strm m - Z.of_nat freed /\
    (forall z, z ∈ take freed (idle_strm m) -> slab (hp (wd s1)) !! z = None) /\
    (slots (thr s) = 0 -> 0 <= n ->
       Z.of_nat (length (idle_strm m1)) = Z.min (Z.of_nat (length (idle_strm m))) n) /\
    (Z.of_nat (length (idle_strm m1)) = Z.min (Z.of_nat (length (idle_strm m))) n <->
     0 <= n /\
     (avail_strm m <= n \/ slots (thr s) = 0 \/ n = 0 \/ idle_strm m = [])) /\
    (settled (thr s) = true -> order ≡ₚ holders (thr s) ->
       exists s2 m2,
         run comp (release_all order) s1 = Some s2 /\
         pool_of comp (wd s2) = Some m2 /\
         Forall (fun p => p = Out) (thr s2) /\
         max_strm m2 = n /\
         avail_strm m2 = Z.min (avail_strm m) (Z.max n 0) /\
         Z.of_nat (length (idle_strm m2)) = avail_strm m2).
Proof.
  intros Hreach Hm Hn freed.
  destruct (reachable_pool_inv _ _ Hreach) as (alg & c & zs & m0 & Inv).
  assert (E : m = m0) by exact (pool_of_inv _ _ _ _ _ _ _ Inv Hm). subst m0. clear Hm.
  destruct (set_max_inv _ _ _ _ _ _ Inv n Hn) as (w' & _ & Hs & Inv1 & Hgone).
  fold freed in Hs, Inv1, Hgone.
  pose proof (inv_count _ _ _ _ _ _ Inv) as Hcnt.
  pose proof (slots_nonneg (thr s)) as Hsl.
  eexists _, _. split; [exact Hs|]. split; [now apply inv_pool_of with (1 := Inv1)|].
  split; [reflexivity|]. split; [reflexivity|]. split; [reflexivity|].
  split; [reflexivity|]. split; [exact Hgone|]. split; [|split].
  - intros H0 Hnn. simpl. rewrite length_drop. unfold freed. lia.
  - simpl. rewrite length_drop. unfold freed.
    assert (Hnil : idle_strm m = [] <-> length (idle_strm m) = 0%nat)
      by (destruct (idle_strm m); simpl; split; congruence).
    rewrite Hnil. lia.
  - intros Hset Hord.
    assert (Hnd : NoDup order) by (rewrite Hord; apply holders_from_NoDup).
    assert (Hhold : forall t, t ∈ order -> exists z, thr s !! t = Some (Holding z)).
    { intros t Ht. rewrite Hord in Ht. apply holders_from_elem in Ht as (j & z & -> & H).
      eauto. }
    destruct (release_all_eq _ _ _ _ order _ _ Inv1 Hset Hnd Hhold)
      as (s2 & m2 & Hrun & Inv2 & Hset2 & Hthr & Hmax & Hav).
    simpl in Hthr, Hmax, Hav.
    assert (Hout : Forall (fun p => p = Out) (thr s2)).
    { apply Forall_lookup. intros t p Hp. rewrite Hthr in Hp.
      destruct (thr s !! t) as [p0|] eqn:Hp0; [|discriminate]. simpl in Hp.
      injection Hp as <-. destruct (decide (t ∈ order)) as [|Hnot]; [reflexivity|].
      pose proof (settled_lookup _ _ _ Hset Hp0) as Hq.
      destruct p0; try discriminate; [reflexivity|].
      exfalso. apply Hnot. rewrite Hord. apply holders_from_elem.
      exists t. eauto. }
    assert (Hlen : Z.of_nat (length order) = slots (thr s)).
    { rewrite Hord. symmetry. now apply slots_settled. }
    pose proof (inv_count _ _ _ _ _ _ Inv2) as Hcnt2.
    rewrite (slots_all_Out _ Hout) in Hcnt2.
    exists s2, m2. split; [exact Hrun|]. split; [now apply inv_pool_of with (1 := Inv2)|].
    split; [exact Hout|]. split; [exact Hmax|]. split; [|lia].
    rewrite Hav. unfold freed in *.
    destruct (decide (avail_strm m - Z.of_nat
                (Nat.min (length (idle_strm m)) (Z.to_nat (avail_strm m - n))) <= n)); lia.
Qed.

(** * Names of algorithms *)

Lemma strcmp_unfold cs ct :
  strcmp cs ct =
  if negb (char_eq (deref cs) (deref ct))
  then (if (nat_of_ascii (deref cs) <? nat_of_ascii (deref ct))%nat then -1 else 1)
  else if is_nul (deref cs) then 0 else strcmp (advance cs) (advance ct).
Proof. destruct cs; reflexivity. Qed.

Lemma c_str_unfold s :
  c_str s = if is_nul (deref s) then EmptyString
            else String (deref s) (c_str (advance s)).
Proof. destruct s; reflexivity. Qed.

Lemma strcmp_zero a : forall b, strcmp a b = 0 <-> c_str a = c_str b.
Proof.
  induction a as [|c r IH]; intros b;
    rewrite strcmp_unfold, (c_str_unfold b); [rewrite (c_str_unfold EmptyString)
                                             |rewrite (c_str_unfold (String c r))];
    unfold char_eq, is_nul; simpl deref; simpl advance.
  - rewrite (bool_decide_true (nul = nul)) by reflexivity.
    destruct (decide (nul = deref b)) as [E|E].
    + rewrite <- E. rewrite !bool_decide_true by reflexivity. simpl. tauto.
    + rewrite !bool_decide_false by congruence. simpl.
      split; [destruct (_ <? _)%nat|]; discriminate.
  - destruct (decide (c = deref b)) as [E|E].
    + rewrite <- E. rewrite (bool_decide_true (c = c)) by reflexivity. simpl.
      destruct (decide (c = nul)) as [->|Hn].
      * rewrite !bool_decide_true by reflexivity. tauto.
      * rewrite !bool_decide_false by exact Hn.
        rewrite IH. split; [now intros ->|now intros [= ->]].
    + rewrite (bool_decide_false (c = deref b)) by exact E. simpl.
      split; [destruct (_ <? _)%nat; discriminate|].
      destruct (decide (c = nul)) as [Ec|Ec], (decide (deref b = nul)) as [Ed|Ed].
      * congruence.
      * rewrite bool_decide_true, bool_decide_false by assumption. discriminate.
      * rewrite bool_decide_false, bool_decide_true by assumption. discriminate.
      * rewrite !bool_decide_false by assumption. intros [= ? _]. contradiction.
Qed.

Lemma c_str_empty s : c_str s = EmptyString <-> deref s = nul.
Proof.
  rewrite c_str_unfold. unfold is_nul.
  destruct (decide (deref s = nul)) as [E|E].
  - rewrite (bool_decide_true _ E). tauto.
  - rewrite (bool_decide_false _ E). split; [discriminate|contradiction].
Qed.

(** What [sysfs_streq] answers once its loop has stopped, at the end of
    [s1] or at the first byte where the strings differ. *)
Lemma sysfs_streq_tails_same_line s1 s2 :
  deref s1 = nul \/ deref s1 <> deref s2 ->
  sysfs_streq_tails s1 s2 = true <-> same_line (c_str s1) (c_str s2).
Proof.
  intros Hstop. unfold sysfs_streq_tails, same_line, nl, char_eq, is_nul.
  rewrite (c_str_unfold s1), (c_str_unfold s2). unfold is_nul.
  pose proof (c_str_empty (advance s1)) as E1.
  pose proof (c_str_empty (advance s2)) as E2.
  destruct (decide (deref s1 = deref s2)) as [Eab|Nab].
  - rewrite (bool_decide_true _ Eab).
    destruct Hstop as [Ha|]; [|contradiction].
    rewrite <- Eab, Ha. rewrite !bool_decide_true by reflexivity. split; auto.
  - rewrite (bool_decide_false _ Nab).
    destruct (decide (deref s1 = nul)) as [Ha|Na].
    + rewrite (bool_decide_true _ Ha). simpl.
      assert (Nb : deref s2 <> nul) by congruence.
      rewrite (bool_decide_false _ Nb).
      assert (Hn : deref s1 <> newline) by (rewrite Ha; discriminate).
      rewrite (bool_decide_false _ Hn). simpl.
      destruct (decide (deref s2 = newline)) as [Eb|Nb'].
      * rewrite (bool_decide_true _ Eb). simpl.
        destruct (decide (deref (advance s2) = nul)) as [En|Nn].
        -- rewrite (bool_decide_true _ En). apply E2 in En. rewrite En, Eb.
           split; auto.
        -- rewrite (bool_decide_false _ Nn). split; [discriminate|].
           intros [H|[H|H]]; try discriminate.
           simpl in H. injection H as _ H. symmetry in H. apply E2 in H. contradiction.
      * rewrite (bool_decide_false _ Nb'). simpl. split; [discriminate|].
        intros [H|[H|H]]; try discriminate.
        simpl in H. injection H as H _. congruence.
    + rewrite (bool_decide_false _ Na). simpl.
      destruct (decide (deref s2 = nul)) as [Eb|Nb].
      * rewrite (bool_decide_true _ Eb).
        destruct (decide (deref s1 = newline)) as [En|Nn].
        -- rewrite (bool_decide_true _ En). simpl.
           destruct (decide (deref (advance s1) = nul)) as [Et|Nt].
           ++ rewrite (bool_decide_true _ Et). apply E1 in Et. rewrite Et, En.
              split; auto.
           ++ rewrite (bool_decide_false _ Nt). simpl. split; [discriminate|].
              intros [H|[H|H]]; try discriminate.
              simpl in H. injection H as _ H. apply E1 in H. contradiction.
        -- rewrite (bool_decide_false _ Nn). simpl. split; [discriminate|].
           intros [H|[H|H]]; try discriminate.
           simpl in H. injection H as H _. congruence.
      * rewrite (bool_decide_false _ Nb).
        assert (Hf : bool_decide (deref s1 = newline)
                     && bool_decide (deref (advance s1) = nul) && false = false)
          by (now rewrite andb_false_r).
        rewrite Hf. split; [discriminate|].
        intros [H|[H|H]]; simpl in H; injection H as H _; congruence.
Qed.

(** [sysfs_streq] holds of two strings exactly when they are equal up to
    one trailing newline. *)
Lemma sysfs_streq_same_line s1 : forall s2,
  sysfs_streq s1 s2 = true <-> same_line (c_str s1) (c_str s2).
Proof.
  induction s1 as [|c r1 IH]; intros s2.
  - apply sysfs_streq_tails_same_line. now left.
  - simpl sysfs_streq. unfold is_nul at 1, char_eq at 1.
    destruct (decide (c = nul)) as [Ec|Nc].
    + rewrite (bool_decide_true _ Ec). cbn [negb andb].
      apply sysfs_streq_tails_same_line. now left.
    + rewrite (bool_decide_false _ Nc). cbn [negb andb].
      destruct (decide (c = deref s2)) as [Ed|Nd].
      * rewrite (bool_decide_true _ Ed). rewrite IH.
        rewrite (c_str_unfold (String c r1)), (c_str_unfold s2). unfold is_nul.
        simpl deref. simpl advance. rewrite <- Ed.
        rewrite !(bool_decide_false _ Nc). unfold same_line. simpl.
        split; (intros [H|[H|H]]; [left|right; left|right; right]);
          first [now rewrite H | now rewrite <- H | now injection H].
      * rewrite (bool_decide_false _ Nd). apply sysfs_streq_tails_same_line. now right.
Qed.

Lemma substring_all (text : string) : forall n,
  (String.length text <= n)%nat -> String.substring 0 n text = text.
Proof.
  induction text as [|c r IH]; intros [|n] H; simpl in *; try reflexivity; try lia.
  f_equal. apply IH. lia.
Qed.

Lemma scnprintf_fits size text :
  Z.of_nat (String.length text) < size -> scnprintf size text = text.
Proof.
  intros H. unfold scnprintf. destruct (Z.leb_spec size 0); [lia|].
  apply substring_all. lia.
Qed.

(** C9. Availability and listing do not compare names the same way.
    [find_backend], and so [zcomp_available_algorithm] and
    [zcomp_create], go by [sysfs_streq], which holds of two strings that
    are equal up to one trailing newline and so takes a registered name
    followed by a newline for that name; [zcomp_available_show] marks a
    backend only when [strcmp] is 0, that is on an exact match of the
    bytes.  So for each registered name followed by a newline
    [zcomp_create] succeeds (when memory is granted) while the listing
    marks no backend at all, although it does mark the name itself. *)
Theorem sysfs_streq_accepts_what_strcmp_rejects :
  (16 <= PAGE_SIZE)%nat ->
  (forall s1 s2, sysfs_streq s1 s2 = true <-> same_line (c_str s1) (c_str s2)) /\
  (forall a b, strcmp a b = 0 <-> c_str a = c_str b) /\
  forall b, b ∈ backends ->
    let given := (b +:+ String newline EmptyString)%string in
    sysfs_streq given b = true /\
    find_backend given = Some b /\
    zcomp_available_algorithm given = true /\
    (forall max w, granted5 (nreq w) = true ->
       exists comp w', zcomp_create given max w = Some (inr comp, w')) /\
    (forall b', b' ∈ backends -> strcmp given b' <> 0) /\
    zcomp_available_show given = plain_listing /\
    zcomp_available_show b <> plain_listing.
Proof.
  intros Hpage. split; [intros s1 s2; apply sysfs_streq_same_line|].
  split; [intros a b; apply strcmp_zero|].
  intros b Hb given.
  assert (Hfind : find_backend given = Some b /\ sysfs_streq given b = true).
  { unfold given, find_backend, backends in *.
    destruct CONFIG_ZRAM_LZ4_COMPRESS.
    - apply elem_of_cons in Hb as [->|Hb]; [split; reflexivity|].
      apply list_elem_of_singleton in Hb as ->. split; reflexivity.
    - apply list_elem_of_singleton in Hb as ->. split; reflexivity. }
  destruct Hfind as (Hfind & Hstreq).
  split; [exact Hstreq|]. split; [exact Hfind|]. split.
  { unfold zcomp_available_algorithm. rewrite Hfind. apply bool_decide_true. eauto. }
  split.
  { intros max w Hg.
    destruct (zcomp_create_eq given b max w Hfind) as (r & w' & Hr & Hh & _).
    rewrite Hg in Hh. destruct r as [e|comp]; [discriminate|]. eauto. }
  split.
  { intros b' Hb' H0. unfold given, backends in *.
    destruct CONFIG_ZRAM_LZ4_COMPRESS.
    - apply elem_of_cons in Hb as [->|Hb]; [|apply list_elem_of_singleton in Hb as ->];
        (apply elem_of_cons in Hb' as [->|Hb'];
         [|apply list_elem_of_singleton in Hb' as ->]); discriminate.
    - apply list_elem_of_singleton in Hb as ->.
      apply list_elem_of_singleton in Hb' as ->. discriminate. }
  unfold zcomp_available_show, plain_listing, given, backends in *.
  destruct CONFIG_ZRAM_LZ4_COMPRESS.
  - apply elem_of_cons in Hb as [->|Hb]; [|apply list_elem_of_singleton in Hb as ->];
      simpl; rewrite !scnprintf_fits by (simpl; lia); simpl;
      (split; [|try discriminate]);
      rewrite ?scnprintf_fits by (simpl; lia); try reflexivity; simpl;
      rewrite ?scnprintf_fits by (simpl; lia); try reflexivity; try discriminate.
  - apply list_elem_of_singleton in Hb as ->.
    simpl; rewrite !scnprintf_fits by (simpl; lia); simpl;
      (split; [|try discriminate]);
      rewrite ?scnprintf_fits by (simpl; lia); try reflexivity; simpl;
      rewrite ?scnprintf_fits by (simpl; lia); try reflexivity; try discriminate.
Qed.

(** * Further properties *)

(** ** Allocating and freeing a stream; names *)

(** X1. [zcomp_strm_free] undoes [zcomp_strm_alloc]: freeing a stream
    that was just allocated runs without a fault and leaves memory
    exactly as it was before the allocation. *)
Theorem zcomp_strm_free_undoes_alloc comp flags w z w1 :
  zcomp_strm_alloc comp flags w = Some (Some z, w1) ->
  exists w2,
    zcomp_strm_free z w1 = Some (tt, w2) /\ hp w2 = hp w /\ nreq w2 = nreq w1.
Proof.
  intros Ha. destruct (zcomp_strm_alloc_inv _ _ _ _ _ Ha) as (c & alg & Hc & Hn).
  rewrite (zcomp_strm_alloc_eq comp flags c alg w Hc Hn) in Ha. injection Ha as Eo.
  apply strm_alloc_outcome_Some in Eo as (Ez & _ & _ & Eh).
  pose proof (fresh_slab w) as Fz. rewrite <- Ez in Fz.
  pose proof (fresh_crypto w) as Ft. pose proof (fresh_pages w) as Fb.
  set (t := fresh (dom (crypto (hp w)))) in *.
  set (b := fresh (dom (pages (hp w)))) in *.
  set (blk := Pages 1 (fresh_page_data (Z.lor flags __GFP_ZERO) 1)) in *.
  assert (L : strm_live (hp w1) alg z t b blk).
  { rewrite Eh. apply with_strm_live; [reflexivity|].
    simpl. rewrite fresh_page_data_length. apply page_bytes_1. }
  eexists. split; [apply (zcomp_strm_free_live _ _ _ _ _ _ L)|].
  split; [|reflexivity]. simpl. rewrite Eh. unfold without_strm, with_strm. simpl.
  rewrite !delete_insert_eq.
  rewrite (delete_id _ _ Fz), (delete_id _ _ Ft), (delete_id _ _ Fb). apply heap_eta.
Qed.

(** *** Which names are accepted *)

Lemma c_str_lzo : c_str "lzo" = "lzo"%string.
Proof. reflexivity. Qed.
Lemma c_str_lz4 : c_str "lz4" = "lz4"%string.
Proof. reflexivity. Qed.

Lemma same_line_lzo_lz4 x : same_line x "lzo" -> same_line x "lz4" -> False.
Proof.
  unfold same_line, nl.
  intros [H1|[H1|H1]] [H2|[H2|H2]]; subst; cbv in *; congruence.
Qed.

(** X2. [find_backend] accepts exactly the names of the registry, each
    as it stands or followed by one newline, and returns the registry's
    own spelling of the name. *)
Theorem find_backend_accepts compress b :
  find_backend compress = Some b <->
  b ∈ backends /\ same_line (c_str compress) b.
Proof.
  pose proof (sysfs_streq_same_line compress "lzo") as Hlzo.
  pose proof (sysfs_streq_same_line compress "lz4") as Hlz4.
  rewrite c_str_lzo in Hlzo. rewrite c_str_lz4 in Hlz4.
  unfold find_backend, backends. destruct CONFIG_ZRAM_LZ4_COMPRESS; simpl.
  - destruct (sysfs_streq compress "lzo") eqn:E1.
    + split.
      * intros [= <-]. split; [apply list_elem_of_here|]. now apply Hlzo.
      * intros (Hb & Hs). apply elem_of_cons in Hb as [->|Hb]; [reflexivity|].
        apply list_elem_of_singleton in Hb as ->. exfalso.
        apply (same_line_lzo_lz4 (c_str compress)); [now apply Hlzo|exact Hs].
    + destruct (sysfs_streq compress "lz4") eqn:E2.
      * split.
        -- intros [= <-]. split; [apply list_elem_of_further, list_elem_of_here|].
           now apply Hlz4.
        -- intros (Hb & Hs). apply elem_of_cons in Hb as [->|Hb].
           ++ apply Hlzo in Hs. discriminate.
           ++ now apply list_elem_of_singleton in Hb as ->.
      * split; [discriminate|]. intros (Hb & Hs).
        apply elem_of_cons in Hb as [->|Hb].
        -- apply Hlzo in Hs. discriminate.
        -- apply list_elem_of_singleton in Hb as ->. apply Hlz4 in Hs. discriminate.
  - destruct (sysfs_streq compress "lzo") eqn:E1.
    + split.
      * intros [= <-]. split; [apply list_elem_of_here|]. now apply Hlzo.
      * intros (Hb & Hs). now apply list_elem_of_singleton in Hb as ->.
    + split; [discriminate|]. intros (Hb & Hs).
      apply list_elem_of_singleton in Hb as ->. apply Hlzo in Hs. discriminate.
Qed.

(** *** The size of the listing *)

Lemma length_append (a b : string) :
  String.length (a +:+ b) = (String.length a + String.length b)%nat.
Proof. induction a as [|c a IH]; simpl; [reflexivity|]. now rewrite IH. Qed.

Lemma length_substring_le (text : string) : forall n,
  (String.length (String.substring 0 n text) <= n)%nat.
Proof.
  induction text as [|c r IH]; intros [|n]; simpl; try lia.
  specialize (IH n). lia.
Qed.

Lemma length_scnprintf size text :
  Z.of_nat (String.length (scnprintf size text)) <= Z.max 0 (size - 1).
Proof.
  unfold scnprintf. destruct (Z.leb_spec size 0); simpl; [lia|].
  pose proof (length_substring_le text (Z.to_nat (size - 1))). lia.
Qed.

(** The loop of lines 281-289 keeps two bytes of the page free. *)
Lemma show_backends_room bs comp :
  forall buf,
    (String.length buf + 2 <= PAGE_SIZE)%nat ->
    (String.length (show_backends bs comp buf) + 2 <= PAGE_SIZE)%nat.
Proof.
  induction bs as [|b bs IH]; intros buf Hbuf; simpl; [exact Hbuf|].
  apply IH. rewrite length_append.
  match goal with |- context [scnprintf ?n ?t] => pose proof (length_scnprintf n t) end.
  lia.
Qed.

(** X3. The listing always fits the page it is written to.  Whatever
    name is compared, [zcomp_available_show] writes fewer than
    [PAGE_SIZE] bytes, so that the terminating NUL fits too, and the
    last of them is the newline. *)
Theorem zcomp_available_show_fits comp :
  (2 <= PAGE_SIZE)%nat ->
  (String.length (zcomp_available_show comp) < PAGE_SIZE)%nat /\
  exists body, zcomp_available_show comp = (body +:+ nl)%string /\
               (String.length body + 2 <= PAGE_SIZE)%nat.
Proof.
  intros Hpage. unfold zcomp_available_show.
  pose proof (show_backends_room backends comp EmptyString ltac:(simpl; lia)) as Hroom.
  set (buf := show_backends backends comp EmptyString) in *.
  assert (E : scnprintf (Z.of_nat PAGE_SIZE - Z.of_nat (String.length buf))
                (String newline EmptyString) = nl).
  { apply scnprintf_fits. simpl. lia. }
  cbv zeta. rewrite E. split.
  - rewrite length_append. simpl. lia.
  - exists buf. split; [reflexivity|exact Hroom].
Qed.

(** ** The footprint of a multi-stream pool *)

Lemma lookup_foldr_delete {V} (m : gmap addr V) l k :
  foldr delete m l !! k = if decide (k ∈ l) then None else m !! k.
Proof.
  induction l as [|a l IH]; cbn [foldr].
  - destruct (decide (k ∈ [])) as [H|_]; [now apply elem_of_nil in H|reflexivity].
  - destruct (decide (a = k)) as [->|Hne].
    + rewrite lookup_delete_eq.
      destruct (decide (k ∈ k :: l)) as [_|H]; [reflexivity|].
      exfalso. apply H, list_elem_of_here.
    + rewrite lookup_delete_ne by exact Hne. rewrite IH.
      destruct (decide (k ∈ l)) as [Hin|Hin], (decide (k ∈ a :: l)) as [Hin'|Hin'];
        try reflexivity.
      * exfalso. now apply Hin', list_elem_of_further.
      * exfalso. apply elem_of_cons in Hin' as [E|H]; [congruence|contradiction].
Qed.

Lemma foldr_delete_ext {V} (m : gmap addr V) l l' :
  (forall k, k ∈ l <-> k ∈ l') -> foldr delete m l = foldr delete m l'.
Proof.
  intros H. apply map_eq. intros k. rewrite !lookup_foldr_delete.
  destruct (decide (k ∈ l)) as [Hin|Hin].
  - rewrite decide_True; [reflexivity|now apply H].
  - rewrite decide_False; [reflexivity|]. intros Hin'. now apply Hin, H.
Qed.

Lemma foldr_delete_delete {V} (m : gmap addr V) l k :
  foldr delete (delete k m) l = delete k (foldr delete m l).
Proof.
  apply map_eq. intros a.
  destruct (decide (k = a)) as [->|Hne].
  - rewrite lookup_delete_eq, lookup_foldr_delete, lookup_delete_eq. now destruct (decide _).
  - now rewrite lookup_delete_ne, !lookup_foldr_delete, lookup_delete_ne by exact Hne.
Qed.

Lemma foldr_delete_insert_eq {V} (m : gmap addr V) l k v :
  delete k (foldr delete (<[k:=v]> m) l) = foldr delete (delete k m) l.
Proof. now rewrite <- foldr_delete_delete, delete_insert_eq. Qed.

Lemma foldr_delete_insert {V} (m : gmap addr V) l k v :
  k ∈ l -> foldr delete (<[k:=v]> m) l = foldr delete m l.
Proof.
  intros Hin. apply map_eq. intros a. rewrite !lookup_foldr_delete.
  destruct (decide (a ∈ l)) as [|Hn]; [reflexivity|].
  rewrite lookup_insert_ne; [reflexivity|]. intros ->. contradiction.
Qed.

Lemma omap_ext_in {A B} (f g : A -> option B) (l : list A) :
  (forall x, x ∈ l -> f x = g x) -> omap f l = omap g l.
Proof.
  induction l as [|a l IH]; intros H; [reflexivity|]. csimpl.
  rewrite (H a) by apply list_elem_of_here.
  rewrite IH; [reflexivity|]. intros x Hx. apply H. now apply list_elem_of_further.
Qed.

(** Two heaps whose streams are the same have the same pool footprint. *)
Lemma heap_minus_perm h objs l l' :
  l ≡ₚ l' -> heap_minus h objs l = heap_minus h objs l'.
Proof.
  intros Hp. unfold heap_minus. f_equal.
  - apply foldr_delete_ext. intros k. now rewrite Hp.
  - apply foldr_delete_ext. intros k. now rewrite Hp.
  - apply foldr_delete_ext. intros k. now rewrite Hp.
Qed.

Lemma heap_minus_put_pool w zs m m' comp l :
  slab (hp w) !! zs = Some (KMulti m) ->
  heap_minus (hp (put_pool zs m' w)) [comp; zs] l = heap_minus (hp w) [comp; zs] l.
Proof.
  intros Hzs. unfold heap_minus.
  assert (Et : forall z, strm_tfm (hp (put_pool zs m' w)) z = strm_tfm (hp w) z).
  { intros z. unfold strm_tfm. simpl. destruct (decide (zs = z)) as [<-|Hne].
    - now rewrite lookup_insert_eq, Hzs.
    - now rewrite lookup_insert_ne. }
  assert (Eb : forall z, strm_buffer (hp (put_pool zs m' w)) z = strm_buffer (hp w) z).
  { intros z. unfold strm_buffer. simpl. destruct (decide (zs = z)) as [<-|Hne].
    - now rewrite lookup_insert_eq, Hzs.
    - now rewrite lookup_insert_ne. }
  f_equal.
  - unfold put_pool, set_slab. cbn [hp slab]. apply foldr_delete_insert.
    apply elem_of_app. left. apply list_elem_of_further, list_elem_of_here.
  - f_equal. apply omap_ext_in. auto.
  - f_equal. apply omap_ext_in. auto.
Qed.

(** Freeing the stream [z] takes it out of the footprint. *)
Lemma heap_minus_free h alg objs l z t b blk :
  strm_live h alg z t b blk ->
  z ∉ l ->
  heap_minus (without_strm h z t b) objs l = heap_minus h objs (z :: l).
Proof.
  intros (Hz & _) Hnl. unfold heap_minus, without_strm. simpl.
  assert (Et : omap (strm_tfm (Heap (delete z (slab h)) (delete t (crypto h)) (delete b (pages h)))) l
               = omap (strm_tfm h) l).
  { apply omap_ext_in. intros x Hx. unfold strm_tfm. simpl.
    rewrite lookup_delete_ne; [reflexivity|]. intros ->. contradiction. }
  assert (Eb : omap (strm_buffer (Heap (delete z (slab h)) (delete t (crypto h)) (delete b (pages h)))) l
               = omap (strm_buffer h) l).
  { apply omap_ext_in. intros x Hx. unfold strm_buffer. simpl.
    rewrite lookup_delete_ne; [reflexivity|]. intros ->. contradiction. }
  rewrite Et, Eb. csimpl. unfold strm_tfm at 2, strm_buffer at 2. rewrite Hz. simpl.
  f_equal.
  - rewrite foldr_delete_delete. apply map_eq. intros k.
    destruct (decide (z = k)) as [->|Hne].
    + rewrite lookup_delete_eq, lookup_foldr_delete.
      rewrite decide_True; [reflexivity|]. apply elem_of_app. right. apply list_elem_of_here.
    + rewrite lookup_delete_ne by exact Hne. rewrite !lookup_foldr_delete.
      destruct (decide (k ∈ objs ++ l)) as [Hin|Hin].
      * rewrite decide_True; [reflexivity|].
        apply elem_of_app in Hin as [?|?]; apply elem_of_app; [now left|right].
        now apply list_elem_of_further.
      * rewrite decide_False; [reflexivity|].
        intros [?|[E|?]%elem_of_cons]%elem_of_app; [| congruence |];
          apply Hin, elem_of_app; auto.
  - apply foldr_delete_delete.
  - apply foldr_delete_delete.
Qed.

Lemma omap_cons_Some {A B} (f : A -> option B) (l : list A) a b :
  f a = Some b -> omap f (a :: l) = b :: omap f l.
Proof. intros H. csimpl. now rewrite H. Qed.

(** A new stream adds nothing to what is outside the footprint. *)
Lemma heap_minus_alloc h alg objs l z t b blk :
  slab h !! z = None -> crypto h !! t = None -> pages h !! b = None ->
  z ∉ l ->
  heap_minus (with_strm h alg z t b blk) objs (z :: l) = heap_minus h objs l.
Proof.
  intros Fz Ft Fb Hnl. set (h' := with_strm h alg z t b blk).
  assert (Hz : slab h' !! z = Some (KStrm (Zstrm (Tfm t) (Some b))))
    by apply lookup_insert_eq.
  assert (Et : omap (strm_tfm h') l = omap (strm_tfm h) l).
  { apply omap_ext_in. intros x Hx. unfold strm_tfm, h'. simpl.
    rewrite lookup_insert_ne; [reflexivity|]. intros ->. contradiction. }
  assert (Eb : omap (strm_buffer h') l = omap (strm_buffer h) l).
  { apply omap_ext_in. intros x Hx. unfold strm_buffer, h'. simpl.
    rewrite lookup_insert_ne; [reflexivity|]. intros ->. contradiction. }
  unfold heap_minus.
  rewrite (omap_cons_Some (strm_tfm h') l z t) by (unfold strm_tfm; now rewrite Hz).
  rewrite (omap_cons_Some (strm_buffer h') l z b) by (unfold strm_buffer; now rewrite Hz).
  rewrite Et, Eb. unfold h', with_strm. cbn [slab crypto pages foldr]. f_equal.
  - apply map_eq. intros k. rewrite !lookup_foldr_delete.
    destruct (decide (k ∈ objs ++ l)) as [Hin|Hin].
    + rewrite decide_True; [reflexivity|].
      apply elem_of_app in Hin as [?|?]; apply elem_of_app; [now left|right].
      now apply list_elem_of_further.
    + destruct (decide (k = z)) as [->|Hne].
      * rewrite decide_True; [now rewrite Fz|].
        apply elem_of_app. right. apply list_elem_of_here.
      * rewrite decide_False.
        -- now rewrite lookup_insert_ne by congruence.
        -- intros [?|[E|?]%elem_of_cons]%elem_of_app; [| congruence |];
             apply Hin, elem_of_app; auto.
  - rewrite foldr_delete_insert_eq. now rewrite (delete_id _ _ Ft).
  - rewrite foldr_delete_insert_eq. now rewrite (delete_id _ _ Fb).
Qed.

(** The pool object of a state is the one its invariant names. *)
Lemma pool_inv_fun alg comp s c zs m m' :
  pool_inv alg comp s c zs m' -> pool_inv alg comp s c zs m -> m' = m.
Proof.
  intros I1 I2. pose proof (inv_pool _ _ _ _ _ _ I1) as H1.
  pose proof (inv_pool _ _ _ _ _ _ I2) as H2. congruence.
Qed.

(** *** The footprint through the steps *)

Section FRAME.

Variables (h0 : heap) (alg : string) (comp : addr) (s : sys) (c : zcomp) (zs : addr)
          (m : zcomp_strm_multi).
Hypothesis Inv : pool_inv alg comp s c zs m.
Hypothesis Frame : pool_frame h0 comp zs s m.

Lemma pool_frame_put m' ts' :
  idle_strm m' ++ owned ts' ≡ₚ idle_strm m ++ owned (thr s) ->
  pool_frame h0 comp zs (Sys (put_pool zs m' (wd s)) ts') m'.
Proof.
  intros Hp. unfold pool_frame in *. cbn [wd thr].
  rewrite (heap_minus_put_pool _ _ m) by apply (inv_pool _ _ _ _ _ _ Inv).
  now rewrite (heap_minus_perm _ _ _ _ Hp).
Qed.

Lemma pool_frame_move ts' :
  idle_strm m ++ owned ts' ≡ₚ idle_strm m ++ owned (thr s) ->
  pool_frame h0 comp zs (Sys (wd s) ts') m.
Proof.
  intros Hp. unfold pool_frame in *. cbn [wd thr].
  now rewrite (heap_minus_perm _ _ _ _ Hp).
Qed.

Lemma find_alloc_frame t :
  thr s !! t = Some Find_alloc ->
  forall s', step comp (Tick t) s = Some s' -> pool_frame h0 comp zs s' m.
Proof.
  intros Ht s' H.
  destruct (find_alloc_inv _ _ _ _ _ _ Inv t Ht) as (r & w' & Ha & Hs & _ & Hr).
  rewrite Hs in H. injection H as <-.
  rewrite (zcomp_strm_alloc_eq comp _ c alg (wd s)
             (inv_comp _ _ _ _ _ _ Inv) (inv_name _ _ _ _ _ _ Inv)) in Ha.
  injection Ha as Eo. unfold pool_frame in *. simpl. destruct r as [z|].
  - destruct Hr as (Hnew & _).
    apply strm_alloc_outcome_Some in Eo as (Ez & _ & _ & Eh).
    pose proof (fresh_slab (wd s)) as Fz. rewrite <- Ez in Fz.
    rewrite (heap_minus_perm _ _ _ (z :: idle_strm m ++ owned (thr s))).
    + rewrite Eh. rewrite heap_minus_alloc; auto using fresh_crypto, fresh_pages.
    + rewrite (owned_insert_take _ _ _ _ z Ht) by reflexivity.
      now rewrite Permutation_middle.
  - apply strm_alloc_outcome_None in Eo as (Eh & _). rewrite Eh.
    now rewrite (owned_insert_same _ _ _ _ Ht).
Qed.

Lemma rel_free_frame t z :
  thr s !! t = Some (Rel_free z) ->
  forall s', step comp (Tick t) s = Some s' -> pool_frame h0 comp zs s' m.
Proof.
  intros Ht s' H.
  destruct (rel_free_inv _ _ _ _ _ _ Inv t z Ht) as (tf & b & blk & Lz & Hs & _).
  rewrite Hs in H. injection H as <-. unfold pool_frame in *. simpl.
  assert (Hperm : idle_strm m ++ owned (thr s) ≡ₚ
                  z :: idle_strm m ++ owned (<[t:=Out]> (thr s))).
  { rewrite <- (owned_insert_give _ _ _ Out z Ht) by reflexivity.
    now rewrite Permutation_middle. }
  pose proof (strms_ok_perm _ _ _ _ Hperm (inv_strms _ _ _ _ _ _ Inv)) as (Hnd & _).
  apply NoDup_cons in Hnd as (Hnotin & _).
  rewrite (heap_minus_free _ alg _ _ _ _ _ blk Lz Hnotin).
  now rewrite <- (heap_minus_perm _ _ _ _ Hperm).
Qed.

(** The loop of lines 172-178 frees streams of the footprint only. *)
Lemma free_idle_above_frame n objs rest idle :
  forall avail w r w',
    strms_ok (hp w) alg (idle ++ rest) ->
    free_idle_above n idle avail w = Some (r, w') ->
    heap_minus (hp w') objs (fst r ++ rest) = heap_minus (hp w) objs (idle ++ rest).
Proof.
  induction idle as [|z idle IH]; intros avail w r w' Hok H; simpl in H.
  - now injection H as <- <-.
  - destruct (avail >? n); [|now injection H as <- <-].
    pose proof Hok as (Hnd & Hlive & _).
    destruct (Hlive z (list_elem_of_here _ _)) as (tf & b & blk & Lz).
    rewrite (bind_Some _ _ _ _ _ (zcomp_strm_free_live _ _ _ _ _ _ Lz)) in H.
    apply NoDup_cons in Hnd as (Hnotin & _).
    assert (Hok1 : strms_ok (without_strm (hp w) z tf b) alg (idle ++ rest))
      by (apply strms_ok_free with (z := z) (blk := blk); assumption).
    rewrite (IH _ (World (without_strm (hp w) z tf b) (nreq w)) _ _ Hok1 H). simpl.
    apply (heap_minus_free _ alg _ _ _ _ _ blk Lz Hnotin).
Qed.

Lemma set_max_frame n :
  is_int n ->
  forall s' m', step comp (Call_set_max n) s = Some s' ->
                pool_inv alg comp s' c zs m' ->
                pool_frame h0 comp zs s' m'.
Proof.
  intros Hn s' m' H Inv'.
  pose proof (inv_avail_nonneg _ _ _ _ _ _ Inv) as Hnn.
  destruct (free_idle_above_eq alg n (owned (thr s)) (idle_strm m) (avail_strm m) (wd s)
              (inv_strms _ _ _ _ _ _ Inv)
              ltac:(pose proof (inv_avail _ _ _ _ _ _ Inv); lia))
    as (w' & Hrun & _ & _ & Hfr & _).
  assert (Hm' : slab (hp w') !! zs = Some (KMulti m))
    by (apply Hfr; [apply (inv_pool _ _ _ _ _ _ Inv)|discriminate]).
  pose proof (free_idle_above_frame n [comp; zs] _ _ _ _ _ _
                (inv_strms _ _ _ _ _ _ Inv) Hrun) as Hfrm.
  simpl fst in Hfrm.
  unfold step in H. rewrite bool_decide_true in H by exact Hn.
  unfold zcomp_set_max_streams in H.
  rewrite (bind_Some _ _ _ _ _ (load_comp_Some _ _ _ (inv_comp _ _ _ _ _ _ Inv))) in H.
  destruct (inv_ops _ _ _ _ _ _ Inv) as (_ & _ & Hsm & _). rewrite Hsm in H.
  unfold zcomp_strm_multi_set_max_streams in H.
  rewrite (bind_Some _ _ _ _ _ (inv_multi_of _ _ _ _ _ _ Inv)) in H.
  rewrite (bind_Some _ _ _ _ _ Hrun) in H.
  rewrite (bind_Some _ _ _ _ _ (store_Some _ _ _ _ Hm')) in H.
  simpl in H. injection H as <-.
  pose proof (inv_pool _ _ _ _ _ _ Inv') as Hp. simpl in Hp.
  rewrite lookup_insert_eq in Hp. injection Hp as <-.
  unfold pool_frame in *. simpl thr. simpl idle_strm.
  change (hp (wd (Sys (set_slab (insert zs (KMulti (Zmulti n (avail_strm m - Z.of_nat (Nat.min (length (idle_strm m)) (Z.to_nat (avail_strm m - n))))
       (drop (Nat.min (length (idle_strm m)) (Z.to_nat (avail_strm m - n))) (idle_strm m))))) w') (thr s))))
    with (hp (put_pool zs (Zmulti n (avail_strm m - Z.of_nat (Nat.min (length (idle_strm m)) (Z.to_nat (avail_strm m - n))))
       (drop (Nat.min (length (idle_strm m)) (Z.to_nat (avail_strm m - n))) (idle_strm m))) w')).
  rewrite (heap_minus_put_pool _ _ m) by exact Hm'.
  now rewrite Hfrm.
Qed.

End FRAME.

Lemma step_pool_frame h0 alg comp s c zs m l s' :
  pool_inv alg comp s c zs m ->
  pool_frame h0 comp zs s m ->
  step comp l s = Some s' ->
  exists m', pool_inv alg comp s' c zs m' /\ pool_frame h0 comp zs s' m'.
Proof.
  intros Inv Fr H.
  destruct (step_pool_inv _ _ _ _ _ _ _ _ Inv H) as (m' & Inv').
  exists m'. split; [exact Inv'|].
  destruct l as [t|t|n|t].
  - destruct (thr s !! t) as [p|] eqn:Ht; [|unfold step in H; rewrite Ht in H; discriminate].
    destruct p as [|z0| | | | | |z0| |z0]; try (unfold step in H; rewrite Ht in H; discriminate).
    destruct (call_get_inv _ _ _ _ _ _ Inv t Ht) as (Hs & Hi).
    rewrite Hs in H. injection H as <-.
    rewrite (pool_inv_fun _ _ _ _ _ _ _ Inv' Hi).
    apply (pool_frame_move h0 comp s zs m Fr).
    now rewrite (owned_insert_same _ _ _ _ Ht).
  - destruct (thr s !! t) as [p|] eqn:Ht; [|unfold step in H; rewrite Ht in H; discriminate].
    destruct p as [|z0| | | | | |z0| |z0]; try (unfold step in H; rewrite Ht in H; discriminate).
    destruct (call_put_inv _ _ _ _ _ _ Inv t _ Ht) as (Hs & Hi).
    rewrite Hs in H. injection H as <-.
    rewrite (pool_inv_fun _ _ _ _ _ _ _ Inv' Hi).
    apply (pool_frame_move h0 comp s zs m Fr).
    now rewrite (owned_insert_same _ _ _ _ Ht).
  - destruct (decide (is_int n)) as [Hn|Hn].
    + now apply (set_max_frame h0 alg comp s c zs m Inv Fr n Hn).
    + unfold step in H. rewrite bool_decide_false in H by exact Hn. discriminate.
  - destruct (thr s !! t) as [p|] eqn:Ht; [|unfold step in H; rewrite Ht in H; discriminate].
    destruct p as [|z0| | | | | |z0| |z0]; try (unfold step in H; rewrite Ht in H; discriminate).
    + destruct (idle_strm m) as [|z rest] eqn:Hidle.
      * destruct (Z.lt_ge_cases (avail_strm m) (max_strm m)).
        -- destruct (find_top_grow _ _ _ _ _ _ Inv t Ht Hidle ltac:(assumption)) as (Hs & Hi).
           rewrite Hs in H. injection H as <-.
           rewrite (pool_inv_fun _ _ _ _ _ _ _ Inv' Hi).
           apply (pool_frame_put h0 alg comp s c zs m Inv Fr).
           simpl. now rewrite Hidle, (owned_insert_same _ _ _ _ Ht).
        -- destruct (find_top_full _ _ _ _ _ _ Inv t Ht Hidle ltac:(assumption)) as (Hs & Hi).
           rewrite Hs in H. injection H as <-.
           rewrite (pool_inv_fun _ _ _ _ _ _ _ Inv' Hi).
           apply (pool_frame_move h0 comp s zs m Fr).
           now rewrite (owned_insert_same _ _ _ _ Ht).
      * destruct (find_top_pop _ _ _ _ _ _ Inv t z rest Ht Hidle) as (Hs & Hi).
        rewrite Hs in H. injection H as <-.
        rewrite (pool_inv_fun _ _ _ _ _ _ _ Inv' Hi).
        apply (pool_frame_put h0 alg comp s c zs m Inv Fr).
        simpl. rewrite Hidle, (owned_insert_take _ _ _ _ z Ht) by reflexivity.
        simpl. now rewrite Permutation_middle.
    + destruct (find_wait_inv _ _ _ _ _ _ Inv t Ht) as (Hs & Hi).
      rewrite Hs in H. injection H as <-.
      rewrite (pool_inv_fun _ _ _ _ _ _ _ Inv' Hi).
      apply (pool_frame_move h0 comp s zs m Fr).
      rewrite (owned_insert_same _ _ _ _ Ht); [reflexivity|]. now destruct (idle_strm m).
    + pose proof (find_alloc_frame h0 alg comp s c zs m Inv Fr t Ht _ H) as Hf.
      destruct (find_alloc_inv _ _ _ _ _ _ Inv t Ht) as (r & w' & _ & Hs & Hi & _).
      rewrite Hs in H. injection H as <-.
      now rewrite (pool_inv_fun _ _ _ _ _ _ _ Inv' Hi).
    + destruct (find_undo_inv _ _ _ _ _ _ Inv t Ht) as (Hs & Hi & _).
      rewrite Hs in H. injection H as <-.
      rewrite (pool_inv_fun _ _ _ _ _ _ _ Inv' Hi).
      apply (pool_frame_put h0 alg comp s c zs m Inv Fr).
      simpl. now rewrite (owned_insert_same _ _ _ _ Ht).
    + destruct (Z.le_gt_cases (avail_strm m) (max_strm m)).
      * destruct (rel_top_idle _ _ _ _ _ _ Inv t _ Ht ltac:(assumption)) as (Hs & Hi).
        rewrite Hs in H. injection H as <-.
        rewrite (pool_inv_fun _ _ _ _ _ _ _ Inv' Hi).
        apply (pool_frame_put h0 alg comp s c zs m Inv Fr).
        simpl. rewrite <- (owned_insert_give _ _ _ Rel_wake z0 Ht) by reflexivity.
        now rewrite Permutation_middle.
      * destruct (rel_top_over _ _ _ _ _ _ Inv t _ Ht ltac:(lia)) as (Hs & Hi & _).
        rewrite Hs in H. injection H as <-.
        rewrite (pool_inv_fun _ _ _ _ _ _ _ Inv' Hi).
        apply (pool_frame_put h0 alg comp s c zs m Inv Fr).
        simpl. now rewrite (owned_insert_same _ _ _ _ Ht).
    + destruct (rel_wake_inv _ _ _ _ _ _ Inv t Ht) as (Hs & Hi).
      rewrite Hs in H. injection H as <-.
      rewrite (pool_inv_fun _ _ _ _ _ _ _ Inv' Hi).
      apply (pool_frame_move h0 comp s zs m Fr).
      assert (Hw : wake_up (thr s) !! t = Some Rel_wake)
        by (rewrite wake_up_lookup, Ht; reflexivity).
      rewrite (owned_insert_same _ _ _ _ Hw) by reflexivity. now rewrite owned_wake_up.
    + pose proof (rel_free_frame h0 alg comp s c zs m Inv Fr t _ Ht _ H) as Hf.
      destruct (rel_free_inv _ _ _ _ _ _ Inv t _ Ht) as (tf & b & blk & _ & Hs & Hi).
      rewrite Hs in H. injection H as <-.
      now rewrite (pool_inv_fun _ _ _ _ _ _ _ Inv' Hi).
Qed.

Lemma run_pool_frame h0 alg comp c zs ls :
  forall s m s',
    pool_inv alg comp s c zs m ->
    pool_frame h0 comp zs s m ->
    run comp ls s = Some s' ->
    exists m', pool_inv alg comp s' c zs m' /\ pool_frame h0 comp zs s' m'.
Proof.
  induction ls as [|l ls IH]; intros s m s' Inv Fr H; simpl in H.
  - injection H as <-. eauto.
  - destruct (step comp l s) as [s1|] eqn:Hs; [|discriminate].
    destruct (step_pool_frame _ _ _ _ _ _ _ _ _ Inv Fr Hs) as (m1 & Inv1 & Fr1). eauto.
Qed.

(** Right after [zcomp_create] the footprint is all that was added to memory. *)
Lemma boot_pool_frame compress max n w comp s0 :
  1 < max <= INT_MAX ->
  boot compress max n w = Some (comp, s0) ->
  exists alg c zs m,
    pool_inv alg comp s0 c zs m /\ pool_frame (hp w) comp zs s0 m.
Proof.
  intros Hmax Hb.
  destruct (boot_pool_inv _ _ _ _ _ _ Hmax Hb) as (alg & c & zs & z & Inv & Hthr).
  exists alg, c, zs, (Zmulti max 1 [z]). split; [exact Inv|].
  unfold boot in Hb.
  destruct (find_backend compress) as [backend|] eqn:Hf.
  2:{ unfold zcomp_create in Hb. rewrite Hf in Hb. discriminate. }
  destruct (zcomp_create_eq compress backend max w Hf) as (r & w' & Hr & _ & Hres).
  rewrite Hr in Hb. destruct r as [e|comp']; [discriminate|].
  injection Hb as <- <-.
  destruct Hres as (zs1 & z1 & t & b & Fc & Fzs & Fz & N1 & N2 & N3 & Ft & Fb & _ & Eh).
  assert (Em : (max >? 1) = true) by (apply Z.gtb_lt; lia).
  unfold created_heap, created_zcomp, created_pool in Eh. rewrite Em in Eh.
  pose proof (inv_comp _ _ _ _ _ _ Inv) as Hc.
  pose proof (inv_stream _ _ _ _ _ _ Inv) as Hst.
  pose proof (inv_pool _ _ _ _ _ _ Inv) as Hp.
  simpl in Hc, Hp. rewrite Eh in Hc, Hp. simpl in Hc, Hp.
  rewrite lookup_insert_ne, lookup_insert_ne, lookup_insert_eq in Hc by congruence.
  injection Hc as <-. simpl in Hst. injection Hst as <-.
  rewrite lookup_insert_ne, lookup_insert_eq in Hp by congruence.
  injection Hp as <-.
  unfold pool_frame. simpl wd. simpl thr. rewrite owned_replicate_Out. simpl idle_strm.
  rewrite Eh. simpl app.
  rewrite heap_minus_alloc; auto.
  - unfold heap_minus. simpl.
    rewrite <- (heap_eta (hp w)) at 4. f_equal.
    rewrite delete_insert_eq, delete_insert_ne, delete_insert_eq by congruence.
    now rewrite (delete_id _ _ Fzs), (delete_id _ _ Fc).
  - simpl. now rewrite !lookup_insert_ne by congruence.
  - apply not_elem_of_nil.
Qed.

(** *** Destroying a pool *)

Lemma foldr_delete_subseteq {V} (m : gmap addr V) l : foldr delete m l ⊆ m.
Proof.
  induction l as [|a l IH]; simpl; [reflexivity|].
  etrans; [apply delete_subseteq|exact IH].
Qed.

Lemma strm_live_sub h h' alg z t b blk t' b' blk' :
  slab h' ⊆ slab h -> pages h' ⊆ pages h ->
  strm_live h' alg z t' b' blk' ->
  strm_live h alg z t b blk ->
  strm_live h' alg z t b blk.
Proof.
  intros Hs Hp L' L.
  pose proof L' as (Hz' & _ & Hb' & _). pose proof L as (Hz & _ & Hb & _).
  pose proof (lookup_weaken _ _ _ _ Hz' Hs) as Hz2.
  rewrite Hz in Hz2. injection Hz2 as -> ->.
  pose proof (lookup_weaken _ _ _ _ Hb' Hp) as Hb2.
  rewrite Hb in Hb2. injection Hb2 as ->. exact L'.
Qed.

(** The loop of [zcomp_strm_multi_destroy] frees every stream of the list. *)
Lemma free_all_eq alg rest idle :
  forall w,
    strms_ok (hp w) alg (idle ++ rest) ->
    exists w',
      free_all idle w = Some (tt, w') /\
      nreq w' = nreq w /\
      hp w' = heap_minus (hp w) [] idle /\
      strms_ok (hp w') alg rest.
Proof.
  induction idle as [|z idle IH]; intros w Hok.
  - exists w. split; [reflexivity|]. split; [reflexivity|].
    split; [|exact Hok]. unfold heap_minus. simpl. symmetry. apply heap_eta.
  - pose proof Hok as (Hnd & Hlive & _).
    destruct (Hlive z (list_elem_of_here _ _)) as (tf & b & blk & Lz).
    apply NoDup_cons in Hnd as (Hnotin & _).
    set (w1 := World (without_strm (hp w) z tf b) (nreq w)).
    assert (Hok1 : strms_ok (hp w1) alg (idle ++ rest))
      by (apply strms_ok_free with (z := z) (blk := blk); assumption).
    destruct (IH w1 Hok1) as (w' & Hrun & Hn & Eh & Hok').
    exists w'. split.
    { simpl free_all.
      now rewrite (bind_Some _ _ _ _ _ (zcomp_strm_free_live _ _ _ _ _ _ Lz)). }
    split; [exact Hn|]. split; [|exact Hok'].
    rewrite Eh. simpl hp.
    apply (heap_minus_free _ alg [] idle z tf b blk Lz).
    intros Hin. apply Hnotin, elem_of_app. now left.
Qed.

Lemma strms_ok_sub h h' alg l :
  slab h' ⊆ slab h -> pages h' ⊆ pages h -> strms_ok h' alg l ->
  forall z t b blk, z ∈ l -> strm_live h alg z t b blk -> strm_live h' alg z t b blk.
Proof.
  intros Hs Hp (_ & Hlive & _) z t b blk Hz L.
  destruct (Hlive z Hz) as (t' & b' & blk' & L').
  exact (strm_live_sub _ _ _ _ _ _ _ _ _ _ Hs Hp L' L).
Qed.

Lemma strms_ok_kfree w alg l a o :
  slab (hp w) !! a = Some o -> (forall st, o <> KStrm st) ->
  strms_ok (hp w) alg l -> strms_ok (hp (set_slab (delete a) w)) alg l.
Proof.
  intros Ha Ho. apply strms_ok_ext. intros z t b blk _. unfold strm_live. simpl.
  destruct (decide (a = z)) as [->|Hne].
  - rewrite lookup_delete_eq, Ha. split; intros (H & _); [|discriminate].
    injection H as ->. now destruct (Ho (Zstrm (Tfm t) (Some b))).
  - now rewrite lookup_delete_ne.
Qed.

(** [zcomp_destroy] on a multi-stream pool. *)
Lemma zcomp_destroy_multi_eq alg comp s c zs m :
  pool_inv alg comp s c zs m ->
  exists w',
    zcomp_destroy comp (wd s) = Some (tt, w') /\
    nreq w' = nreq (wd s) /\
    hp w' = heap_minus (hp (wd s)) [comp; zs] (idle_strm m) /\
    strms_ok (hp w') alg (owned (thr s)).
Proof.
  intros Inv. pose proof (inv_comp_ne_pool _ _ _ _ _ _ Inv) as Hne.
  destruct (free_all_eq alg (owned (thr s)) (idle_strm m) (wd s)
              (inv_strms _ _ _ _ _ _ Inv)) as (w1 & Hrun & Hn & Eh & Hok).
  pose proof (inv_strms _ _ _ _ _ _ Inv) as (_ & Hlive & _).
  assert (Hobj : forall a o, slab (hp (wd s)) !! a = Some o -> (forall st, o <> KStrm st) ->
                             slab (hp w1) !! a = Some o).
  { intros a o Ha Ho. rewrite Eh. unfold heap_minus. simpl. rewrite lookup_foldr_delete.
    rewrite decide_False; [exact Ha|]. intros Hin.
    destruct (Hlive a) as (t & b & blk & (Hz & _)); [apply elem_of_app; now left|].
    rewrite Hz in Ha. injection Ha as <-. now destruct (Ho (Zstrm (Tfm t) (Some b))). }
  assert (Hzs : slab (hp w1) !! zs = Some (KMulti m))
    by (apply Hobj; [apply (inv_pool _ _ _ _ _ _ Inv)|discriminate]).
  assert (Hc : slab (hp w1) !! comp = Some (KComp c))
    by (apply Hobj; [apply (inv_comp _ _ _ _ _ _ Inv)|discriminate]).
  assert (Hmd : zcomp_strm_multi_destroy comp (wd s) = Some (tt, set_slab (delete zs) w1)).
  { unfold zcomp_strm_multi_destroy.
    rewrite (bind_Some _ _ _ _ _ (inv_multi_of _ _ _ _ _ _ Inv)).
    rewrite (bind_Some _ _ _ _ _ Hrun).
    apply (kfree_Some _ _ _ Hzs). }
  assert (Hc2 : slab (hp (set_slab (delete zs) w1)) !! comp = Some (KComp c))
    by (simpl; now rewrite lookup_delete_ne by auto).
  exists (set_slab (delete comp) (set_slab (delete zs) w1)). split.
  { unfold zcomp_destroy.
    rewrite (bind_Some _ _ _ _ _ (load_comp_Some _ _ _ (inv_comp _ _ _ _ _ _ Inv))).
    destruct (inv_ops _ _ _ _ _ _ Inv) as (_ & _ & _ & Hd). rewrite Hd.
    rewrite (bind_Some _ _ _ _ _ Hmd).
    apply (kfree_Some _ _ _ Hc2). }
  split; [exact Hn|]. split.
  - simpl. rewrite Eh. reflexivity.
  - apply (strms_ok_kfree _ _ _ _ _ Hc2); [discriminate|].
    apply (strms_ok_kfree _ _ _ _ _ Hzs); [discriminate|exact Hok].
Qed.

(** X4. In every state the scheduler can reach, [zcomp_destroy] runs
    without a fault.  It frees the compressor, the pool object and every
    idle stream with its transform and its buffer, and nothing else:
    a stream that is still in the hands of a caller stays allocated as
    it was. *)
Theorem zcomp_destroy_frees_the_idle_streams comp s m :
  multi_reachable comp s ->
  pool_of comp (wd s) = Some m ->
  exists alg c zs w',
    slab (hp (wd s)) !! comp = Some (KComp c) /\
    name c = Some alg /\ stream c = Some zs /\
    zcomp_destroy comp (wd s) = Some (tt, w') /\
    nreq w' = nreq (wd s) /\
    hp w' = heap_minus (hp (wd s)) [comp; zs] (idle_strm m) /\
    slab (hp w') !! comp = None /\ slab (hp w') !! zs = None /\
    (forall z, z ∈ idle_strm m -> slab (hp w') !! z = None) /\
    (forall z t b blk,
        z ∈ owned (thr s) -> strm_live (hp (wd s)) alg z t b blk ->
        strm_live (hp w') alg z t b blk).
Proof.
  intros Hr Hm. destruct (reachable_pool_inv _ _ Hr) as (alg & c & zs & m0 & Inv).
  rewrite (inv_pool_of _ _ _ _ _ _ Inv) in Hm. injection Hm as <-.
  destruct (zcomp_destroy_multi_eq _ _ _ _ _ _ Inv) as (w' & Hd & Hn & Eh & Hok).
  exists alg, c, zs, w'.
  split; [apply (inv_comp _ _ _ _ _ _ Inv)|]. split; [apply (inv_name _ _ _ _ _ _ Inv)|].
  split; [apply (inv_stream _ _ _ _ _ _ Inv)|].
  split; [exact Hd|]. split; [exact Hn|]. split; [exact Eh|].
  assert (Hgone : forall a, a ∈ [comp; zs] ++ idle_strm m0 -> slab (hp w') !! a = None).
  { intros a Ha. rewrite Eh. unfold heap_minus. cbn [slab].
    rewrite lookup_foldr_delete. now rewrite decide_True. }
  split; [apply Hgone; apply elem_of_app; left; apply list_elem_of_here|].
  split; [apply Hgone; apply elem_of_app; left; apply list_elem_of_further, list_elem_of_here|].
  split; [intros z Hz; apply Hgone; apply elem_of_app; now right|].
  apply (strms_ok_sub (hp (wd s)) (hp w') alg); [| |exact Hok];
    rewrite Eh; unfold heap_minus; cbn [slab pages]; apply foldr_delete_subseteq.
Qed.

(** X5. The pool leaks nothing.  Whatever the threads did between
    [zcomp_create] and [zcomp_destroy], and whichever allocations
    failed on the way, once no thread has a stream in hand
    [zcomp_destroy] leaves memory exactly as it was before
    [zcomp_create]. *)
Theorem zcomp_destroy_leaves_nothing compress max n w comp s0 ls s :
  1 < max <= INT_MAX ->
  boot compress max n w = Some (comp, s0) ->
  run comp ls s0 = Some s ->
  owned (thr s) = [] ->
  exists w', zcomp_destroy comp (wd s) = Some (tt, w') /\ hp w' = hp w.
Proof.
  intros Hmax Hb Hrun Hown.
  destruct (boot_pool_frame _ _ _ _ _ _ Hmax Hb) as (alg & c & zs & m0 & Inv0 & Fr0).
  destruct (run_pool_frame _ _ _ _ _ _ _ _ _ Inv0 Fr0 Hrun) as (m & Inv & Fr).
  destruct (zcomp_destroy_multi_eq _ _ _ _ _ _ Inv) as (w' & Hd & _ & Eh & _).
  exists w'. split; [exact Hd|].
  unfold pool_frame in Fr. rewrite Hown, app_nil_r in Fr. now rewrite Eh.
Qed.

(** ** Sleepers, round trips and limits *)

(** *** Sleepers and wake-ups *)

Lemma elem_of_insert_inv (ts : list pc) t q p :
  p ∈ <[t:=q]> ts -> p = q \/ p ∈ ts.
Proof.
  intros (i & Hi)%list_elem_of_lookup.
  rewrite list_lookup_insert in Hi. case_decide as Hd.
  - injection Hi as <-. now left.
  - right. apply list_elem_of_lookup. eauto.
Qed.

Lemma elem_of_insert_other (ts : list pc) t q p p0 :
  ts !! t = Some p0 -> p <> p0 -> p ∈ ts -> p ∈ <[t:=q]> ts.
Proof.
  intros Ht Hne (i & Hi)%list_elem_of_lookup.
  apply list_elem_of_lookup. exists i.
  rewrite list_lookup_insert_ne; [exact Hi|]. intros ->. congruence.
Qed.

Lemma no_lost_wake_move ts idle idle' t p q :
  no_lost_wake ts idle ->
  ts !! t = Some p -> p <> Rel_wake -> q <> Find_sleep ->
  (idle = [] -> idle' = []) ->
  no_lost_wake (<[t:=q]> ts) idle'.
Proof.
  intros H Ht Hp Hq Hi Hs.
  apply elem_of_insert_inv in Hs as [E|Hs]; [congruence|].
  destruct (H Hs) as [E|Hw]; [left; auto|right].
  apply (elem_of_insert_other _ _ _ _ _ Ht); [congruence|exact Hw].
Qed.

Lemma no_lost_wake_boot n idle : no_lost_wake (replicate n Out) idle.
Proof. intros (E & _)%elem_of_replicate. discriminate. Qed.

Lemma step_no_lost_wake alg comp s c zs m l s' :
  pool_inv alg comp s c zs m ->
  no_lost_wake (thr s) (idle_strm m) ->
  step comp l s = Some s' ->
  exists m', pool_inv alg comp s' c zs m' /\ no_lost_wake (thr s') (idle_strm m').
Proof.
  intros Inv W H. destruct l as [t|t|n|t].
  - destruct (thr s !! t) as [p|] eqn:Ht; [|unfold step in H; rewrite Ht in H; discriminate].
    destruct p as [|z0| | | | | |z0| |z0]; try (unfold step in H; rewrite Ht in H; discriminate).
    destruct (call_get_inv _ _ _ _ _ _ Inv t Ht) as (Hs & Hi).
    rewrite Hs in H. injection H as <-. exists m. split; [exact Hi|].
    now apply (no_lost_wake_move _ _ _ _ _ _ W Ht).
  - destruct (thr s !! t) as [p|] eqn:Ht; [|unfold step in H; rewrite Ht in H; discriminate].
    destruct p as [|z0| | | | | |z0| |z0]; try (unfold step in H; rewrite Ht in H; discriminate).
    destruct (call_put_inv _ _ _ _ _ _ Inv t _ Ht) as (Hs & Hi).
    rewrite Hs in H. injection H as <-. exists m. split; [exact Hi|].
    now apply (no_lost_wake_move _ _ _ _ _ _ W Ht).
  - destruct (decide (is_int n)) as [Hn|Hn].
    + destruct (set_max_inv _ _ _ _ _ _ Inv n Hn) as (w' & _ & Hs & Hi & _).
      rewrite Hs in H. injection H as <-. eexists. split; [exact Hi|].
      simpl. intros Hsl. destruct (W Hsl) as [E|Hw]; [left|now right].
      rewrite E. now rewrite drop_nil.
    + unfold step in H. rewrite bool_decide_false in H by exact Hn. discriminate.
  - destruct (thr s !! t) as [p|] eqn:Ht; [|unfold step in H; rewrite Ht in H; discriminate].
    destruct p as [|z0| | | | | |z0| |z0]; try (unfold step in H; rewrite Ht in H; discriminate).
    + destruct (idle_strm m) as [|z rest] eqn:Hidle.
      * destruct (Z.lt_ge_cases (avail_strm m) (max_strm m)).
        -- destruct (find_top_grow _ _ _ _ _ _ Inv t Ht Hidle ltac:(assumption)) as (Hs & Hi).
           rewrite Hs in H. injection H as <-. eexists. split; [exact Hi|].
           simpl. now apply (no_lost_wake_move _ _ _ _ _ _ W Ht).
        -- destruct (find_top_full _ _ _ _ _ _ Inv t Ht Hidle ltac:(assumption)) as (Hs & Hi).
           rewrite Hs in H. injection H as <-. exists m. split; [exact Hi|].
           simpl. rewrite Hidle. now apply (no_lost_wake_move _ _ _ _ _ _ W Ht).
      * destruct (find_top_pop _ _ _ _ _ _ Inv t z rest Ht Hidle) as (Hs & Hi).
        rewrite Hs in H. injection H as <-. eexists. split; [exact Hi|].
        simpl. now apply (no_lost_wake_move _ _ _ _ _ _ W Ht).
    + destruct (find_wait_inv _ _ _ _ _ _ Inv t Ht) as (Hs & Hi).
      rewrite Hs in H. injection H as <-. exists m. split; [exact Hi|].
      simpl. destruct (idle_strm m) as [|z rest] eqn:Hidle.
      * intros _. now left.
      * now apply (no_lost_wake_move _ _ _ _ _ _ W Ht).
    + destruct (find_alloc_inv _ _ _ _ _ _ Inv t Ht) as (r & w' & _ & Hs & Hi & _).
      rewrite Hs in H. injection H as <-. exists m. split; [exact Hi|].
      simpl. apply (no_lost_wake_move _ _ _ _ _ _ W Ht); [discriminate| |auto].
      now destruct r.
    + destruct (find_undo_inv _ _ _ _ _ _ Inv t Ht) as (Hs & Hi & _).
      rewrite Hs in H. injection H as <-. eexists. split; [exact Hi|].
      simpl. now apply (no_lost_wake_move _ _ _ _ _ _ W Ht).
    + destruct (Z.le_gt_cases (avail_strm m) (max_strm m)).
      * destruct (rel_top_idle _ _ _ _ _ _ Inv t _ Ht ltac:(assumption)) as (Hs & Hi).
        rewrite Hs in H. injection H as <-. eexists. split; [exact Hi|].
        simpl. intros _. right. apply list_elem_of_lookup. exists t.
        apply list_lookup_insert_eq. now apply lookup_lt_Some in Ht.
      * destruct (rel_top_over _ _ _ _ _ _ Inv t _ Ht ltac:(lia)) as (Hs & Hi & _).
        rewrite Hs in H. injection H as <-. eexists. split; [exact Hi|].
        simpl. now apply (no_lost_wake_move _ _ _ _ _ _ W Ht).
    + destruct (rel_wake_inv _ _ _ _ _ _ Inv t Ht) as (Hs & Hi).
      rewrite Hs in H. injection H as <-. exists m. split; [exact Hi|].
      simpl. intros Hsl. exfalso.
      apply elem_of_insert_inv in Hsl as [E|Hsl]; [discriminate|].
      apply list_elem_of_lookup in Hsl as (i & Hi').
      now apply no_sleeper_after_wake_up in Hi'.
    + destruct (rel_free_inv _ _ _ _ _ _ Inv t _ Ht) as (tf & b & blk & _ & Hs & Hi).
      rewrite Hs in H. injection H as <-. exists m. split; [exact Hi|].
      simpl. now apply (no_lost_wake_move _ _ _ _ _ _ W Ht).
Qed.

Lemma run_no_lost_wake alg comp c zs ls :
  forall s m s',
    pool_inv alg comp s c zs m ->
    no_lost_wake (thr s) (idle_strm m) ->
    run comp ls s = Some s' ->
    exists m', pool_inv alg comp s' c zs m' /\ no_lost_wake (thr s') (idle_strm m').
Proof.
  induction ls as [|l ls IH]; intros s m s' Inv W H; simpl in H.
  - injection H as <-. eauto.
  - destruct (step comp l s) as [s1|] eqn:Hs; [|discriminate].
    destruct (step_no_lost_wake _ _ _ _ _ _ _ _ Inv W Hs) as (m1 & Inv1 & W1). eauto.
Qed.

(** X6. No wake-up is lost.  In every state the scheduler can reach,
    while some thread is asleep in the [wait_event] of
    [zcomp_strm_multi_find] either the idle list is empty or a thread
    that has just put a stream on it stands before its [wake_up]. *)
Theorem wait_event_misses_no_wake_up comp s m t :
  multi_reachable comp s ->
  pool_of comp (wd s) = Some m ->
  thr s !! t = Some Find_sleep ->
  idle_strm m = [] \/ exists u, thr s !! u = Some Rel_wake.
Proof.
  intros (compress & max & n & w & ls & s0 & Hmax & Hb & Hrun) Hm Ht.
  destruct (boot_pool_inv _ _ _ _ _ _ Hmax Hb) as (alg & c & zs & z & Inv0 & Hthr).
  assert (W0 : no_lost_wake (thr s0) (idle_strm (Zmulti max 1 [z])))
    by (rewrite Hthr; apply no_lost_wake_boot).
  destruct (run_no_lost_wake _ _ _ _ _ _ _ _ Inv0 W0 Hrun) as (m' & Inv & W).
  rewrite (inv_pool_of _ _ _ _ _ _ Inv) in Hm. injection Hm as <-.
  destruct W as [E|Hw]; [apply list_elem_of_lookup; eauto|now left|right].
  now apply list_elem_of_lookup in Hw.
Qed.

(** *** Round trips through the pool *)

Lemma put_pool_same w zs m :
  slab (hp w) !! zs = Some (KMulti m) -> put_pool zs m w = w.
Proof.
  intros H. unfold put_pool, set_slab. rewrite (insert_id _ _ _ H).
  destruct w as [h k]. simpl. now rewrite heap_eta.
Qed.

Lemma put_pool_put_pool w zs m m' :
  put_pool zs m (put_pool zs m' w) = put_pool zs m w.
Proof. unfold put_pool, set_slab. simpl. now rewrite insert_insert_eq. Qed.

(** X7. Taking a stream and putting it back is a round trip.  In a
    reachable state with no call in flight and a stream idle, a thread
    that calls [zcomp_stream_get] is given the stream at the head of the
    idle list without any allocation, and once it has called
    [zcomp_stream_put] memory and threads are exactly what they were. *)
Theorem get_then_put_is_a_round_trip comp s m t z rest :
  multi_reachable comp s ->
  pool_of comp (wd s) = Some m ->
  idle_strm m = z :: rest ->
  settled (thr s) = true ->
  thr s !! t = Some Out ->
  exists s1,
    run comp [Call_get t; Tick t] s = Some s1 /\
    thr s1 = <[t := Holding z]> (thr s) /\
    nreq (wd s1) = nreq (wd s) /\
    pool_of comp (wd s1) = Some (Zmulti (max_strm m) (avail_strm m) rest) /\
    run comp [Call_put t; Tick t; Tick t] s1 = Some s.
Proof.
  intros Hr Hm Hidle Hset Ht. pose proof (lookup_lt_Some _ _ _ Ht) as Hlt.
  destruct (reachable_pool_inv _ _ Hr) as (alg & c & zs & m0 & Inv).
  rewrite (inv_pool_of _ _ _ _ _ _ Inv) in Hm. injection Hm as ->.
  assert (Hle : avail_strm m <= max_strm m).
  { destruct (inv_room _ _ _ _ _ _ Inv) as [|E]; [assumption|]. congruence. }
  destruct (call_get_inv _ _ _ _ _ _ Inv t Ht) as (Hs1 & Inv1).
  set (sa := Sys (wd s) (<[t:=Find_top]> (thr s))) in *.
  assert (Hta : thr sa !! t = Some Find_top) by (simpl; now apply list_lookup_insert_eq).
  destruct (find_top_pop _ _ _ _ _ _ Inv1 t z rest Hta Hidle) as (Hs2 & Inv2).
  match type of Inv2 with pool_inv _ _ ?x _ _ ?y => set (sb := x) in *; set (mb := y) in * end.
  assert (Htb : thr sb !! t = Some (Holding z)).
  { simpl. apply list_lookup_insert_eq. now rewrite length_insert. }
  exists sb. split; [now rewrite (run_cons _ _ _ _ _ Hs1), (run_cons _ _ _ _ _ Hs2)|].
  split; [simpl; now rewrite list_insert_insert_eq|].
  split; [reflexivity|].
  split; [apply (inv_pool_of _ _ _ _ _ _ Inv2)|].
  destruct (call_put_inv _ _ _ _ _ _ Inv2 t z Htb) as (Hs3 & Inv3).
  set (sc := Sys (wd sb) (<[t:=Rel_top z]> (thr sb))) in *.
  assert (Htc : thr sc !! t = Some (Rel_top z)).
  { simpl. apply list_lookup_insert_eq. now rewrite !length_insert. }
  destruct (rel_top_idle _ _ _ _ _ _ Inv3 t z Htc Hle) as (Hs4 & Inv4).
  match type of Inv4 with pool_inv _ _ ?x _ _ _ => set (sd := x) in * end.
  assert (Htd : thr sd !! t = Some Rel_wake).
  { simpl. apply list_lookup_insert_eq. now rewrite !length_insert. }
  destruct (rel_wake_inv _ _ _ _ _ _ Inv4 t Htd) as (Hs5 & _).
  rewrite (run_cons _ _ _ _ _ Hs3), (run_cons _ _ _ _ _ Hs4), (run_cons _ _ _ _ _ Hs5).
  simpl. f_equal. destruct s as [w ts]. simpl in *. f_equal.
  - rewrite put_pool_put_pool. unfold mb. simpl. rewrite <- Hidle.
    replace (Zmulti (max_strm m) (avail_strm m) (idle_strm m)) with m by now destruct m.
    apply put_pool_same. apply (inv_pool _ _ _ _ _ _ Inv).
  - rewrite !list_insert_insert_eq. unfold wake_up. rewrite list_fmap_insert.
    fold (wake_up ts). rewrite (wake_up_settled _ Hset).
    rewrite list_insert_insert_eq. now apply list_insert_id.
Qed.


(** *** Setting the limit twice *)

Lemma free_idle_above_done n idle avail w :
  avail <= n \/ idle = [] ->
  free_idle_above n idle avail w = Some ((idle, avail), w).
Proof.
  intros [Hle| ->]; [|reflexivity]. destruct idle as [|z idle]; [reflexivity|].
  simpl. destruct (Z.gtb_spec avail n); [lia|reflexivity].
Qed.

(** X9. Setting the limit a second time to the same value changes
    nothing: whatever [zcomp_strm_multi_set_max_streams] could free it
    has freed at the first call. *)
Theorem zcomp_set_max_streams_twice comp s n s1 :
  multi_reachable comp s ->
  step comp (Call_set_max n) s = Some s1 ->
  zcomp_set_max_streams comp n (wd s1) = Some (true, wd s1) /\
  step comp (Call_set_max n) s1 = Some s1.
Proof.
  intros Hr Hs.
  destruct (reachable_pool_inv _ _ Hr) as (alg & c & zs & m & Inv).
  assert (Hn : is_int n).
  { unfold step in Hs. destruct (decide (is_int n)); [assumption|].
    rewrite bool_decide_false in Hs by assumption. discriminate. }
  pose proof (inv_avail_nonneg _ _ _ _ _ _ Inv) as Hnn.
  destruct (set_max_inv _ _ _ _ _ _ Inv n Hn) as (w' & _ & Hs' & Inv1 & _).
  rewrite Hs' in Hs. injection Hs as <-.
  match type of Inv1 with pool_inv _ _ ?x _ _ ?y => set (s1 := x) in *; set (m1 := y) in * end.
  assert (Hdone : avail_strm m1 <= n \/ idle_strm m1 = []).
  { destruct (inv_room _ _ _ _ _ _ Inv1) as [H|H]; [left; exact H|now right]. }
  assert (Hcall : zcomp_set_max_streams comp n (wd s1) = Some (true, wd s1)).
  { destruct (inv_ops _ _ _ _ _ _ Inv1) as (_ & _ & Hsm & _).
    unfold zcomp_set_max_streams.
    rewrite (bind_Some _ _ _ _ _ (load_comp_Some _ _ _ (inv_comp _ _ _ _ _ _ Inv1))), Hsm.
    unfold zcomp_strm_multi_set_max_streams.
    rewrite (bind_Some _ _ _ _ _ (inv_multi_of _ _ _ _ _ _ Inv1)).
    rewrite (bind_Some _ _ _ _ _ (free_idle_above_done n _ _ _ Hdone)).
    rewrite (bind_Some _ _ _ _ _ (inv_store _ _ _ _ _ _ Inv1 _)).
    unfold ret. f_equal. f_equal.
    replace (Zmulti n (avail_strm m1) (idle_strm m1)) with m1 by reflexivity.
    apply put_pool_same. apply (inv_pool _ _ _ _ _ _ Inv1). }
  split; [exact Hcall|].
  unfold step. rewrite bool_decide_true by exact Hn. rewrite Hcall. reflexivity.
Qed.

Lemma within_limit_move max s m m' t p q ts' w' :
  within_limit max s m ->
  thr s !! t = Some p ->
  ts' = <[t:=q]> (thr s) ->
  (forall z, q <> Rel_free z) ->
  max_strm m' = max_strm m ->
  avail_strm m' <= max ->
  (length (idle_strm m ++ owned (thr s)) <= length (idle_strm m' ++ owned ts'))%nat ->
  within_limit max (Sys w' ts') m'.
Proof.
  intros (Hmax & Hav & Hlen & Hfree) Ht -> Hq Hm Ha Hl.
  split; [congruence|]. split; [exact Ha|]. split; [simpl; lia|].
  intros u z. simpl. rewrite list_lookup_insert. case_decide.
  - intros [= E]. now apply (Hq z).
  - apply Hfree.
Qed.

Lemma step_within_limit max alg comp s c zs m l s' :
  pool_inv alg comp s c zs m ->
  within_limit max s m ->
  is_set_max l = false ->
  step comp l s = Some s' ->
  exists m', pool_inv alg comp s' c zs m' /\ within_limit max s' m'.
Proof.
  intros Inv W Hl H. pose proof W as (Hmax & Hav & Hlen & Hfree).
  destruct l as [t|t|n|t]; [| |discriminate|].
  - destruct (thr s !! t) as [p|] eqn:Ht; [|unfold step in H; rewrite Ht in H; discriminate].
    destruct p as [|z0| | | | | |z0| |z0]; try (unfold step in H; rewrite Ht in H; discriminate).
    destruct (call_get_inv _ _ _ _ _ _ Inv t Ht) as (Hs & Hi).
    rewrite Hs in H. injection H as <-. exists m. split; [exact Hi|].
    apply (within_limit_move _ _ _ _ _ _ _ _ _ W Ht eq_refl);
      [intros; discriminate|reflexivity|simpl; lia|].
    now rewrite (owned_insert_same _ _ _ _ Ht).
  - destruct (thr s !! t) as [p|] eqn:Ht; [|unfold step in H; rewrite Ht in H; discriminate].
    destruct p as [|z0| | | | | |z0| |z0]; try (unfold step in H; rewrite Ht in H; discriminate).
    destruct (call_put_inv _ _ _ _ _ _ Inv t _ Ht) as (Hs & Hi).
    rewrite Hs in H. injection H as <-. exists m. split; [exact Hi|].
    apply (within_limit_move _ _ _ _ _ _ _ _ _ W Ht eq_refl);
      [intros; discriminate|reflexivity|simpl; lia|].
    now rewrite (owned_insert_same _ _ _ _ Ht).
  - destruct (thr s !! t) as [p|] eqn:Ht; [|unfold step in H; rewrite Ht in H; discriminate].
    destruct p as [|z0| | | | | |z0| |z0]; try (unfold step in H; rewrite Ht in H; discriminate).
    + destruct (idle_strm m) as [|z rest] eqn:Hidle.
      * destruct (Z.lt_ge_cases (avail_strm m) (max_strm m)).
        -- destruct (find_top_grow _ _ _ _ _ _ Inv t Ht Hidle ltac:(assumption)) as (Hs & Hi).
           rewrite Hs in H. injection H as <-. eexists. split; [exact Hi|].
           apply (within_limit_move _ _ _ _ _ _ _ _ _ W Ht eq_refl); simpl;
             [intros; discriminate|reflexivity|lia|].
           now rewrite Hidle, (owned_insert_same _ _ _ _ Ht).
        -- destruct (find_top_full _ _ _ _ _ _ Inv t Ht Hidle ltac:(assumption)) as (Hs & Hi).
           rewrite Hs in H. injection H as <-. exists m. split; [exact Hi|].
           apply (within_limit_move _ _ _ _ _ _ _ _ _ W Ht eq_refl);
      [intros; discriminate|reflexivity|simpl; lia|].
           now rewrite (owned_insert_same _ _ _ _ Ht).
      * destruct (find_top_pop _ _ _ _ _ _ Inv t z rest Ht Hidle) as (Hs & Hi).
        rewrite Hs in H. injection H as <-. eexists. split; [exact Hi|].
        apply (within_limit_move _ _ _ _ _ _ _ _ _ W Ht eq_refl); simpl;
          [intros; discriminate|reflexivity|lia|].
        rewrite Hidle, !length_app.
        rewrite (Permutation_length (owned_insert_take _ _ _ (Holding z) z Ht eq_refl eq_refl)).
        simpl. lia.
    + destruct (find_wait_inv _ _ _ _ _ _ Inv t Ht) as (Hs & Hi).
      rewrite Hs in H. injection H as <-. exists m. split; [exact Hi|].
      apply (within_limit_move _ _ _ _ _ _ _ _ _ W Ht eq_refl);
        [|reflexivity|simpl; lia|].
      * intros z0. now destruct (idle_strm m).
      * rewrite (owned_insert_same _ _ _ _ Ht); [reflexivity|]. now destruct (idle_strm m).
    + destruct (find_alloc_inv _ _ _ _ _ _ Inv t Ht) as (r & w' & _ & Hs & Hi & _).
      rewrite Hs in H. injection H as <-. exists m. split; [exact Hi|].
      apply (within_limit_move _ _ _ _ _ _ _ _ _ W Ht eq_refl);
        [|reflexivity|simpl; lia|].
      * intros z0. now destruct r.
      * destruct r as [z|].
        -- rewrite !length_app.
           rewrite (Permutation_length (owned_insert_take _ _ _ (Holding z) z Ht eq_refl eq_refl)).
           simpl. lia.
        -- now rewrite (owned_insert_same _ _ _ _ Ht).
    + destruct (find_undo_inv _ _ _ _ _ _ Inv t Ht) as (Hs & Hi & _).
      rewrite Hs in H. injection H as <-. eexists. split; [exact Hi|].
      apply (within_limit_move _ _ _ _ _ _ _ _ _ W Ht eq_refl); simpl;
        [intros; discriminate|reflexivity|lia|].
      now rewrite (owned_insert_same _ _ _ _ Ht).
    + destruct (rel_top_idle _ _ _ _ _ _ Inv t _ Ht ltac:(lia)) as (Hs & Hi).
      rewrite Hs in H. injection H as <-. eexists. split; [exact Hi|].
      apply (within_limit_move _ _ _ _ _ _ _ _ _ W Ht eq_refl); simpl;
        [intros; discriminate|reflexivity|lia|].
      rewrite !length_app.
      rewrite <- (Permutation_length (owned_insert_give _ _ _ Rel_wake z0 Ht eq_refl eq_refl)).
      simpl. lia.
    + destruct (rel_wake_inv _ _ _ _ _ _ Inv t Ht) as (Hs & Hi).
      rewrite Hs in H. injection H as <-. exists m. split; [exact Hi|].
      assert (Hw : wake_up (thr s) !! t = Some Rel_wake)
        by (rewrite wake_up_lookup, Ht; reflexivity).
      split; [exact Hmax|]. split; [exact Hav|]. split.
      * simpl. rewrite (owned_insert_same _ _ _ _ Hw) by reflexivity.
        now rewrite owned_wake_up.
      * intros u z. simpl. rewrite list_lookup_insert. case_decide; [discriminate|].
        rewrite wake_up_lookup. destruct (thr s !! u) as [p|] eqn:Hu; [|discriminate].
        simpl. intros [= E]. apply (Hfree u z). rewrite Hu. f_equal.
        destruct p; simpl in E; congruence.
    + now destruct (Hfree t z0).
Qed.

Lemma run_within_limit max alg comp c zs ls :
  forall s m s',
    pool_inv alg comp s c zs m ->
    within_limit max s m ->
    limit_untouched ls = true ->
    run comp ls s = Some s' ->
    exists m', pool_inv alg comp s' c zs m' /\ within_limit max s' m'.
Proof.
  induction ls as [|l ls IH]; intros s m s' Inv W Hls H; simpl in H.
  - injection H as <-. eauto.
  - destruct (step comp l s) as [s1|] eqn:Hs; [|discriminate].
    simpl in Hls. apply andb_prop in Hls as (Hl & Hls).
    apply negb_true_iff in Hl.
    destruct (step_within_limit _ _ _ _ _ _ _ _ _ Inv W Hl Hs) as (m1 & Inv1 & W1). eauto.
Qed.

(** X10. A pool whose limit is left alone stays within it and never
    frees a stream.  In every state reached from [zcomp_create] by a
    schedule without [zcomp_set_max_streams], [max_strm] is the value
    given to [zcomp_create], [avail_strm] is at most that, no thread is
    about to free a stream and at least one stream exists, idle or in
    the hands of a thread. *)
Theorem pool_stays_within_its_limit compress max n w comp s0 ls s :
  1 < max <= INT_MAX ->
  boot compress max n w = Some (comp, s0) ->
  limit_untouched ls = true ->
  run comp ls s0 = Some s ->
  exists m,
    pool_of comp (wd s) = Some m /\
    max_strm m = max /\
    1 <= avail_strm m <= max /\
    (1 <= length (idle_strm m ++ owned (thr s)))%nat /\
    (forall t z, thr s !! t <> Some (Rel_free z)).
Proof.
  intros Hmax Hb Hls Hrun.
  destruct (boot_pool_inv _ _ _ _ _ _ Hmax Hb) as (alg & c & zs & z & Inv0 & Hthr).
  assert (W0 : within_limit max s0 (Zmulti max 1 [z])).
  { split; [reflexivity|]. split; [simpl; lia|]. split; [simpl; lia|].
    intros t z'. rewrite Hthr. intros (E & _)%lookup_replicate. discriminate. }
  destruct (run_within_limit _ _ _ _ _ _ _ _ _ Inv0 W0 Hls Hrun) as (m & Inv & W).
  exists m. split; [apply (inv_pool_of _ _ _ _ _ _ Inv)|].
  destruct W as (H1 & H2 & H3 & H4). split; [exact H1|].
  split; [|split; [exact H3|exact H4]]. split; [|exact H2].
  pose proof (inv_count _ _ _ _ _ _ Inv) as Hc.
  rewrite length_app in H3.
  assert (Hsl : Z.of_nat (length (owned (thr s))) <= slots (thr s)).
  { clear -H4. induction (thr s) as [|p ts IH]; [simpl; lia|].
    assert (IH' : Z.of_nat (length (owned ts)) <= slots ts).
    { apply IH. intros t z. apply (H4 (S t) z). }
    specialize (H4 0%nat). simpl in H4.
    unfold owned in *. csimpl. destruct p as [|z0| | | | | |z0| |z0]; simpl; try lia.
    now destruct (H4 z0). }
  lia.
Qed.

(** *** Filling a fresh pool *)

Lemma pop_one alg comp s c zs m t z rest :
  pool_inv alg comp s c zs m ->
  idle_strm m = z :: rest ->
  thr s !! t = Some Out ->
  exists s',
    run comp [Call_get t; Tick t] s = Some s' /\
    pool_inv alg comp s' c zs (Zmulti (max_strm m) (avail_strm m) rest) /\
    thr s' = <[t := Holding z]> (thr s).
Proof.
  intros Inv Hidle Ht. pose proof (lookup_lt_Some _ _ _ Ht) as Hlt.
  destruct (call_get_inv _ _ _ _ _ _ Inv t Ht) as (Hs1 & Inv1).
  set (s1 := Sys (wd s) (<[t:=Find_top]> (thr s))) in *.
  assert (Ht1 : thr s1 !! t = Some Find_top) by (simpl; now apply list_lookup_insert_eq).
  destruct (find_top_pop _ _ _ _ _ _ Inv1 t z rest Ht1 Hidle) as (Hs2 & Inv2).
  eexists. rewrite (run_cons _ _ _ _ _ Hs1), (run_cons _ _ _ _ _ Hs2).
  split; [reflexivity|]. split; [exact Inv2|].
  simpl. now rewrite list_insert_insert_eq.
Qed.

Lemma grow_one alg comp s c zs m t :
  pool_inv alg comp s c zs m ->
  (forall i, alloc_ok i = true) ->
  idle_strm m = [] ->
  avail_strm m < max_strm m ->
  thr s !! t = Some Out ->
  exists z s',
    run comp (grow t) s = Some s' /\
    pool_inv alg comp s' c zs (Zmulti (max_strm m) (avail_strm m + 1) []) /\
    thr s' = <[t := Holding z]> (thr s).
Proof.
  intros Inv Hall Hidle Hroom Ht. pose proof (lookup_lt_Some _ _ _ Ht) as Hlt.
  destruct (call_get_inv _ _ _ _ _ _ Inv t Ht) as (Hs1 & Inv1).
  set (s1 := Sys (wd s) (<[t:=Find_top]> (thr s))) in *.
  assert (Ht1 : thr s1 !! t = Some Find_top) by (simpl; now apply list_lookup_insert_eq).
  destruct (find_top_grow _ _ _ _ _ _ Inv1 t Ht1 Hidle Hroom) as (Hs2 & Inv2).
  match type of Inv2 with pool_inv _ _ ?x _ _ ?y => set (s2 := x) in *; set (m2 := y) in * end.
  assert (Ht2 : thr s2 !! t = Some Find_alloc).
  { simpl. apply list_lookup_insert_eq. now rewrite length_insert. }
  destruct (find_alloc_inv _ _ _ _ _ _ Inv2 t Ht2) as (r & w' & Ha & Hs3 & Inv3 & _).
  rewrite (zcomp_strm_alloc_eq comp _ c alg (wd s2)
             (inv_comp _ _ _ _ _ _ Inv2) (inv_name _ _ _ _ _ _ Inv2)) in Ha.
  unfold strm_alloc_outcome in Ha. rewrite !Hall in Ha. simpl in Ha.
  injection Ha as <- <-.
  eexists _, _. unfold grow.
  rewrite (run_cons _ _ _ _ _ Hs1), (run_cons _ _ _ _ _ Hs2), (run_cons _ _ _ _ _ Hs3).
  split; [reflexivity|]. split; [exact Inv3|].
  simpl. now rewrite !list_insert_insert_eq.
Qed.

Lemma fill_S k : (1 <= k)%nat -> fill (S k) = fill k ++ grow k.
Proof.
  intros Hk. unfold fill. replace (S k - 1)%nat with (S (k - 1)) by lia.
  rewrite seq_S, flat_map_app.
  replace (1 + (k - 1))%nat with k by lia.
  cbn [flat_map]. rewrite app_nil_r. now rewrite app_assoc.
Qed.

(** After [fill k] the first [k] threads hold a stream each, nothing is
    idle and [avail_strm] is [k]. *)
Lemma fill_eq alg comp c zs max z0 s0 n :
  pool_inv alg comp s0 c zs (Zmulti max 1 [z0]) ->
  (forall i, alloc_ok i = true) ->
  thr s0 = replicate n Out ->
  forall k, (1 <= k)%nat -> Z.of_nat k <= max -> (k <= n)%nat ->
    exists s,
      run comp (fill k) s0 = Some s /\
      pool_inv alg comp s c zs (Zmulti max (Z.of_nat k) []) /\
      length (thr s) = n /\
      thr s !! 0%nat = Some (Holding z0) /\
      (forall t, (t < k)%nat -> exists z, thr s !! t = Some (Holding z)) /\
      (forall t, (k <= t < n)%nat -> thr s !! t = Some Out).
Proof.
  intros Inv0 Hall Hthr. induction k as [|k IH]; intros Hk Hmax Hn; [lia|].
  destruct (decide (k = 0%nat)) as [->|Hk0].
  - assert (Ht : thr s0 !! 0%nat = Some Out)
      by (rewrite Hthr; apply lookup_replicate; split; [reflexivity|lia]).
    destruct (pop_one _ _ _ _ _ _ 0%nat z0 [] Inv0 eq_refl Ht) as (s & Hrun & Inv & Ets).
    exists s. split; [exact Hrun|]. split; [exact Inv|].
    rewrite Ets, Hthr.
    split; [now rewrite length_insert, length_replicate|].
    split; [apply list_lookup_insert_eq; rewrite length_replicate; lia|]. split.
    + intros t Ht'. assert (t = 0%nat) as -> by lia. exists z0.
      apply list_lookup_insert_eq. rewrite length_replicate. lia.
    + intros t Ht'. rewrite list_lookup_insert_ne by lia.
      apply lookup_replicate. split; [reflexivity|lia].
  - destruct (IH ltac:(lia) ltac:(lia) ltac:(lia))
      as (s & Hrun & Inv & Hlen & H0 & Hheld & Hout).
    assert (Ht : thr s !! k = Some Out) by (apply Hout; lia).
    destruct (grow_one _ _ _ _ _ _ k Inv Hall eq_refl ltac:(simpl; lia) Ht)
      as (z & s' & Hrun' & Inv' & Ets).
    exists s'. split.
    { rewrite (fill_S k) by lia. rewrite run_app, Hrun. exact Hrun'. }
    split.
    { simpl in Inv'. replace (Z.of_nat (S k)) with (Z.of_nat k + 1) by lia. exact Inv'. }
    rewrite Ets. split; [now rewrite length_insert|].
    split; [rewrite list_lookup_insert_ne by lia; exact H0|]. split.
    + intros t Ht'. destruct (decide (t = k)) as [->|Hne].
      * exists z. apply list_lookup_insert_eq. lia.
      * rewrite list_lookup_insert_ne by congruence. apply Hheld. lia.
    + intros t Ht'. rewrite list_lookup_insert_ne by lia. apply Hout. lia.
Qed.

(** X11. A fresh pool of limit [max] serves [max] callers without making
    any of them wait, and makes the next one wait for a release.  When
    memory is granted, after [max] threads have called
    [zcomp_stream_get] each of them holds a stream; the thread that
    calls next goes to sleep without changing memory; and when thread 0
    puts its stream back the sleeper is woken and is given that stream. *)
Theorem fresh_pool_serves_max_callers compress max n w comp s0 :
  1 < max <= INT_MAX ->
  (forall i, alloc_ok i = true) ->
  boot compress max n w = Some (comp, s0) ->
  (Z.to_nat max < n)%nat ->
  let k := Z.to_nat max in
  exists s s' s'' z,
    run comp (fill k) s0 = Some s /\
    (forall t, (t < k)%nat -> exists z', thr s !! t = Some (Holding z')) /\
    pool_of comp (wd s) = Some (Zmulti max max []) /\
    run comp [Call_get k; Tick k; Tick k] s = Some s' /\
    thr s' !! k = Some Find_sleep /\
    wd s' = wd s /\
    thr s' !! 0%nat = Some (Holding z) /\
    run comp [Call_put 0; Tick 0; Tick 0; Tick k; Tick k] s' = Some s'' /\
    thr s'' !! k = Some (Holding z).
Proof.
  intros Hmax Hall Hb Hn k.
  destruct (boot_pool_inv _ _ _ _ _ _ Hmax Hb) as (alg & c & zs & z0 & Inv0 & Hthr).
  destruct (fill_eq _ _ _ _ _ _ _ _ Inv0 Hall Hthr k ltac:(lia) ltac:(lia) ltac:(lia))
    as (s & Hrun & Inv & Hlen & H0 & Hheld & Hout).
  replace (Z.of_nat k) with max in Inv by lia.
  assert (Hk : thr s !! k = Some Out) by (apply Hout; lia).
  assert (Hk0 : k <> 0%nat) by lia.
  (* the next caller *)
  destruct (call_get_inv _ _ _ _ _ _ Inv k Hk) as (Hs1 & Inv1).
  set (s1 := Sys (wd s) (<[k:=Find_top]> (thr s))) in *.
  assert (Hk1 : thr s1 !! k = Some Find_top)
    by (simpl; apply list_lookup_insert_eq; lia).
  destruct (find_top_full _ _ _ _ _ _ Inv1 k Hk1 eq_refl ltac:(simpl; lia)) as (Hs2 & Inv2).
  match type of Inv2 with pool_inv _ _ ?x _ _ _ => set (s2 := x) in * end.
  assert (Hk2 : thr s2 !! k = Some Find_wait).
  { simpl. apply list_lookup_insert_eq. rewrite length_insert. lia. }
  destruct (find_wait_inv _ _ _ _ _ _ Inv2 k Hk2) as (Hs3 & Inv3).
  cbn [idle_strm] in Hs3, Inv3.
  match type of Inv3 with pool_inv _ _ ?x _ _ _ => set (s3 := x) in * end.
  assert (Hk3 : thr s3 !! k = Some Find_sleep).
  { simpl. apply list_lookup_insert_eq. rewrite !length_insert. lia. }
  assert (H03 : thr s3 !! 0%nat = Some (Holding z0)).
  { simpl. now rewrite !list_lookup_insert_ne by lia. }
  (* thread 0 puts its stream back *)
  destruct (call_put_inv _ _ _ _ _ _ Inv3 0%nat z0 H03) as (Hs4 & Inv4).
  match type of Inv4 with pool_inv _ _ ?x _ _ _ => set (s4 := x) in * end.
  assert (H04 : thr s4 !! 0%nat = Some (Rel_top z0)).
  { simpl. apply list_lookup_insert_eq. rewrite !length_insert. lia. }
  destruct (rel_top_idle _ _ _ _ _ _ Inv4 0%nat z0 H04 ltac:(simpl; lia)) as (Hs5 & Inv5).
  match type of Inv5 with pool_inv _ _ ?x _ _ _ => set (s5 := x) in * end.
  assert (H05 : thr s5 !! 0%nat = Some Rel_wake).
  { simpl. apply list_lookup_insert_eq. rewrite !length_insert. lia. }
  destruct (rel_wake_inv _ _ _ _ _ _ Inv5 0%nat H05) as (Hs6 & Inv6).
  match type of Inv6 with pool_inv _ _ ?x _ _ _ => set (s6 := x) in * end.
  assert (Hk6 : thr s6 !! k = Some Find_wait).
  { simpl. rewrite list_lookup_insert_ne by lia. rewrite wake_up_lookup.
    rewrite !(list_lookup_insert_ne _ 0%nat k) by lia.
    rewrite list_lookup_insert_eq by (rewrite !length_insert; lia). reflexivity. }
  destruct (find_wait_inv _ _ _ _ _ _ Inv6 k Hk6) as (Hs7 & Inv7).
  cbn [idle_strm] in Hs7, Inv7.
  match type of Inv7 with pool_inv _ _ ?x _ _ _ => set (s7 := x) in * end.
  assert (Hk7 : thr s7 !! k = Some Find_top).
  { simpl. apply list_lookup_insert_eq. rewrite length_insert.
    unfold wake_up. rewrite length_fmap, !length_insert. lia. }
  destruct (find_top_pop _ _ _ _ _ _ Inv7 k z0 [] Hk7 eq_refl) as (Hs8 & Inv8).
  match type of Inv8 with pool_inv _ _ ?x _ _ _ => set (s8 := x) in * end.
  exists s, s3, s8, z0.
  split; [exact Hrun|]. split; [exact Hheld|].
  split; [apply (inv_pool_of _ _ _ _ _ _ Inv)|].
  split; [now rewrite (run_cons _ _ _ _ _ Hs1), (run_cons _ _ _ _ _ Hs2),
            (run_cons _ _ _ _ _ Hs3)|].
  split; [exact Hk3|]. split; [reflexivity|]. split; [exact H03|].
  split; [now rewrite (run_cons _ _ _ _ _ Hs4), (run_cons _ _ _ _ _ Hs5),
            (run_cons _ _ _ _ _ Hs6), (run_cons _ _ _ _ _ Hs7), (run_cons _ _ _ _ _ Hs8)|].
  simpl. apply list_lookup_insert_eq. rewrite !length_insert.
  unfold wake_up. rewrite length_fmap, !length_insert. lia.
Qed.

(** ** The single-stream pool *)

Lemma heap_ext (h h' : heap) :
  slab h = slab h' -> crypto h = crypto h' -> pages h = pages h' -> h = h'.
Proof. destruct h, h'. simpl. now intros -> -> ->. Qed.

Section SINGLE.

Variables (h0 : heap) (k0 n : nat) (alg : string) (comp : addr) (s : sys)
          (zs z t b : addr) (blk : page_block) (holder : option nat).
Hypothesis Inv : single_inv h0 k0 n alg comp s zs z t b blk holder.

Lemma sinv_load_comp :
  slab (hp (wd s)) !! comp = Some (KComp (created_zcomp alg zs 1)).
Proof.
  destruct Inv. destruct sinv_ne0 as (? & ? & ?). rewrite sinv_heap0.
  unfold single_heap, with_strm. simpl.
  rewrite !lookup_insert_ne by congruence. apply lookup_insert_eq.
Qed.

Lemma sinv_load_single :
  slab (hp (wd s)) !! zs = Some (KSingle (Zsingle (bool_decide (is_Some holder)) (Some z))).
Proof.
  destruct Inv. destruct sinv_ne0 as (? & ? & ?). rewrite sinv_heap0.
  unfold single_heap, with_strm. simpl.
  rewrite lookup_insert_ne by congruence. apply lookup_insert_eq.
Qed.

Lemma created_single alg' zs' :
  single_ops (created_zcomp alg' zs' 1) /\ stream (created_zcomp alg' zs' 1) = Some zs'.
Proof. repeat split. Qed.

Lemma sinv_single_of :
  single_of comp (wd s)
  = Some ((zs, Zsingle (bool_decide (is_Some holder)) (Some z)), wd s).
Proof.
  unfold single_of.
  rewrite (bind_Some _ _ _ _ _ (load_comp_Some _ _ _ sinv_load_comp)).
  rewrite (proj2 (created_single alg zs)).
  now rewrite (bind_Some _ _ _ _ _ (load_single_Some _ _ _ sinv_load_single)).
Qed.

Lemma sinv_live : strm_live (hp (wd s)) alg z t b blk.
Proof.
  destruct Inv. destruct sinv_blk0. rewrite sinv_heap0. now apply with_strm_live.
Qed.

(** Storing the mutex state [lk]. *)
Lemma sinv_store lk :
  store zs (KSingle (Zsingle lk (Some z))) (wd s)
  = Some (tt, World (single_heap h0 alg comp zs z t b blk lk) (nreq (wd s))).
Proof.
  rewrite (store_Some _ _ _ _ sinv_load_single). f_equal. f_equal.
  destruct Inv. destruct sinv_ne0 as (? & ? & ?).
  unfold set_slab. rewrite sinv_heap0. unfold single_heap, with_strm. simpl.
  f_equal. f_equal. map_norm.
Qed.

Lemma single_thr_lookup u p :
  thr s !! u = Some p ->
  (u < n)%nat /\ (p = Out /\ holder <> Some u \/ p = Holding z /\ holder = Some u).
Proof.
  destruct Inv. rewrite sinv_thr0. unfold single_thr. intros H.
  destruct holder as [v|].
  - destruct (decide (v = u)) as [->|Hne].
    + assert (Hlt : (u < n)%nat) by now apply sinv_holder0.
      rewrite list_lookup_insert_eq in H by now rewrite length_replicate.
      injection H as <-. auto.
    + rewrite list_lookup_insert_ne in H by exact Hne.
      apply lookup_replicate in H as (-> & ?). split; [assumption|].
      left. split; [reflexivity|congruence].
  - apply lookup_replicate in H as (-> & ?). split; [assumption|]. left. now split.
Qed.

(** [zcomp_stream_get]: [mutex_lock] admits a caller only when nobody
    holds the stream. *)
Lemma single_get u :
  thr s !! u = Some Out ->
  (is_Some holder -> step comp (Call_get u) s = None) /\
  (holder = None ->
   let s' := Sys (World (single_heap h0 alg comp zs z t b blk true) (nreq (wd s)))
                 (<[u := Holding z]> (thr s)) in
   step comp (Call_get u) s = Some s' /\
   single_inv h0 k0 n alg comp s' zs z t b blk (Some u)).
Proof.
  intros Hu. destruct (single_thr_lookup _ _ Hu) as (Hlt & _).
  destruct (created_single alg zs) as ((Hf & _) & _).
  unfold step. rewrite Hu. unfold zcomp_stream_get.
  rewrite (bind_Some _ _ _ _ _ (load_comp_Some _ _ _ sinv_load_comp)), Hf.
  split.
  - intros Hh.
    assert (Hg : zcomp_strm_single_find comp (wd s) = Some (None, wd s)).
    { unfold zcomp_strm_single_find.
      rewrite (bind_Some _ _ _ _ _ sinv_single_of). cbn [strm_lock zstrm].
      now rewrite bool_decide_true by exact Hh. }
    now rewrite (bind_Some _ _ _ _ _ Hg).
  - intros Hh.
    assert (Hg : zcomp_strm_single_find comp (wd s)
                 = Some (Some z, World (single_heap h0 alg comp zs z t b blk true)
                                       (nreq (wd s)))).
    { unfold zcomp_strm_single_find.
      rewrite (bind_Some _ _ _ _ _ sinv_single_of). cbn [strm_lock zstrm].
      rewrite bool_decide_false by (rewrite Hh; intros [? ?]; discriminate).
      now rewrite (bind_Some _ _ _ _ _ (sinv_store true)). }
    rewrite (bind_Some _ _ _ _ _ Hg).
    simpl. split; [reflexivity|].
    destruct Inv. constructor; simpl; auto.
    + rewrite sinv_thr0, Hh. reflexivity.
    + intros ? [= <-]. exact Hlt.
Qed.

Lemma single_get_held :
  is_Some holder -> zcomp_stream_get comp (wd s) = Some (None, wd s).
Proof.
  intros Hh. destruct (created_single alg zs) as ((Hf & _) & _).
  unfold zcomp_stream_get.
  rewrite (bind_Some _ _ _ _ _ (load_comp_Some _ _ _ sinv_load_comp)), Hf.
  assert (Hg : zcomp_strm_single_find comp (wd s) = Some (None, wd s)).
  { unfold zcomp_strm_single_find.
    rewrite (bind_Some _ _ _ _ _ sinv_single_of). cbn [strm_lock zstrm].
    now rewrite bool_decide_true by exact Hh. }
  now rewrite (bind_Some _ _ _ _ _ Hg).
Qed.

(** [zcomp_stream_put]: [mutex_unlock]. *)
Lemma single_put u z' :
  thr s !! u = Some (Holding z') ->
  let s' := Sys (World (single_heap h0 alg comp zs z t b blk false) (nreq (wd s)))
                (replicate n Out) in
  z' = z /\ holder = Some u /\
  step comp (Call_put u) s = Some s' /\
  single_inv h0 k0 n alg comp s' zs z t b blk None.
Proof.
  intros Hu s'. destruct (single_thr_lookup _ _ Hu) as (Hlt & [(? & _)|(Hz & Hh)]);
    [discriminate|].
  injection Hz as ->. split; [reflexivity|]. split; [exact Hh|].
  split.
  - destruct (created_single alg zs) as ((_ & Hrel & _) & _).
    unfold step. rewrite Hu. unfold zcomp_stream_put.
    rewrite (bind_Some _ _ _ _ _ (load_comp_Some _ _ _ sinv_load_comp)), Hrel.
    assert (Hr : zcomp_strm_single_release comp z (wd s)
                 = Some (tt, World (single_heap h0 alg comp zs z t b blk false) (nreq (wd s)))).
    { unfold zcomp_strm_single_release.
      rewrite (bind_Some _ _ _ _ _ sinv_single_of). apply sinv_store. }
    rewrite (bind_Some _ _ _ _ _ Hr). simpl. unfold s'. f_equal. f_equal.
    destruct Inv. rewrite sinv_thr0, Hh. unfold single_thr.
    rewrite list_insert_insert_eq. apply list_insert_id.
    apply lookup_replicate. auto.
  - destruct Inv. constructor; simpl; auto. discriminate.
Qed.

Lemma single_set_max num :
  is_int num ->
  zcomp_set_max_streams comp num (wd s) = Some (false, wd s) /\
  step comp (Call_set_max num) s = Some s.
Proof.
  intros Hn.
  assert (H : zcomp_set_max_streams comp num (wd s) = Some (false, wd s)).
  { destruct (created_single alg zs) as ((_ & _ & Hsm & _) & _).
    unfold zcomp_set_max_streams.
    now rewrite (bind_Some _ _ _ _ _ (load_comp_Some _ _ _ sinv_load_comp)), Hsm. }
  split; [exact H|]. unfold step. rewrite bool_decide_true by exact Hn. rewrite H.
  now destruct s.
Qed.

Lemma single_tick u : step comp (Tick u) s = None.
Proof.
  unfold step. destruct (thr s !! u) as [p|] eqn:Hu; [|reflexivity].
  destruct (single_thr_lookup _ _ Hu) as (_ & [(-> & _)|(-> & _)]); reflexivity.
Qed.

(** [zcomp_destroy] on a single-stream pool. *)
Lemma single_destroy :
  exists w', zcomp_destroy comp (wd s) = Some (tt, w') /\ hp w' = h0 /\ nreq w' = nreq (wd s).
Proof.
  pose proof sinv_live as L. destruct Inv. destruct sinv_ne0 as (? & ? & ?).
  set (w1 := World (without_strm (hp (wd s)) z t b) (nreq (wd s))).
  assert (Hzs : slab (hp w1) !! zs = Some (KSingle (Zsingle (bool_decide (is_Some holder)) (Some z)))).
  { simpl. rewrite lookup_delete_ne by congruence. apply sinv_load_single. }
  assert (Hsd : zcomp_strm_single_destroy comp (wd s) = Some (tt, set_slab (delete zs) w1)).
  { unfold zcomp_strm_single_destroy.
    rewrite (bind_Some _ _ _ _ _ sinv_single_of). cbn [zstrm].
    rewrite (bind_Some _ _ _ _ _ (zcomp_strm_free_live _ _ _ _ _ _ L)).
    apply (kfree_Some _ _ _ Hzs). }
  assert (Hc : slab (hp (set_slab (delete zs) w1)) !! comp
               = Some (KComp (created_zcomp alg zs 1))).
  { simpl. rewrite !lookup_delete_ne by congruence. apply sinv_load_comp. }
  exists (set_slab (delete comp) (set_slab (delete zs) w1)). split.
  - destruct (created_single alg zs) as ((_ & _ & _ & Hd) & _).
    unfold zcomp_destroy.
    rewrite (bind_Some _ _ _ _ _ (load_comp_Some _ _ _ sinv_load_comp)), Hd.
    rewrite (bind_Some _ _ _ _ _ Hsd). apply (kfree_Some _ _ _ Hc).
  - split; [|reflexivity]. apply heap_ext; simpl; rewrite sinv_heap0; simpl.
    + map_norm.
    + now rewrite delete_insert_eq, (delete_id _ _ sinv_t0).
    + now rewrite delete_insert_eq, (delete_id _ _ sinv_b0).
Qed.

End SINGLE.

Lemma step_single_inv h0 k0 n alg comp s zs z t b blk holder l s' :
  single_inv h0 k0 n alg comp s zs z t b blk holder ->
  step comp l s = Some s' ->
  exists holder', single_inv h0 k0 n alg comp s' zs z t b blk holder'.
Proof.
  intros Inv H. destruct l as [u|u|num|u].
  - destruct (thr s !! u) as [p|] eqn:Hu; [|unfold step in H; rewrite Hu in H; discriminate].
    destruct p; try (unfold step in H; rewrite Hu in H; discriminate).
    destruct (single_get _ _ _ _ _ _ _ _ _ _ _ _ Inv u Hu) as (Hno & Hg).
    destruct holder as [v|]; [rewrite Hno in H by eauto; discriminate|].
    destruct (Hg eq_refl) as (Hs & Hi). rewrite Hs in H. injection H as <-. eauto.
  - destruct (thr s !! u) as [p|] eqn:Hu; [|unfold step in H; rewrite Hu in H; discriminate].
    destruct p; try (unfold step in H; rewrite Hu in H; discriminate).
    destruct (single_put _ _ _ _ _ _ _ _ _ _ _ _ Inv u _ Hu) as (_ & _ & Hs & Hi).
    rewrite Hs in H. injection H as <-. eauto.
  - destruct (decide (is_int num)) as [Hn|Hn].
    + destruct (single_set_max _ _ _ _ _ _ _ _ _ _ _ _ Inv num Hn) as (_ & Hs).
      rewrite Hs in H. injection H as <-. eauto.
    + unfold step in H. rewrite bool_decide_false in H by exact Hn. discriminate.
  - rewrite (single_tick _ _ _ _ _ _ _ _ _ _ _ _ Inv u) in H. discriminate.
Qed.

Lemma run_single_inv h0 k0 n alg comp zs z t b blk ls :
  forall s holder s',
    single_inv h0 k0 n alg comp s zs z t b blk holder ->
    run comp ls s = Some s' ->
    exists holder', single_inv h0 k0 n alg comp s' zs z t b blk holder'.
Proof.
  induction ls as [|l ls IH]; intros s holder s' Inv H; simpl in H.
  - injection H as <-. eauto.
  - destruct (step comp l s) as [s1|] eqn:Hs; [|discriminate].
    destruct (step_single_inv _ _ _ _ _ _ _ _ _ _ _ _ _ _ Inv Hs) as (h1 & Inv1). eauto.
Qed.

Lemma boot_single_inv compress max n w comp s0 :
  max <= 1 ->
  boot compress max n w = Some (comp, s0) ->
  exists alg zs z t b blk,
    single_inv (hp w) (nreq w) n alg comp s0 zs z t b blk None.
Proof.
  intros Hmax Hb. unfold boot in Hb.
  destruct (find_backend compress) as [backend|] eqn:Hf.
  2:{ unfold zcomp_create in Hb. rewrite Hf in Hb. discriminate. }
  destruct (zcomp_create_eq compress backend max w Hf) as (r & w' & Hr & _ & Hres).
  rewrite Hr in Hb. destruct r as [e|comp']; [discriminate|].
  injection Hb as <- <-.
  destruct Hres as (zs & z & t & b & Fc & Fzs & Fz & N1 & N2 & N3 & Ft & Fb & Hn & Eh).
  assert (Em : (max >? 1) = false) by (rewrite Z.gtb_ltb; apply Z.ltb_ge; lia).
  unfold created_heap, created_zcomp, created_pool in Eh. rewrite Em in Eh.
  exists backend, zs, z, t, b, (Pages 1 (fresh_page_data (Z.lor GFP_KERNEL __GFP_ZERO) 1)).
  constructor; simpl; auto.
  - split; [reflexivity|]. rewrite fresh_page_data_length. apply page_bytes_1.
  - discriminate.
Qed.

Lemma reached_single_inv compress max n w comp s0 ls s :
  max <= 1 ->
  boot compress max n w = Some (comp, s0) ->
  run comp ls s0 = Some s ->
  exists alg zs z t b blk holder,
    single_inv (hp w) (nreq w) n alg comp s zs z t b blk holder.
Proof.
  intros Hmax Hb Hrun.
  destruct (boot_single_inv _ _ _ _ _ _ Hmax Hb) as (alg & zs & z & t & b & blk & Inv0).
  destruct (run_single_inv _ _ _ _ _ _ _ _ _ _ _ _ _ _ Inv0 Hrun) as (holder & Inv).
  exists alg, zs, z, t, b, blk, holder. exact Inv.
Qed.

(** X12. The single-stream backend hands its one stream to one caller
    at a time.  In every state reached from [zcomp_create] with
    [max_strm <= 1], the threads that hold a stream are at most one, and
    what it holds is the stream made by [zcomp_create], still live.
    While it is held [zcomp_stream_get] admits nobody and changes
    nothing; once it is back, [zcomp_stream_get] gives that same stream
    to whoever asks. *)
Theorem zcomp_strm_single_find_is_exclusive compress max n w comp s0 ls s :
  max <= 1 ->
  boot compress max n w = Some (comp, s0) ->
  run comp ls s0 = Some s ->
  exists alg z t b blk,
    strm_live (hp (wd s)) alg z t b blk /\
    (forall u p, thr s !! u = Some p -> p = Out \/ p = Holding z) /\
    (forall u u', thr s !! u = Some (Holding z) -> thr s !! u' = Some (Holding z) -> u = u') /\
    (forall u, thr s !! u = Some (Holding z) ->
       zcomp_stream_get comp (wd s) = Some (None, wd s)) /\
    ((forall u, thr s !! u <> Some (Holding z)) ->
     forall u, thr s !! u = Some Out ->
       exists s', step comp (Call_get u) s = Some s' /\ thr s' !! u = Some (Holding z)).
Proof.
  intros Hmax Hb Hrun.
  destruct (reached_single_inv _ _ _ _ _ _ _ _ Hmax Hb Hrun)
    as (alg & zs & z & t & b & blk & holder & Inv).
  exists alg, z, t, b, blk.
  split; [apply (sinv_live _ _ _ _ _ _ _ _ _ _ _ _ Inv)|].
  split.
  { intros u p Hu.
    destruct (single_thr_lookup _ _ _ _ _ _ _ _ _ _ _ _ Inv u p Hu) as (_ & [(-> & _)|(-> & _)]);
      auto. }
  split.
  { intros u u' Hu Hu'.
    destruct (single_thr_lookup _ _ _ _ _ _ _ _ _ _ _ _ Inv u _ Hu) as (_ & [(? & _)|(_ & E)]);
      [discriminate|].
    destruct (single_thr_lookup _ _ _ _ _ _ _ _ _ _ _ _ Inv u' _ Hu') as (_ & [(? & _)|(_ & E')]);
      [discriminate|]. congruence. }
  split.
  { intros u Hu.
    destruct (single_thr_lookup _ _ _ _ _ _ _ _ _ _ _ _ Inv u _ Hu) as (_ & [(? & _)|(_ & E)]);
      [discriminate|].
    apply (single_get_held _ _ _ _ _ _ _ _ _ _ _ _ Inv). rewrite E. eauto. }
  intros Hfree u Hu.
  assert (Hh : holder = None).
  { destruct holder as [v|] eqn:E; [|reflexivity]. exfalso. apply (Hfree v).
    rewrite (sinv_thr _ _ _ _ _ _ _ _ _ _ _ _ Inv). simpl.
    apply list_lookup_insert_eq. rewrite length_replicate.
    now apply (sinv_holder _ _ _ _ _ _ _ _ _ _ _ _ Inv). }
  destruct (single_get _ _ _ _ _ _ _ _ _ _ _ _ Inv u Hu) as (_ & Hg).
  destruct (Hg Hh) as (Hs & _). eexists. split; [exact Hs|]. simpl.
  apply list_lookup_insert_eq. now apply lookup_lt_Some in Hu.
Qed.

(** X13. After [zcomp_create] the single-stream backend allocates nothing
    and frees nothing.  In every state reached from it no allocation
    request has been made beyond the five of [zcomp_create], and memory
    differs from memory before [zcomp_create] by the compressor, its
    pool object and its stream only; the mutex is held exactly while a
    thread holds the stream. *)
Theorem zcomp_strm_single_memory_is_fixed compress max n w comp s0 ls s :
  max <= 1 ->
  boot compress max n w = Some (comp, s0) ->
  run comp ls s0 = Some s ->
  exists alg zs z t b blk lk,
    hp (wd s) = single_heap (hp w) alg comp zs z t b blk lk /\
    nreq (wd s) = (5 + nreq w)%nat /\
    (lk = true <-> exists u, thr s !! u = Some (Holding z)).
Proof.
  intros Hmax Hb Hrun.
  destruct (reached_single_inv _ _ _ _ _ _ _ _ Hmax Hb Hrun)
    as (alg & zs & z & t & b & blk & holder & Inv).
  exists alg, zs, z, t, b, blk, (bool_decide (is_Some holder)).
  split; [apply (sinv_heap _ _ _ _ _ _ _ _ _ _ _ _ Inv)|].
  split; [apply (sinv_nreq _ _ _ _ _ _ _ _ _ _ _ _ Inv)|].
  rewrite bool_decide_eq_true. split.
  - intros (v & E). exists v.
    rewrite (sinv_thr _ _ _ _ _ _ _ _ _ _ _ _ Inv), E. simpl.
    apply list_lookup_insert_eq. rewrite length_replicate.
    now apply (sinv_holder _ _ _ _ _ _ _ _ _ _ _ _ Inv).
  - intros (u & Hu).
    destruct (single_thr_lookup _ _ _ _ _ _ _ _ _ _ _ _ Inv u _ Hu) as (_ & [(? & _)|(_ & E)]);
      [discriminate|]. rewrite E. eauto.
Qed.

(** X14. [zcomp_destroy] undoes [zcomp_create] for the single-stream
    backend: in every state reached from [zcomp_create] with
    [max_strm <= 1] it runs without a fault and leaves memory exactly as
    it was before [zcomp_create], whether or not a caller still holds
    the stream. *)
Theorem zcomp_destroy_single_leaves_nothing compress max n w comp s0 ls s :
  max <= 1 ->
  boot compress max n w = Some (comp, s0) ->
  run comp ls s0 = Some s ->
  exists w', zcomp_destroy comp (wd s) = Some (tt, w') /\ hp w' = hp w.
Proof.
  intros Hmax Hb Hrun.
  destruct (reached_single_inv _ _ _ _ _ _ _ _ Hmax Hb Hrun)
    as (alg & zs & z & t & b & blk & holder & Inv).
  destruct (single_destroy _ _ _ _ _ _ _ _ _ _ _ _ Inv) as (w' & Hd & Eh & _).
  eauto.
Qed.

End ZCOMP_PROOFS.

(** ** Compression *)

Section COMPRESSION_PROOFS.

Context {K : kernel} {C : crypto_comp}.

Lemma tfm_alg_live w alg z t b blk :
  strm_live (hp w) alg z t b blk -> tfm_alg (Tfm t) w = Some (alg, w).
Proof. intros (_ & Ht & _). unfold tfm_alg. now rewrite Ht. Qed.

Lemma read_bytes_Some src len w :
  (len <= length src)%nat -> read_bytes src len w = Some (take len src, w).
Proof. intros H. unfold read_bytes. now rewrite decide_True. Qed.

Lemma written_length out obj data :
  written out obj = Some data -> length data = length obj.
Proof.
  unfold written. destruct (decide _) as [H|]; [|discriminate]. intros [= <-].
  rewrite length_app, length_drop. lia.
Qed.

Lemma written_take out obj data :
  written out obj = Some data -> take (length out) data = out.
Proof.
  unfold written. destruct (decide _) as [H|]; [|discriminate]. intros [= <-].
  now rewrite take_app_length.
Qed.

(** [zcomp_compress] on a live stream, with a backend that keeps to the
    room it is told. *)
Lemma zcomp_compress_eq w alg z t b blk src :
  keeps_to_room crypto_comp_compress ->
  strm_live (hp w) alg z t b blk ->
  (PAGE_SIZE <= length src)%nat ->
  let res := crypto_comp_compress alg (take PAGE_SIZE src) (PAGE_SIZE * 2) in
  exists data,
    written (snd res) (pb_data blk) = Some data /\
    zcomp_compress z src w
    = Some ((fst res, length (snd res)),
            set_pages (insert b (Pages 1 data)) w).
Proof.
  intros Hroom L Hsrc res. pose proof L as (Hz & Ht & Hb & Ho & Hl).
  pose proof (Hroom alg (take PAGE_SIZE src) (PAGE_SIZE * 2)%nat) as Hout. fold res in Hout.
  assert (Hw : written (snd res) (pb_data blk)
               = Some (snd res ++ drop (length (snd res)) (pb_data blk))).
  { unfold written. rewrite decide_True; [reflexivity|]. lia. }
  eexists. split; [exact Hw|].
  unfold zcomp_compress.
  rewrite (bind_Some _ _ _ _ _ (load_strm_Some _ _ _ Hz)). cbn [tfm buffer].
  rewrite (bind_Some _ _ _ _ _ (tfm_alg_live _ _ _ _ _ _ L)).
  rewrite (bind_Some _ _ _ _ _ (read_bytes_Some _ _ _ Hsrc)).
  fold res. destruct res as [r out]. cbn [fst snd] in *.
  unfold bind, write_buffer. rewrite Hb, Hw, Ho. reflexivity.
Qed.

(** X15. [zcomp_compress] never overruns the stream's buffer.  The room it
    announces to the backend, [2 * PAGE_SIZE], is the size of the buffer
    [zcomp_strm_alloc] made: with a backend that writes no more than the
    room it is told, compressing a page into a live stream runs without
    a fault, reports at most [2 * PAGE_SIZE] bytes, leaves them at the
    start of the buffer, and leaves the stream live and the rest of
    memory as it was. *)
Theorem zcomp_compress_stays_in_the_buffer w alg z t b blk src :
  keeps_to_room crypto_comp_compress ->
  strm_live (hp w) alg z t b blk ->
  (PAGE_SIZE <= length src)%nat ->
  exists r out w' blk',
    crypto_comp_compress alg (take PAGE_SIZE src) (PAGE_SIZE * 2) = (r, out) /\
    zcomp_compress z src w = Some ((r, length out), w') /\
    (length out <= 2 * PAGE_SIZE)%nat /\
    strm_live (hp w') alg z t b blk' /\
    take (length out) (pb_data blk') = out /\
    slab (hp w') = slab (hp w) /\ crypto (hp w') = crypto (hp w) /\
    pages (hp w') = <[b := blk']> (pages (hp w)) /\
    nreq w' = nreq w.
Proof.
  intros Hroom L Hsrc.
  destruct (zcomp_compress_eq w alg z t b blk src Hroom L Hsrc) as (data & Hw & Hc).
  pose proof (Hroom alg (take PAGE_SIZE src) (PAGE_SIZE * 2)%nat) as Hout.
  destruct (crypto_comp_compress alg (take PAGE_SIZE src) (PAGE_SIZE * 2)) as [r out] eqn:E.
  cbn [fst snd] in *.
  exists r, out, (set_pages (insert b (Pages 1 data)) w), (Pages 1 data).
  split; [reflexivity|]. split; [exact Hc|]. split; [lia|].
  destruct L as (Hz & Ht & Hb & Ho & Hl).
  split.
  { unfold strm_live. simpl. rewrite lookup_insert_eq.
    rewrite (written_length _ _ _ Hw). auto. }
  split; [apply (written_take _ _ _ Hw)|]. auto.
Qed.

(** X16. [zcomp_decompress] undoes [zcomp_compress].  With a backend that
    keeps to the room it is told and is lossless on pages, a page that
    [zcomp_compress] has compressed without error into a stream comes
    back unchanged when the [dst_len] bytes it left in the stream's
    buffer are given to [zcomp_decompress]; decompressing changes
    nothing in memory. *)
Theorem zcomp_decompress_undoes_compress w alg z t b blk page dst w1 len :
  keeps_to_room crypto_comp_compress ->
  lossless_on_pages ->
  strm_live (hp w) alg z t b blk ->
  length page = PAGE_SIZE ->
  length dst = PAGE_SIZE ->
  zcomp_compress z page w = Some ((0, len), w1) ->
  exists buf,
    buffer_of (hp w1) z = Some buf /\
    zcomp_decompress z buf len dst w1 = Some ((0, page), w1).
Proof.
  intros Hroom Hloss L Hpage Hdst Hc.
  destruct (zcomp_compress_eq w alg z t b blk page Hroom L ltac:(lia)) as (data & Hw & Hc').
  rewrite Hc' in Hc. rewrite take_ge in Hc, Hw by lia.
  destruct (crypto_comp_compress alg page (PAGE_SIZE * 2)) as [r out] eqn:E.
  cbn [fst snd] in *. injection Hc as -> <- <-.
  pose proof (Hloss alg page out Hpage E) as Hd.
  destruct L as (Hz & Ht & Hb & Ho & Hl).
  exists data. split.
  { unfold buffer_of. simpl. rewrite Hz. simpl. now rewrite lookup_insert_eq. }
  unfold zcomp_decompress.
  assert (Hz1 : slab (hp (set_pages (insert b (Pages 1 data)) w)) !! z
                = Some (KStrm (Zstrm (Tfm t) (Some b)))) by exact Hz.
  rewrite (bind_Some _ _ _ _ _ (load_strm_Some _ _ _ Hz1)). cbn [tfm buffer].
  assert (Ha : tfm_alg (Tfm t) (set_pages (insert b (Pages 1 data)) w)
               = Some (alg, set_pages (insert b (Pages 1 data)) w)).
  { unfold tfm_alg. simpl. now rewrite Ht. }
  rewrite (bind_Some _ _ _ _ _ Ha).
  assert (Hlen : (length out <= length data)%nat).
  { rewrite (written_length _ _ _ Hw). pose proof (Hroom alg page (PAGE_SIZE * 2)%nat) as Ho'.
    rewrite E in Ho'. simpl in Ho'. lia. }
  rewrite (bind_Some _ _ _ _ _ (read_bytes_Some _ _ _ Hlen)).
  rewrite (written_take _ _ _ Hw), Hd.
  unfold written. rewrite decide_True by lia.
  rewrite drop_ge by lia. now rewrite app_nil_r.
Qed.

(** *** Compressing on a stream of the pool *)

(** Writing into the buffer [b] leaves every stream live. *)
Lemma strm_live_write w alg b blk data z t' b' :
  pages (hp w) !! b = Some blk ->
  length data = length (pb_data blk) ->
  (exists blk', strm_live (hp w) alg z t' b' blk') <->
  (exists blk', strm_live (hp (set_pages (insert b (Pages (pb_order blk) data)) w)) alg z t' b' blk').
Proof.
  intros Hb Hlen. unfold strm_live. simpl. split.
  - intros (blk' & Hz & Ht & Hb' & Ho & Hl).
    destruct (decide (b = b')) as [<-|Hne].
    + exists (Pages (pb_order blk) data). rewrite lookup_insert_eq. simpl.
      rewrite Hb in Hb'. injection Hb' as <-. repeat split; auto. congruence.
    + exists blk'. rewrite lookup_insert_ne by exact Hne. auto.
  - intros (blk' & Hz & Ht & Hb' & Ho & Hl).
    destruct (decide (b = b')) as [<-|Hne].
    + exists blk. rewrite lookup_insert_eq in Hb'. injection Hb' as <-.
      simpl in *. repeat split; auto. congruence.
    + exists blk'. rewrite lookup_insert_ne in Hb' by exact Hne. auto.
Qed.

Lemma strms_ok_write w alg l b blk data :
  pages (hp w) !! b = Some blk ->
  length data = length (pb_data blk) ->
  strms_ok (hp w) alg l ->
  strms_ok (hp (set_pages (insert b (Pages (pb_order blk) data)) w)) alg l.
Proof.
  intros Hb Hlen (Hnd & Hlive & Hsep). split; [exact Hnd|]. split.
  - intros z Hz. destruct (Hlive z Hz) as (t' & b' & blk' & L).
    exists t', b'. apply (strm_live_write w alg b blk data z t' b' Hb Hlen). eauto.
  - intros z1 z2 t1 b1 k1 t2 b2 k2 H1 H2 L1 L2 Heq.
    destruct (proj2 (strm_live_write w alg b blk data z1 t1 b1 Hb Hlen)
                (ex_intro _ k1 L1)) as (k1' & L1').
    destruct (proj2 (strm_live_write w alg b blk data z2 t2 b2 Hb Hlen)
                (ex_intro _ k2 L2)) as (k2' & L2').
    exact (Hsep z1 z2 t1 b1 k1' t2 b2 k2' H1 H2 L1' L2' Heq).
Qed.

(** X17. A thread can always compress into the stream it holds.  In every
    state the scheduler can reach, the stream in the hands of a thread
    is live, also after the limit was lowered under it: with a backend
    that writes no more than the room it is told, [zcomp_compress] on
    that stream runs without a fault, and the pool is left as it was,
    invariant included. *)
Theorem holder_can_always_compress comp s t z src :
  multi_reachable comp s ->
  thr s !! t = Some (Holding z) ->
  keeps_to_room crypto_comp_compress ->
  (PAGE_SIZE <= length src)%nat ->
  exists r len w',
    zcomp_compress z src (wd s) = Some ((r, len), w') /\
    (len <= 2 * PAGE_SIZE)%nat /\
    slab (hp w') = slab (hp (wd s)) /\
    pool_of comp w' = pool_of comp (wd s) /\
    exists alg c zs m, pool_inv alg comp (Sys w' (thr s)) c zs m.
Proof.
  intros Hr Ht Hroom Hsrc.
  destruct (reachable_pool_inv _ _ Hr) as (alg & c & zs & m & Inv).
  pose proof (inv_strms _ _ _ _ _ _ Inv) as Hok.
  pose proof Hok as (_ & Hlive & _).
  destruct (Hlive z) as (tf & b & blk & L).
  { apply elem_of_app. right. apply owned_elem. exists t, (Holding z). auto. }
  destruct (zcomp_compress_eq (wd s) alg z tf b blk src Hroom L Hsrc) as (data & Hw & Hc).
  pose proof (Hroom alg (take PAGE_SIZE src) (PAGE_SIZE * 2)%nat) as Hout.
  destruct L as (Hz & Htf & Hb & Ho & Hl).
  eexists _, _, _. split; [exact Hc|]. split; [lia|]. split; [reflexivity|].
  assert (Hm : multi_of comp (set_pages (insert b (Pages 1 data)) (wd s))
               = Some ((zs, m), set_pages (insert b (Pages 1 data)) (wd s))).
  { apply multi_of_Some with (c := c);
      [apply (inv_comp _ _ _ _ _ _ Inv)|apply (inv_stream _ _ _ _ _ _ Inv)
      |apply (inv_pool _ _ _ _ _ _ Inv)]. }
  split.
  { unfold pool_of. now rewrite Hm, (inv_multi_of _ _ _ _ _ _ Inv). }
  exists alg, c, zs, m. destruct Inv. constructor; simpl; auto.
  rewrite <- Ho.
  apply (strms_ok_write (wd s) alg _ b blk data Hb (written_length _ _ _ Hw) Hok).
Qed.

End COMPRESSION_PROOFS.

(** * The theorems on the example states *)

Lemma zcomp_strm_multi_find_never_fails_witness :
  multi_reachable (K := demo_kernel first_five) 1%positive demo_growing /\
  thr demo_growing !! 1%nat = Some Find_alloc /\
  exists alg m q w' m',
    pool_of 1%positive (wd demo_growing) = Some m /\
    zcomp_strm_multi_find (K := demo_kernel first_five) 1%positive Find_alloc
      (wd demo_growing) = Some (q, w') /\
    pool_of 1%positive w' = Some m' /\
    find_section Find_alloc m (hp (wd demo_growing)) q m' (hp w') /\
    (in_find q = true \/
     exists z tf b blk,
       q = Holding z /\ strm_live (K := demo_kernel first_five) (hp w') alg z tf b blk).
Proof.
  assert (R : multi_reachable (K := demo_kernel first_five) 1%positive demo_growing)
    by (demo_reach first_five 4 2%nat [Call_get 0; Tick 0; Call_get 1; Tick 1]).
  assert (T : thr demo_growing !! 1%nat = Some Find_alloc) by (vm_compute; reflexivity).
  split; [exact R|]. split; [exact T|].
  pose proof (zcomp_strm_multi_find_never_fails (K := demo_kernel first_five)
                1%positive demo_growing 1%nat Find_alloc R T) as H.
  cbv beta iota in H.
  destruct H as (alg & m & Hm & q & w' & m' & Hf & _ & Hm' & Hsec & Hret).
  exists alg, m, q, w', m'.
  split; [exact Hm|]. split; [exact Hf|]. split; [exact Hm'|]. split; [exact Hsec|].
  destruct Hret as [Hin|(z & tf & b & blk & Hq & Hl & _)]; [left; exact Hin|right].
  exists z, tf, b, blk. split; [exact Hq|exact Hl].
Defined.

Lemma demo_shrunk_reachable :
  multi_reachable (K := demo_kernel always) 1%positive demo_shrunk.
Proof.
  demo_reach always 2 2%nat
    [Call_get 0; Tick 0; Call_get 1; Tick 1; Tick 1; Call_set_max 1].
Defined.

Lemma demo_busy_reachable :
  multi_reachable (K := demo_kernel always) 1%positive demo_busy.
Proof.
  demo_reach always 4 4%nat
    [Call_get 0; Tick 0; Call_get 1; Tick 1; Tick 1; Call_get 2; Tick 2; Tick 2;
     Call_get 3; Tick 3; Tick 3; Call_put 0; Tick 0; Tick 0].
Defined.

Lemma zcomp_strm_multi_release_decides_witness :
  multi_reachable (K := demo_kernel always) 1%positive demo_releasing /\
  thr demo_releasing !! 0%nat = Some (Rel_top 3) /\
  exists m q w' m',
    pool_of 1%positive (wd demo_releasing) = Some m /\
    zcomp_strm_multi_release 1%positive (Rel_top 3) (wd demo_releasing) = Some (q, w') /\
    pool_of 1%positive w' = Some m' /\
    if decide (avail_strm m <= max_strm m)
    then q = Rel_wake /\ m' = Zmulti (max_strm m) (avail_strm m) (3%positive :: idle_strm m)
    else q = Rel_free 3 /\ m' = Zmulti (max_strm m) (avail_strm m - 1) (idle_strm m).
Proof.
  assert (R : multi_reachable (K := demo_kernel always) 1%positive demo_releasing)
    by (demo_reach always 2 2%nat
          [Call_get 0; Tick 0; Call_get 1; Tick 1; Tick 1; Call_set_max 1; Call_put 0]).
  assert (T : thr demo_releasing !! 0%nat = Some (Rel_top 3)) by (vm_compute; reflexivity).
  split; [exact R|]. split; [exact T|].
  pose proof (zcomp_strm_multi_release_decides (K := demo_kernel always)
                1%positive demo_releasing 0%nat (Rel_top 3) R T) as H.
  cbv beta iota in H.
  destruct H as (alg & m & Hm & q & w' & m' & Hf & _ & Hm' & _ & _ & _ & Hdec).
  exists m, q, w', m'.
  split; [exact Hm|]. split; [exact Hf|]. split; [exact Hm'|exact Hdec].
Defined.

Lemma pool_invariant_witness :
  multi_reachable (K := demo_kernel always) 1%positive demo_shrunk /\
  pool_of 1%positive (wd demo_shrunk) = Some (Zmulti 1 2 []) /\
  2 = Z.of_nat (length (@nil addr)) + slots (thr demo_shrunk) /\
  (2 <= 1 \/ @nil addr = []) /\
  forall t p z, thr demo_shrunk !! t = Some p -> owns p = Some z ->
                forall t' q, thr demo_shrunk !! t' = Some q -> owns q = Some z -> t' = t.
Proof.
  assert (P : pool_of 1%positive (wd demo_shrunk) = Some (Zmulti 1 2 []))
    by (vm_compute; reflexivity).
  split; [exact demo_shrunk_reachable|]. split; [exact P|].
  pose proof (pool_invariant (K := demo_kernel always)
                1%positive demo_shrunk (Zmulti 1 2 []) demo_shrunk_reachable P) as H.
  destruct H as (Hcnt & Hroom & _ & alg & _ & Hown).
  split; [exact Hcnt|]. split; [exact Hroom|].
  intros t p z Ht Ho. destruct (Hown t p z Ht Ho) as (_ & _ & Hu). exact Hu.
Defined.

(** C4 fails as stated: in [demo_shrunk], which the scheduler reaches and
    where no call is in flight, [avail_strm] is 2 and [max_strm] is 1. *)
Lemma pool_above_its_limit :
  multi_reachable (K := demo_kernel always) 1%positive demo_shrunk /\
  settled (thr demo_shrunk) = true /\
  pool_of 1%positive (wd demo_shrunk) = Some (Zmulti 1 2 []) /\
  ~ (avail_strm (Zmulti 1 2 []) <= max_strm (Zmulti 1 2 [])).
Proof.
  split; [exact demo_shrunk_reachable|]. split; [reflexivity|].
  split; [vm_compute; reflexivity|]. simpl. lia.
Qed.

Lemma zcomp_strm_multi_set_max_streams_shrinks_witness :
  multi_reachable (K := demo_kernel always) 1%positive demo_busy /\
  pool_of 1%positive (wd demo_busy) = Some (Zmulti 4 4 [3%positive]) /\
  is_int 2 /\
  settled (thr demo_busy) = true /\
  [1; 2; 3]%nat ≡ₚ holders (thr demo_busy) /\
  exists s1 m1 s2 m2,
    step (K := demo_kernel always) 1%positive (Call_set_max 2) demo_busy = Some s1 /\
    pool_of 1%positive (wd s1) = Some m1 /\
    idle_strm m1 = [] /\ avail_strm m1 = 3 /\
    run (K := demo_kernel always) 1%positive (release_all [1; 2; 3]%nat) s1 = Some s2 /\
    pool_of 1%positive (wd s2) = Some m2 /\
    avail_strm m2 = 2 /\ Z.of_nat (length (idle_strm m2)) = 2.
Proof.
  assert (P : pool_of 1%positive (wd demo_busy) = Some (Zmulti 4 4 [3%positive]))
    by (vm_compute; reflexivity).
  assert (I : is_int 2) by (unfold is_int, INT_MIN, INT_MAX; lia).
  assert (S : settled (thr demo_busy) = true) by reflexivity.
  assert (O : [1; 2; 3]%nat ≡ₚ holders (thr demo_busy)) by reflexivity.
  split; [exact demo_busy_reachable|]. split; [exact P|]. split; [exact I|].
  split; [exact S|]. split; [exact O|].
  pose proof (zcomp_strm_multi_set_max_streams_shrinks (K := demo_kernel always)
                1%positive demo_busy (Zmulti 4 4 [3%positive]) 2
                [1; 2; 3]%nat demo_busy_reachable P I) as H.
  cbv zeta in H.
  destruct H as (s1 & m1 & Hs & Hm1 & _ & _ & Hidle & Hav & _ & _ & _ & Hconv).
  destruct (Hconv S O) as (s2 & m2 & Hrun & Hm2 & _ & _ & Hav2 & Hlen).
  exists s1, m1, s2, m2.
  split; [exact Hs|]. split; [exact Hm1|]. split; [exact Hidle|]. split; [exact Hav|].
  split; [exact Hrun|]. split; [exact Hm2|]. split; [exact Hav2|].
  rewrite Hlen. exact Hav2.
Defined.

(** C2 fails as stated: in [demo_busy] one stream is idle and three are
    in use; lowering the limit from 4 to 2 frees the idle stream, so the
    idle count drops to 0 and not to [min(1, 2)]. *)
Lemma set_max_streams_frees_more_than_min :
  multi_reachable (K := demo_kernel always) 1%positive demo_busy /\
  pool_of 1%positive (wd demo_busy) = Some (Zmulti 4 4 [3%positive]) /\
  exists s1,
    step (K := demo_kernel always) 1%positive (Call_set_max 2) demo_busy = Some s1 /\
    pool_of 1%positive (wd s1) = Some (Zmulti 2 3 []) /\
    length (idle_strm (Zmulti 2 3 []))
      <> Nat.min (length (idle_strm (Zmulti 4 4 [3%positive]))) 2.
Proof.
  split; [exact demo_busy_reachable|]. split; [vm_compute; reflexivity|].
  exists (demo_state always 4 4
            [Call_get 0; Tick 0; Call_get 1; Tick 1; Tick 1; Call_get 2; Tick 2; Tick 2;
             Call_get 3; Tick 3; Tick 3; Call_put 0; Tick 0; Tick 0; Call_set_max 2]).
  split; [vm_compute; reflexivity|]. split; [vm_compute; reflexivity|].
  simpl. lia.
Qed.

Lemma zcomp_create_strategy_witness :
  find_backend (K := demo_kernel always) "lzo" = Some "lzo"%string /\
  exists comp w' zs z,
    zcomp_create (K := demo_kernel always) "lzo" 4 demo_w0 = Some (inr comp, w') /\
    slab (hp w') !! zs = Some (KMulti (Zmulti 4 1 [z])).
Proof.
  assert (F : find_backend (K := demo_kernel always) "lzo" = Some "lzo"%string)
    by reflexivity.
  split; [exact F|].
  pose proof (zcomp_create_strategy (K := demo_kernel always)
                "lzo" "lzo" 4 demo_w0 F) as H.
  destruct H as (r & w' & Hr & Hh & Hres).
  destruct r as [e|comp]; [discriminate Hh|].
  destruct Hres as (c & zs & z & t & b & blk & _ & _ & _ & _ & _ & _ & _ & _ & Hmulti & _).
  destruct (Hmulti ltac:(lia)) as (_ & Hzs).
  exists comp, w', zs, z. split; [exact Hr|exact Hzs].
Defined.

Lemma zcomp_strm_alloc_all_or_nothing_witness :
  slab (hp demo_created) !! 1%positive = Some (KComp demo_zcomp) /\
  name demo_zcomp = Some "lzo"%string /\
  exists w',
    zcomp_strm_alloc (K := demo_kernel no_pages) 1%positive 208 demo_created
      = Some (None, w') /\
    hp w' = hp demo_created.
Proof.
  assert (C : slab (hp demo_created) !! 1%positive = Some (KComp demo_zcomp))
    by (vm_compute; reflexivity).
  assert (N : name demo_zcomp = Some "lzo"%string) by reflexivity.
  split; [exact C|]. split; [exact N|].
  pose proof (zcomp_strm_alloc_all_or_nothing (K := demo_kernel no_pages)
                1%positive 208 demo_zcomp "lzo" demo_created C N) as H.
  destruct H as (r & w' & Hr & Hb & Hres).
  destruct r as [z|]; [vm_compute in Hb; discriminate Hb|].
  exists w'. split; [exact Hr|exact Hres].
Defined.

Lemma zcomp_set_max_streams_by_backend_witness :
  (exists w' m',
     zcomp_set_max_streams 1%positive 7 (wd demo_busy) = Some (true, w') /\
     pool_of 1%positive w' = Some m' /\ max_strm m' = 7) /\
  (forall comp w' n,
     zcomp_create (K := demo_kernel always) "lzo" 1 demo_w0 = Some (inr comp, w') ->
     zcomp_set_max_streams comp n w' = Some (false, w')).
Proof.
  pose proof (zcomp_set_max_streams_by_backend (K := demo_kernel always))
    as (Hmulti & _ & Hsingle).
  split.
  - apply (Hmulti 1%positive demo_busy 7 demo_busy_reachable).
    unfold is_int, INT_MIN, INT_MAX. lia.
  - intros comp w' n. apply (Hsingle "lzo"%string 1 demo_w0 comp w' n). lia.
Defined.

Lemma zcomp_create_unsupported_witness :
  (forall b, b ∈ backends (K := demo_kernel always) -> sysfs_streq "zstd" b = false) /\
  zcomp_create (K := demo_kernel always) "zstd" 4 demo_w0 = Some (inl EINVAL, demo_w0).
Proof.
  assert (U : forall b, b ∈ backends (K := demo_kernel always) ->
                        sysfs_streq "zstd" b = false).
  { intros b Hb. unfold backends in Hb. simpl in Hb.
    apply elem_of_cons in Hb as [->|Hb]; [reflexivity|].
    apply list_elem_of_singleton in Hb as ->. reflexivity. }
  split; [exact U|].
  pose proof (zcomp_create_unsupported (K := demo_kernel always)
                "zstd" 4 demo_w0 U) as (_ & _ & H & _).
  exact H.
Defined.

(** C8 fails as stated: "lzo" followed by a newline is no entry of the
    registry, yet [find_backend] takes it for "lzo" and [zcomp_create]
    builds a compressor for it, with five allocation requests. *)
Lemma name_outside_the_registry_is_accepted :
  (("lzo" +:+ nl)%string ∉ backends (K := demo_kernel always)) /\
  find_backend (K := demo_kernel always) ("lzo" +:+ nl) = Some "lzo"%string /\
  exists w',
    zcomp_create (K := demo_kernel always) ("lzo" +:+ nl) 4 demo_w0
      = Some (inr 1%positive, w') /\
    nreq w' = 5%nat /\
    slab (hp w') !! 1%positive = Some (KComp demo_zcomp).
Proof.
  split.
  { intros H. unfold backends in H. simpl in H.
    apply elem_of_cons in H as [E|H]; [cbv in E; discriminate E|].
    apply list_elem_of_singleton in H. cbv in H. discriminate H. }
  split; [reflexivity|].
  destruct (zcomp_create (K := demo_kernel always) ("lzo" +:+ nl) 4 demo_w0)
    as [[r w']|] eqn:E; [|vm_compute in E; discriminate E].
  exists w'.
  assert (Er : r = inr 1%positive /\ nreq w' = 5%nat /\
               slab (hp w') !! 1%positive = Some (KComp demo_zcomp)).
  { vm_compute in E. injection E as <- <-. repeat split; vm_compute; reflexivity. }
  destruct Er as (-> & Hn & Hc). split; [reflexivity|]. split; [exact Hn|exact Hc].
Qed.

Lemma sysfs_streq_accepts_what_strcmp_rejects_witness :
  (16 <= PAGE_SIZE (kernel := demo_kernel always))%nat /\
  find_backend (K := demo_kernel always) ("lzo" +:+ nl) = Some "lzo"%string /\
  zcomp_available_show (K := demo_kernel always) ("lzo" +:+ nl)
    = ("lzo lz4 " +:+ nl)%string /\
  zcomp_available_show (K := demo_kernel always) "lzo"
    = ("[lzo] lz4 " +:+ nl)%string.
Proof.
  assert (P : (16 <= PAGE_SIZE (kernel := demo_kernel always))%nat) by (simpl; lia).
  split; [exact P|].
  pose proof (sysfs_streq_accepts_what_strcmp_rejects (K := demo_kernel always) P)
    as (_ & _ & H).
  assert (B : "lzo"%string ∈ backends (K := demo_kernel always))
    by apply list_elem_of_here.
  destruct (H "lzo"%string B) as (_ & Hf & _ & _ & _ & Hshow & _).
  split; [exact Hf|]. split; [exact Hshow|reflexivity].
Defined.

Lemma stream_buffers_start_zeroed_witness :
  __GFP_ZERO (kernel := demo_kernel always) <> 0 /\
  exists comp w' z,
    zcomp_create (K := demo_kernel always) "lzo" 4 demo_w0 = Some (inr comp, w') /\
    zeroed_buffer (K := demo_kernel always) (hp w') z.
Proof.
  assert (Z0 : __GFP_ZERO (kernel := demo_kernel always) <> 0) by (simpl; lia).
  split; [exact Z0|].
  pose proof (stream_buffers_start_zeroed (K := demo_kernel always) Z0)
    as (_ & Hcreate & _).
  destruct (zcomp_create (K := demo_kernel always) "lzo" 4 demo_w0)
    as [[[e|comp] w']|] eqn:E; try (vm_compute in E; discriminate E).
  destruct (Hcreate "lzo"%string 4 demo_w0 comp w' E) as (c & zs & z & _ & _ & _ & Hz).
  exists comp, w', z. split; [reflexivity|exact Hz].
Defined.

(** * The further theorems on the example states *)

Lemma zcomp_strm_free_undoes_alloc_witness :
  exists z w1 w2,
    zcomp_strm_alloc (K := demo_kernel always) 1%positive 208 demo_created
      = Some (Some z, w1) /\
    zcomp_strm_free z w1 = Some (tt, w2) /\
    hp w2 = hp demo_created.
Proof.
  destruct (zcomp_strm_alloc (K := demo_kernel always) 1%positive 208 demo_created)
    as [[[z|] w1]|] eqn:E; try (vm_compute in E; discriminate E).
  destruct (zcomp_strm_free_undoes_alloc (K := demo_kernel always)
              1%positive 208 demo_created z w1 E) as (w2 & Hf & Hh & _).
  exists z, w1, w2. split; [reflexivity|]. split; [exact Hf|exact Hh].
Defined.

Lemma zcomp_available_show_fits_witness :
  (2 <= PAGE_SIZE (kernel := demo_kernel always))%nat /\
  (String.length (zcomp_available_show (K := demo_kernel always) "lz4") < 4096)%nat.
Proof.
  assert (P : (2 <= PAGE_SIZE (kernel := demo_kernel always))%nat) by (simpl; lia).
  split; [exact P|].
  destruct (zcomp_available_show_fits (K := demo_kernel always) "lz4" P) as (H & _).
  exact H.
Defined.

Lemma zcomp_destroy_frees_the_idle_streams_witness :
  multi_reachable (K := demo_kernel always) 1%positive demo_busy /\
  pool_of 1%positive (wd demo_busy) = Some (Zmulti 4 4 [3%positive]) /\
  exists w',
    zcomp_destroy 1%positive (wd demo_busy) = Some (tt, w') /\
    nreq w' = nreq (wd demo_busy) /\
    slab (hp w') !! 1%positive = None /\
    slab (hp w') !! 3%positive = None.
Proof.
  assert (P : pool_of 1%positive (wd demo_busy) = Some (Zmulti 4 4 [3%positive]))
    by (vm_compute; reflexivity).
  split; [exact demo_busy_reachable|]. split; [exact P|].
  destruct (zcomp_destroy_frees_the_idle_streams (K := demo_kernel always)
              1%positive demo_busy (Zmulti 4 4 [3%positive]) demo_busy_reachable P)
    as (alg & c & zs & w' & _ & _ & _ & Hd & Hn & _ & Hc & _ & Hidle & _).
  exists w'. split; [exact Hd|]. split; [exact Hn|]. split; [exact Hc|].
  apply Hidle. apply list_elem_of_here.
Defined.

Lemma zcomp_destroy_leaves_nothing_witness :
  owned (thr demo_returned) = [] /\
  exists w',
    zcomp_destroy 1%positive (wd demo_returned) = Some (tt, w') /\
    hp w' = hp demo_w0.
Proof.
  split; [reflexivity|].
  apply (zcomp_destroy_leaves_nothing (K := demo_kernel always)
           "lzo" 2 2 demo_w0 1%positive (demo_state always 2 2 [])
           [Call_get 0; Tick 0; Call_get 1; Tick 1; Tick 1;
            Call_put 0; Tick 0; Tick 0; Call_put 1; Tick 1; Tick 1]
           demo_returned).
  - unfold INT_MAX. lia.
  - vm_compute. reflexivity.
  - vm_compute. reflexivity.
  - reflexivity.
Defined.

Lemma demo_asleep_reachable :
  multi_reachable (K := demo_kernel first_five) 1%positive demo_asleep.
Proof.
  demo_reach first_five 4 2%nat
    [Call_get 0; Tick 0; Call_get 1; Tick 1; Tick 1; Tick 1; Tick 1].
Defined.

Lemma demo_fresh_reachable :
  multi_reachable (K := demo_kernel always) 1%positive demo_fresh.
Proof. demo_reach always 4 2%nat (@nil label). Defined.

Lemma wait_event_misses_no_wake_up_witness :
  multi_reachable (K := demo_kernel first_five) 1%positive demo_asleep /\
  pool_of 1%positive (wd demo_asleep) = Some (Zmulti 4 1 []) /\
  thr demo_asleep !! 1%nat = Some Find_sleep /\
  (idle_strm (Zmulti 4 1 []) = [] \/ exists u, thr demo_asleep !! u = Some Rel_wake).
Proof.
  assert (P : pool_of 1%positive (wd demo_asleep) = Some (Zmulti 4 1 []))
    by (vm_compute; reflexivity).
  assert (T : thr demo_asleep !! 1%nat = Some Find_sleep) by reflexivity.
  split; [exact demo_asleep_reachable|]. split; [exact P|]. split; [exact T|].
  exact (wait_event_misses_no_wake_up (K := demo_kernel first_five)
           1%positive demo_asleep (Zmulti 4 1 []) 1%nat demo_asleep_reachable P T).
Defined.

Lemma get_then_put_is_a_round_trip_witness :
  multi_reachable (K := demo_kernel always) 1%positive demo_fresh /\
  pool_of 1%positive (wd demo_fresh) = Some (Zmulti 4 1 [3%positive]) /\
  settled (thr demo_fresh) = true /\
  exists s1,
    run (K := demo_kernel always) 1%positive [Call_get 0; Tick 0] demo_fresh = Some s1 /\
    thr s1 = [Holding 3%positive; Out] /\
    run (K := demo_kernel always) 1%positive [Call_put 0; Tick 0; Tick 0] s1 = Some demo_fresh.
Proof.
  assert (P : pool_of 1%positive (wd demo_fresh) = Some (Zmulti 4 1 [3%positive]))
    by (vm_compute; reflexivity).
  assert (S : settled (thr demo_fresh) = true) by reflexivity.
  split; [exact demo_fresh_reachable|]. split; [exact P|]. split; [exact S|].
  destruct (get_then_put_is_a_round_trip (K := demo_kernel always)
              1%positive demo_fresh (Zmulti 4 1 [3%positive]) 0%nat 3%positive []
              demo_fresh_reachable P eq_refl S eq_refl)
    as (s1 & Hget & Hthr & _ & _ & Hput).
  exists s1. split; [exact Hget|]. split; [exact Hthr|exact Hput].
Defined.


Lemma zcomp_set_max_streams_twice_witness :
  multi_reachable (K := demo_kernel always) 1%positive demo_busy /\
  step (K := demo_kernel always) 1%positive (Call_set_max 2) demo_busy = Some demo_lowered /\
  step (K := demo_kernel always) 1%positive (Call_set_max 2) demo_lowered = Some demo_lowered.
Proof.
  assert (S : step (K := demo_kernel always) 1%positive (Call_set_max 2) demo_busy
              = Some demo_lowered) by (vm_compute; reflexivity).
  split; [exact demo_busy_reachable|]. split; [exact S|].
  destruct (zcomp_set_max_streams_twice (K := demo_kernel always)
              1%positive demo_busy 2 demo_lowered demo_busy_reachable S) as (_ & H).
  exact H.
Defined.

Lemma pool_stays_within_its_limit_witness :
  limit_untouched [Call_get 0; Tick 0; Call_get 1; Tick 1; Tick 1] = true /\
  exists m,
    pool_of 1%positive (wd demo_two) = Some m /\
    max_strm m = 4 /\ 1 <= avail_strm m <= 4.
Proof.
  split; [reflexivity|].
  assert (M : 1 < 4 <= INT_MAX) by (unfold INT_MAX; lia).
  assert (B : boot (K := demo_kernel always) "lzo" 4 2 demo_w0
              = Some (1%positive, demo_state always 4 2 [])) by (vm_compute; reflexivity).
  assert (R : run (K := demo_kernel always) 1%positive
                [Call_get 0; Tick 0; Call_get 1; Tick 1; Tick 1] (demo_state always 4 2 [])
              = Some demo_two) by (vm_compute; reflexivity).
  destruct (pool_stays_within_its_limit (K := demo_kernel always)
              "lzo" 4 2 demo_w0 1%positive (demo_state always 4 2 [])
              [Call_get 0; Tick 0; Call_get 1; Tick 1; Tick 1] demo_two
              M B eq_refl R)
    as (m & Hm & Hmax & Hav & _).
  exists m. split; [exact Hm|]. split; [exact Hmax|exact Hav].
Defined.

Lemma fresh_pool_serves_max_callers_witness :
  (forall i, alloc_ok (kernel := demo_kernel always) i = true) /\
  exists s s',
    run (K := demo_kernel always) 1%positive (fill 2) (demo_state always 2 3 []) = Some s /\
    run (K := demo_kernel always) 1%positive [Call_get 2; Tick 2; Tick 2] s = Some s' /\
    thr s' !! 2%nat = Some Find_sleep.
Proof.
  assert (A : forall i, alloc_ok (kernel := demo_kernel always) i = true)
    by (intros i; reflexivity).
  assert (M : 1 < 2 <= INT_MAX) by (unfold INT_MAX; lia).
  assert (B : boot (K := demo_kernel always) "lzo" 2 3 demo_w0
              = Some (1%positive, demo_state always 2 3 [])) by (vm_compute; reflexivity).
  assert (N : (Z.to_nat 2 < 3)%nat) by (simpl; lia).
  split; [exact A|].
  destruct (fresh_pool_serves_max_callers (K := demo_kernel always)
              "lzo" 2 3 demo_w0 1%positive (demo_state always 2 3 []) M A B N)
    as (s & s' & _ & _ & Hfill & _ & _ & Hnext & Hsleep & _).
  exists s, s'. split; [exact Hfill|]. split; [exact Hnext|exact Hsleep].
Defined.

Lemma zcomp_strm_single_find_is_exclusive_witness :
  thr demo_single = [Holding 3%positive; Out] /\
  zcomp_stream_get 1%positive (wd demo_single) = Some (None, wd demo_single).
Proof.
  split; [reflexivity|].
  assert (M : 1 <= 1) by lia.
  assert (B : boot (K := demo_kernel always) "lzo" 1 2 demo_w0
              = Some (1%positive, demo_state always 1 2 [])) by (vm_compute; reflexivity).
  assert (R : run (K := demo_kernel always) 1%positive [Call_get 0]
                (demo_state always 1 2 []) = Some demo_single) by (vm_compute; reflexivity).
  destruct (zcomp_strm_single_find_is_exclusive (K := demo_kernel always)
              "lzo" 1 2 demo_w0 1%positive (demo_state always 1 2 []) [Call_get 0]
              demo_single M B R)
    as (alg & z & t & b & blk & _ & Hall & _ & Hblock & _).
  destruct (Hall 0%nat (Holding 3%positive) eq_refl) as [E|E]; [discriminate E|].
  injection E as E. apply (Hblock 0%nat). rewrite <- E. reflexivity.
Defined.

Lemma zcomp_strm_single_memory_is_fixed_witness :
  exists alg zs z t b blk lk,
    hp (wd demo_single) = single_heap (hp demo_w0) alg 1%positive zs z t b blk lk /\
    nreq (wd demo_single) = 5%nat.
Proof.
  assert (M : 1 <= 1) by lia.
  assert (B : boot (K := demo_kernel always) "lzo" 1 2 demo_w0
              = Some (1%positive, demo_state always 1 2 [])) by (vm_compute; reflexivity).
  assert (R : run (K := demo_kernel always) 1%positive [Call_get 0]
                (demo_state always 1 2 []) = Some demo_single) by (vm_compute; reflexivity).
  destruct (zcomp_strm_single_memory_is_fixed (K := demo_kernel always)
              "lzo" 1 2 demo_w0 1%positive (demo_state always 1 2 []) [Call_get 0]
              demo_single M B R)
    as (alg & zs & z & t & b & blk & lk & Hh & Hn & _).
  exists alg, zs, z, t, b, blk, lk. split; [exact Hh|exact Hn].
Defined.

Lemma zcomp_destroy_single_leaves_nothing_witness :
  thr demo_single = [Holding 3%positive; Out] /\
  exists w',
    zcomp_destroy 1%positive (wd demo_single) = Some (tt, w') /\ hp w' = hp demo_w0.
Proof.
  split; [reflexivity|].
  apply (zcomp_destroy_single_leaves_nothing (K := demo_kernel always)
           "lzo" 1 2 demo_w0 1%positive (demo_state always 1 2 []) [Call_get 0] demo_single).
  - lia.
  - vm_compute. reflexivity.
  - vm_compute. reflexivity.
Defined.

Lemma demo_codec_keeps_to_room :
  keeps_to_room (crypto_comp_compress (crypto_comp := demo_codec)).
Proof.
  intros alg src room. cbn [crypto_comp_compress demo_codec snd].
  rewrite length_take. lia.
Defined.

Lemma demo_codec_lossless :
  lossless_on_pages (K := demo_kernel always) (C := demo_codec).
Proof.
  intros alg page out Hlen H.
  change (PAGE_SIZE (kernel := demo_kernel always)) with 4096%nat in *.
  cbn [crypto_comp_compress crypto_comp_decompress demo_codec] in *.
  injection H as <-. f_equal.
  rewrite take_take. apply take_ge. lia.
Defined.

Lemma demo_stream_live :
  strm_live (K := demo_kernel always) (hp (wd demo_fresh)) "lzo" 3%positive 1%positive
    1%positive (Pages 1 (replicate (2 * 4096) Byte.x00)).
Proof. repeat split; vm_compute; reflexivity. Defined.

Lemma zcomp_compress_stays_in_the_buffer_witness :
  exists w',
    zcomp_compress (K := demo_kernel always) (C := demo_codec)
      3%positive demo_page (wd demo_fresh) = Some ((0, 4096%nat), w') /\
    slab (hp w') = slab (hp (wd demo_fresh)).
Proof.
  assert (S : (PAGE_SIZE (kernel := demo_kernel always) <= length demo_page)%nat)
    by (vm_compute; lia).
  destruct (zcomp_compress_stays_in_the_buffer (K := demo_kernel always) (C := demo_codec)
              (wd demo_fresh) "lzo" 3%positive 1%positive 1%positive
              (Pages 1 (replicate (2 * 4096) Byte.x00)) demo_page
              demo_codec_keeps_to_room demo_stream_live S)
    as (r & out & w' & blk' & E & Hc & _ & _ & _ & Hs & _).
  vm_compute in E. injection E as <- <-.
  exists w'. split; [exact Hc|exact Hs].
Defined.

Lemma zcomp_decompress_undoes_compress_witness :
  exists w1 buf,
    zcomp_compress (K := demo_kernel always) (C := demo_codec)
      3%positive demo_page (wd demo_fresh) = Some ((0, 4096%nat), w1) /\
    buffer_of (hp w1) 3%positive = Some buf /\
    zcomp_decompress (K := demo_kernel always) (C := demo_codec)
      3%positive buf 4096 (replicate 4096 Byte.xff) w1 = Some ((0, demo_page), w1).
Proof.
  destruct (zcomp_compress (K := demo_kernel always) (C := demo_codec)
              3%positive demo_page (wd demo_fresh)) as [[[r len] w1]|] eqn:E;
    [|vm_compute in E; discriminate E].
  assert (Er : r = 0 /\ len = 4096%nat).
  { vm_compute in E. injection E as <- <- _. split; reflexivity. }
  destruct Er as (-> & ->).
  assert (Lp : length demo_page = PAGE_SIZE (kernel := demo_kernel always))
    by (vm_compute; reflexivity).
  assert (Ld : length (replicate 4096 Byte.xff) = PAGE_SIZE (kernel := demo_kernel always))
    by (vm_compute; reflexivity).
  destruct (zcomp_decompress_undoes_compress (K := demo_kernel always) (C := demo_codec)
              (wd demo_fresh) "lzo" 3%positive 1%positive 1%positive
              (Pages 1 (replicate (2 * 4096) Byte.x00)) demo_page (replicate 4096 Byte.xff)
              w1 4096%nat demo_codec_keeps_to_room demo_codec_lossless demo_stream_live
              Lp Ld E)
    as (buf & Hb & Hd).
  exists w1, buf. split; [reflexivity|]. split; [exact Hb|exact Hd].
Defined.

Lemma holder_can_always_compress_witness :
  multi_reachable (K := demo_kernel always) 1%positive demo_busy /\
  thr demo_busy !! 1%nat = Some (Holding 4%positive) /\
  exists r len w',
    zcomp_compress (K := demo_kernel always) (C := demo_codec)
      4%positive demo_page (wd demo_busy) = Some ((r, len), w') /\
    pool_of 1%positive w' = pool_of 1%positive (wd demo_busy).
Proof.
  assert (S : (PAGE_SIZE (kernel := demo_kernel always) <= length demo_page)%nat)
    by (vm_compute; lia).
  split; [exact demo_busy_reachable|]. split; [reflexivity|].
  destruct (holder_can_always_compress (K := demo_kernel always) (C := demo_codec)
              1%positive demo_busy 1%nat 4%positive demo_page
              demo_busy_reachable eq_refl demo_codec_keeps_to_room S)
    as (r & len & w' & Hc & _ & _ & Hp & _).
  exists r, len, w'. split; [exact Hc|exact Hp].
Defined.
